(** * TeslaJustice: the case deduplication and linking pipeline

    A shallow embedding of [src/lib/caseManagement.ts] (the functions
    [createCaseFromSocialMedia], [linkSourceToCase], [addMediaToCase],
    [createCaseUpdate], [linkRelatedCases], [findPotentialDuplicates],
    [determineTargetType], [createTargetDetails], [determineBuildingType],
    [determinePropertyType], [determineDamageType], [generateHeadline],
    [generateSummary], [updateCase], [getCases]), of
    [src/lib/socialMediaIntegration.ts] ([storeSocialMediaSource],
    [searchTwitter], [simulateTwitterSearch]) and of [src/lib/aiAnalysis.ts]
    ([analyzeTextContent], [analyzeTwitterSearchResults],
    [extractLocationInfo], [extractVehicleInfo], [extractYear],
    [extractEntities], [extractMediaUrls], [generateSummary],
    [analyzeMediaContent], [detectDuplicateIncidents]), with the CHECK
    constraints of the schema in [src/lib/supabaseClient.ts], followed by
    the properties proved about them.

    Modelling conventions.
    - JavaScript numbers are modelled as exact rationals ([Q]); timestamps
      are integers ([Z], milliseconds since the epoch, what [getTime()]
      returns).
    - JavaScript strings are modelled as [string] (ASCII content);
      [toLowerCase] maps [A-Z] to [a-z].
    - A property or column that may be [undefined], [null] or a string is a
      [JsStr]; [===] is equality on that type and [x || d] tests
      truthiness.
    - The Supabase client is the external Case Repository: every call
      returns a response [{data, error}] and never throws.  Whether a call
      is rejected is decided by an arbitrary oracle [faults]; a rejected
      call leaves the tables untouched, an accepted insert appends its rows.
      Every call is recorded in a trace.  For the calls of [updateCase] and
      [getCases] the answer of the repository is an argument of the
      function instead.
    - Identifiers generated by the repository (UUIDs) are numbers drawn
      from a counter; [created_at] is the reading of a clock, an arbitrary
      function [clock] of the number of readings taken so far.
    - [async] functions are computations in a state-and-exception monad over
      the repository; [try]/[catch] is [tryCatch]; [console.error] appends
      to a console.
    - Regular expressions are syntax trees run by a backtracking matcher
      (module [Regex]).
    - What the code takes from the JavaScript library or from the database
      and the repository does not define ([Date.prototype.getFullYear],
      [toISOString], the parsing of a date, full-text search) is a
      parameter. *)

From Stdlib Require Import List String Ascii ZArith QArith Bool Lia Lqa.
Import ListNotations.

Set Implicit Arguments.

(* ===================================================================== *)
(** ** JavaScript values and string helpers *)
(* ===================================================================== *)

Module Js.

Local Open Scope string_scope.

(** A value that is [undefined], [null] or a string. *)
Inductive JsStr : Type :=
| Undefined
| Null
| Str (s : string).

(** [a === b] *)
Definition strict_eq (a b : JsStr) : bool :=
  match a, b with
  | Undefined, Undefined => true
  | Null, Null => true
  | Str x, Str y => String.eqb x y
  | _, _ => false
  end.

(** Truthiness of a string-valued slot: [undefined], [null] and [''] are
    falsy. *)
Definition truthy (a : JsStr) : bool :=
  match a with
  | Str s => negb (String.eqb s "")
  | _ => false
  end.

(** [a || d] where the result is used as a string. *)
Definition or_str (a : JsStr) (d : string) : string :=
  match a with
  | Str s => if String.eqb s "" then d else s
  | _ => d
  end.

(** [a || null] *)
Definition or_null (a : JsStr) : JsStr :=
  if truthy a then a else Null.

(** The text a template literal [`${a}`] produces. *)
Definition render (a : JsStr) : string :=
  match a with
  | Undefined => "undefined"
  | Null => "null"
  | Str s => s
  end.

Definition lower_ascii (c : ascii) : ascii :=
  let n := N_of_ascii c in
  if ((65 <=? n) && (n <=? 90))%N then ascii_of_N (n + 32) else c.

(** [s.toLowerCase()] *)
Fixpoint toLowerCase (s : string) : string :=
  match s with
  | EmptyString => EmptyString
  | String c r => String (lower_ascii c) (toLowerCase r)
  end.

(** [s.includes(sub)] *)
Fixpoint includes (s sub : string) : bool :=
  String.prefix sub s
  || match s with
     | EmptyString => false
     | String _ r => includes r sub
     end.

(** [arr.includes(x)] on an array of strings. *)
Definition arr_includes (arr : list string) (x : string) : bool :=
  existsb (String.eqb x) arr.

(** [s.substring(n)] *)
Definition substring_from (n : nat) (s : string) : string :=
  String.substring n (String.length s - n) s.

(** [s.replace(/\.mp4$/, '.jpg')] *)
Definition replace_mp4_suffix (s : string) : string :=
  let n := String.length s in
  if (4 <=? n)%nat && String.eqb (String.substring (n - 4) 4 s) ".mp4"
  then String.substring 0 (n - 4) s ++ ".jpg"
  else s.

End Js.

Import Js.

(* ===================================================================== *)
(** ** Data model *)
(* ===================================================================== *)

(** [analysis.locationInfo] *)
Record LocationInfo : Type := mkLocationInfo {
  city : JsStr;
  state : JsStr;
  country : JsStr
}.

(** [{}] *)
Definition emptyLocationInfo : LocationInfo :=
  mkLocationInfo Undefined Undefined Undefined.

(** [analysis.vehicleInfo] *)
Record VehicleInfo : Type := mkVehicleInfo {
  vi_model : JsStr;
  vi_color : JsStr;
  vi_year : JsStr
}.

(** One entry of [analysis.mediaUrls]. *)
Record MediaItem : Type := mkMediaItem {
  media_url : string;
  media_type_tag : string;
  media_width : option Z;
  media_height : option Z;
  media_duration : option Z
}.

(** The [analysis: any] argument: the fields the case-management code
    reads.  [None] is an absent ([undefined]) field. *)
Record Analysis : Type := mkAnalysis {
  vehicleInfo : option VehicleInfo;
  text : JsStr;
  summary : JsStr;
  locationInfo : option LocationInfo;
  mediaUrls : option (list MediaItem);
  relevanceScore : option Q;
  an_platform : JsStr
}.

(** The object [createTargetDetails] returns, and the [target_details]
    JSON column of a case.  Absent properties are [Undefined]. *)
Record TargetDetails : Type := mkTargetDetails {
  td_type : string;
  td_make : JsStr;
  td_model : JsStr;
  td_color : JsStr;
  td_year : JsStr;
  td_building_type : JsStr;
  td_property_type : JsStr
}.

(** Identifiers the repository generates (UUIDs), modelled as numbers. *)
Definition Id := nat.

(** [SocialMediaSource] of [types.ts]. *)
Record SocialMediaSource : Type := mkSource {
  src_id : option Id;
  src_platform : string;
  src_platform_id : string;
  src_url : string;
  src_author_username : string;
  src_author_display_name : JsStr;
  src_author_avatar_url : JsStr;
  src_content : string;
  src_posted_at : string;
  src_is_reply : option bool;
  src_reply_to_id : option Id;
  src_metadata : JsStr
}.

(** A row of table [cases]. *)
Record Case : Type := mkCase {
  case_id : Id;
  headline : string;
  case_summary : string;
  target_type : string;
  target_details : TargetDetails;
  location_city : JsStr;
  location_state : JsStr;
  location_country : JsStr;
  status : string;
  damage_type : option (list string);
  ai_confidence : Q;
  is_verified : bool;
  created_at : Z
}.

(** A row of table [social_media_sources]. *)
Record SourceRow : Type := mkSourceRow {
  sr_id : Id;
  sr_platform : string;
  sr_platform_id : string;
  sr_url : string;
  sr_author_username : string;
  sr_author_display_name : string;
  sr_author_avatar_url : string;
  sr_content : string;
  sr_posted_at : string;
  sr_is_reply : bool;
  sr_reply_to_id : option Id;
  sr_metadata : string
}.

(** A row of table [case_updates]. *)
Record CaseUpdate : Type := mkCaseUpdate {
  cu_case_id : Id;
  cu_source_id : option Id;
  cu_update_type : string;
  cu_title : string;
  cu_description : string;
  cu_is_public : bool;
  cu_importance : Z
}.

(** A row of table [case_media]. *)
Record CaseMedia : Type := mkCaseMedia {
  cm_case_id : Id;
  cm_source_id : option Id;
  cm_media_type : string;
  cm_url : string;
  cm_thumbnail_url : string;
  cm_width : Z;
  cm_height : Z;
  cm_duration : Z;
  cm_is_primary : bool;
  cm_ai_analysis : string
}.

(** A row of table [related_cases]. *)
Record RelatedCase : Type := mkRelatedCase {
  rc_case_id : Id;
  rc_related_case_id : Id;
  rc_relationship_type : string;
  rc_relationship_strength : Q;
  rc_is_ai_generated : bool
}.

(* ===================================================================== *)
(** ** Classification and record synthesis (pure functions) *)
(* ===================================================================== *)

Section Classification.

Local Open Scope string_scope.

(** [determineTargetType(content, analysis)] *)
Definition determineTargetType (content : string) (analysis : Analysis) : string :=
  let textLower := toLowerCase content in
  if includes textLower "building"
     || includes textLower "store"
     || includes textLower "dealership"
     || includes textLower "showroom"
     || includes textLower "supercharger"
  then "building"
  else if includes textLower "property"
          || includes textLower "sign"
          || includes textLower "billboard"
  then "property"
  else "vehicle".

(** [determineBuildingType(text)] *)
Definition determineBuildingType (text : string) : string :=
  let textLower := toLowerCase text in
  if includes textLower "dealership" || includes textLower "showroom" then "dealership"
  else if includes textLower "supercharger" || includes textLower "charging" then "supercharger"
  else if includes textLower "store" then "store"
  else if includes textLower "factory" || includes textLower "gigafactory" then "factory"
  else "other".

(** [determinePropertyType(text)] *)
Definition determinePropertyType (text : string) : string :=
  let textLower := toLowerCase text in
  if includes textLower "sign" || includes textLower "billboard" then "sign"
  else if includes textLower "equipment" then "equipment"
  else "other".

(** [analysis.vehicleInfo?.f] *)
Definition vehicleField (f : VehicleInfo -> JsStr) (analysis : Analysis) : JsStr :=
  match vehicleInfo analysis with
  | Some v => f v
  | None => Undefined
  end.

(** [analysis.locationInfo?.f] *)
Definition locationField (f : LocationInfo -> JsStr) (analysis : Analysis) : JsStr :=
  match locationInfo analysis with
  | Some l => f l
  | None => Undefined
  end.

(** [createTargetDetails(targetType, analysis)] *)
Definition createTargetDetails (targetType : string) (analysis : Analysis) : TargetDetails :=
  if String.eqb targetType "vehicle" then
    {| td_type := "vehicle";
       td_make := Str "Tesla";
       td_model := Str (or_str (vehicleField vi_model analysis) "");
       td_color := Str (or_str (vehicleField vi_color analysis) "");
       td_year := Str (or_str (vehicleField vi_year analysis) "");
       td_building_type := Undefined;
       td_property_type := Undefined |}
  else if String.eqb targetType "building" then
    {| td_type := "building";
       td_make := Undefined; td_model := Undefined;
       td_color := Undefined; td_year := Undefined;
       td_building_type := Str (determineBuildingType (or_str (text analysis) ""));
       td_property_type := Undefined |}
  else
    {| td_type := "property";
       td_make := Undefined; td_model := Undefined;
       td_color := Undefined; td_year := Undefined;
       td_building_type := Undefined;
       td_property_type := Str (determinePropertyType (or_str (text analysis) "")) |}.

(** [if (c) damageTypes.push(tag)] *)
Definition pushIf (c : bool) (tag : string) (damageTypes : list string) : list string :=
  if c then damageTypes ++ [tag] else damageTypes.

(** [determineDamageType(content, analysis)] *)
Definition determineDamageType (content : string) (analysis : Analysis) : list string :=
  let textLower := toLowerCase content in
  let damageTypes := [] in
  let damageTypes :=
    pushIf (includes textLower "key" || includes textLower "scratch")
           "keying" damageTypes in
  let damageTypes :=
    pushIf (includes textLower "window"
            && (includes textLower "break" || includes textLower "broke"
                || includes textLower "broken" || includes textLower "smash"))
           "broken_windows" damageTypes in
  let damageTypes :=
    pushIf (includes textLower "graffiti" || includes textLower "spray"
            || includes textLower "paint")
           "graffiti" damageTypes in
  let damageTypes :=
    pushIf (includes textLower "tire" || includes textLower "tyre"
            || includes textLower "slash")
           "tire_slashing" damageTypes in
  let damageTypes :=
    pushIf (includes textLower "fire" || includes textLower "burn"
            || includes textLower "arson")
           "arson" damageTypes in
  let damageTypes :=
    pushIf (includes textLower "dent" || includes textLower "hit"
            || includes textLower "smash")
           "denting" damageTypes in
  pushIf (Nat.eqb (List.length damageTypes) 0) "other_damage" damageTypes.

(** The location clause shared by headline and summary:
    [if (analysis.locationInfo?.city && analysis.locationInfo?.state)
       s += ` in ${city}, ${state}`] *)
Definition appendLocation (analysis : Analysis) (s : string) : string :=
  if truthy (locationField city analysis) && truthy (locationField state analysis)
  then s ++ " in " ++ render (locationField city analysis)
         ++ ", " ++ render (locationField state analysis)
  else s.

(** [generateHeadline(content, analysis, targetType)] *)
Definition generateHeadline (content : string) (analysis : Analysis)
    (targetType : string) : string :=
  let headline := "" in
  let headline :=
    if String.eqb targetType "vehicle" then
      let headline := "Tesla" in
      let headline :=
        if truthy (vehicleField vi_model analysis)
        then headline ++ " " ++ render (vehicleField vi_model analysis)
        else headline in
      headline ++ " vandalized"
    else if String.eqb targetType "building" then
      let buildingType := determineBuildingType content in
      "Tesla " ++ buildingType ++ " vandalized"
    else
      let propertyType := determinePropertyType content in
      "Tesla " ++ propertyType ++ " vandalized" in
  let headline := appendLocation analysis headline in
  let damageType := determineDamageType content analysis in
  if arr_includes damageType "keying" then headline ++ ": Keyed by vandal"
  else if arr_includes damageType "broken_windows" then headline ++ ": Windows smashed"
  else if arr_includes damageType "graffiti" then headline ++ ": Tagged with graffiti"
  else if arr_includes damageType "tire_slashing" then headline ++ ": Tires slashed"
  else if arr_includes damageType "arson" then headline ++ ": Set on fire"
  else if arr_includes damageType "denting" then headline ++ ": Body damaged"
  else headline.

(** [generateSummary(content, analysis, targetType)] *)
Definition generateSummary (content : string) (analysis : Analysis)
    (targetType : string) : string :=
  let summary := "" in
  let summary :=
    if String.eqb targetType "vehicle" then
      let summary := "A Tesla" in
      let summary :=
        if truthy (vehicleField vi_model analysis)
        then summary ++ " " ++ render (vehicleField vi_model analysis)
        else summary in
      let summary :=
        if truthy (vehicleField vi_color analysis)
        then "A " ++ render (vehicleField vi_color analysis) ++ " "
               ++ substring_from 2 summary
        else summary in
      summary ++ " was vandalized"
    else if String.eqb targetType "building" then
      let buildingType := determineBuildingType content in
      "A Tesla " ++ buildingType ++ " was vandalized"
    else
      let propertyType := determinePropertyType content in
      "Tesla " ++ propertyType ++ " was vandalized" in
  let summary := appendLocation analysis summary in
  let damageType := determineDamageType content analysis in
  let summary :=
    if arr_includes damageType "keying"
    then summary ++ ". The vehicle was keyed, causing damage to the paint."
    else if arr_includes damageType "broken_windows"
    then summary ++ ". One or more windows were broken or smashed."
    else if arr_includes damageType "graffiti"
    then summary ++ ". The target was tagged with graffiti."
    else if arr_includes damageType "tire_slashing"
    then summary ++ ". The tires were slashed or otherwise damaged."
    else if arr_includes damageType "arson"
    then summary ++ ". The target was set on fire or damaged by arson."
    else if arr_includes damageType "denting"
    then summary ++ ". The body was dented or physically damaged."
    else summary ++ ". The target sustained damage from vandalism." in
  summary ++ " This incident was reported on "
          ++ or_str (an_platform analysis) "social media" ++ ".".

End Classification.

(* ===================================================================== *)
(** ** The similarity score of one candidate *)
(* ===================================================================== *)

Section Scoring.

Local Open Scope Q_scope.

(** [a > b] on numbers. *)
Definition Qgtb (a b : Q) : bool := negb (Qle_bool a b).

(** [a < b] on numbers. *)
Definition Qltb (a b : Q) : bool := negb (Qle_bool b a).

(** [(now.getTime() - caseDate.getTime()) / (1000 * 60 * 60)] *)
Definition hoursDiff (now caseDate : Z) : Q :=
  inject_Z (now - caseDate) / inject_Z (1000 * 60 * 60).

(** [damageType.filter(type => caseDamageTypes.includes(type))] *)
Definition matchingDamageTypes (damageType caseDamageTypes : list string) : list string :=
  filter (fun type => arr_includes caseDamageTypes type) damageType.

(** [arr.length] as a number. *)
Definition len (A : Type) (l : list A) : Q := inject_Z (Z.of_nat (List.length l)).

(** The body of the callback of [cases.map] in [findPotentialDuplicates]:
    the score of candidate [case_], where [now] is the value of
    [new Date().getTime()] read in that iteration. *)
Definition scoreCase (locationInfo : LocationInfo) (targetDetails : TargetDetails)
    (damageType : list string) (now : Z) (case_ : Case) : Q :=
  let similarityScore := 0 in
  (* Location match *)
  let similarityScore :=
    if strict_eq (location_city case_) (city locationInfo) then
      let similarityScore := similarityScore + 0.3 in
      if strict_eq (location_state case_) (state locationInfo)
      then similarityScore + 0.1
      else similarityScore
    else similarityScore in
  (* Target details match *)
  let similarityScore :=
    if String.eqb (target_type case_) (td_type targetDetails) then
      let similarityScore := similarityScore + 0.2 in
      if String.eqb (target_type case_) "vehicle"
         && strict_eq (td_make (target_details case_)) (td_make targetDetails)
         && strict_eq (td_model (target_details case_)) (td_model targetDetails)
      then similarityScore + 0.2
      else similarityScore
    else similarityScore in
  (* Damage type match *)
  let caseDamageTypes :=
    match damage_type case_ with Some l => l | None => [] end in
  let matching := matchingDamageTypes damageType caseDamageTypes in
  let similarityScore :=
    if Qgtb (len matching) 0
    then similarityScore + 0.2 * (len matching / len damageType)
    else similarityScore in
  (* Time proximity *)
  let hours := hoursDiff now (created_at case_) in
  if Qltb hours 48
  then similarityScore + 0.2 * (1 - hours / 48)
  else similarityScore.

(** An element of the array [findPotentialDuplicates] returns. *)
Record Scored : Type := mkScored {
  sc_case : Case;
  similarityScore : Q
}.

(** [arr.sort((a, b) => b.similarityScore - a.similarityScore)]: a stable
    sort, highest score first. *)
Fixpoint insertByScore (x : Scored) (l : list Scored) : list Scored :=
  match l with
  | [] => [x]
  | y :: ys =>
      if Qgtb (similarityScore y) (similarityScore x)
      then y :: insertByScore x ys
      else x :: y :: ys
  end.

Definition sortByScore (l : list Scored) : list Scored :=
  fold_right insertByScore [] l.

End Scoring.

(* ===================================================================== *)
(** ** The Case Repository and the effect monad *)
(* ===================================================================== *)

(** The kinds of call the pipeline makes on the Supabase client. *)
Inductive CallKind : Type :=
| SelectSource
| InsertSource
| InsertCase
| InsertCaseUpdate
| InsertCaseMedia
| InsertRelatedCases
| SelectCases.

(** One recorded call: its kind and whether the repository rejected it. *)
Record Call : Type := mkCall {
  call_kind : CallKind;
  call_failed : bool
}.

(** What a call can put in the [error] field of its response, or what a
    [throw] carries. *)
Inductive Error : Type :=
| RepositoryError (k : CallKind)
| NoSingleRow
| TypeError.

(** The state of the outside world: the five tables the pipeline touches,
    the trace of repository calls, the number of clock readings taken, the
    identifier generator and the console. *)
Record World : Type := mkWorld {
  cases : list Case;
  social_media_sources : list SourceRow;
  case_updates : list CaseUpdate;
  case_media : list CaseMedia;
  related_cases : list RelatedCase;
  trace : list Call;
  clock_reads : nat;
  next_id : Id;
  console : list string
}.

(** The [{ data, error }] object a Supabase call resolves to. *)
Record Response (A : Type) : Type := mkResponse {
  data : option A;
  error : option Error
}.

(** How a computation ends: it returns a value or throws. *)
Inductive Outcome (A : Type) : Type :=
| Returned (a : A)
| Thrown (e : Error).

Arguments Thrown {A} e.

Definition M (A : Type) : Type := World -> Outcome A * World.

Definition ret {A : Type} (a : A) : M A := fun w => (Returned a, w).

Definition throw {A : Type} (e : Error) : M A := fun w => (Thrown e, w).

Definition bind {A B : Type} (m : M A) (k : A -> M B) : M B :=
  fun w =>
    match m w with
    | (Returned a, w1) => k a w1
    | (Thrown e, w1) => (Thrown e, w1)
    end.

(** [try { m } catch (error) { handler error }] *)
Definition tryCatch {A : Type} (m : M A) (handler : Error -> M A) : M A :=
  fun w =>
    match m w with
    | (Returned a, w1) => (Returned a, w1)
    | (Thrown e, w1) => handler e w1
    end.

Declare Scope monad_scope.
Delimit Scope monad_scope with monad.
Notation "x <- m ;; k" := (bind m (fun x => k))
  (at level 61, m at next level, right associativity) : monad_scope.
Notation "m ;; k" := (bind m (fun _ => k))
  (at level 61, right associativity) : monad_scope.

Local Open Scope monad_scope.

(** [for (const x of l) { await f(x) }] with the index of [entries()]. *)
Fixpoint forEachFrom {A : Type} (index : nat) (l : list A) (f : nat -> A -> M unit)
  : M unit :=
  match l with
  | [] => ret tt
  | x :: xs => f index x ;; forEachFrom (S index) xs f
  end.

(** [l.map(f)] for a callback that reads the world. *)
Fixpoint mapM {A B : Type} (f : A -> M B) (l : list A) : M (list B) :=
  match l with
  | [] => ret []
  | x :: xs => y <- f x ;; ys <- mapM f xs ;; ret (y :: ys)
  end.

(** [console.error(msg, error)] *)
Definition console_error (msg : string) : M unit :=
  fun w =>
    (Returned tt,
     mkWorld (cases w) (social_media_sources w) (case_updates w) (case_media w)
             (related_cases w) (trace w) (clock_reads w) (next_id w)
             (console w ++ [msg])).

Section Repository.

(** [faults n] tells whether the repository rejects the call made after [n]
    earlier calls; [clock n] is the time in milliseconds observed at the
    [n]-th reading. *)
Variable faults : nat -> bool.
Variable clock : nat -> Z.

(** [new Date().getTime()], also the [NOW()] default of [created_at]. *)
Definition readClock (w : World) : Z * World :=
  (clock (clock_reads w),
   mkWorld (cases w) (social_media_sources w) (case_updates w) (case_media w)
           (related_cases w) (trace w) (S (clock_reads w)) (next_id w) (console w)).

Definition newDate : M Z :=
  fun w => let (t, w1) := readClock w in (Returned t, w1).

(** Records a call of kind [k] in the trace and tells whether it is
    rejected. *)
Definition recordCall (k : CallKind) (w : World) : bool * World :=
  let failed := faults (List.length (trace w)) in
  (failed,
   mkWorld (cases w) (social_media_sources w) (case_updates w) (case_media w)
           (related_cases w) (trace w ++ [mkCall k failed]) (clock_reads w)
           (next_id w) (console w)).

Definition rejected {A : Type} (k : CallKind) : Response A :=
  mkResponse None (Some (RepositoryError k)).

Definition sameSource (platform platform_id : string) (r : SourceRow) : bool :=
  String.eqb (sr_platform r) platform && String.eqb (sr_platform_id r) platform_id.

(** [supabase.from('social_media_sources').select('id')
      .eq('platform', p).eq('platform_id', i).single()]:
    data only if exactly one row matches. *)
Definition selectSourceId (platform platform_id : string) : M (Response Id) :=
  fun w =>
    let (failed, w1) := recordCall SelectSource w in
    if failed then (Returned (rejected SelectSource), w1)
    else
      match filter (sameSource platform platform_id) (social_media_sources w1) with
      | [r] => (Returned (mkResponse (Some (sr_id r)) None), w1)
      | _ => (Returned (mkResponse None (Some NoSingleRow)), w1)
      end.

(** [supabase.from('social_media_sources').insert({...}).select().single()];
    the row is given without its identifier, which the repository
    generates. *)
Definition insertSource (row : Id -> SourceRow) : M (Response SourceRow) :=
  fun w =>
    let (failed, w1) := recordCall InsertSource w in
    if failed then (Returned (rejected InsertSource), w1)
    else
      let r := row (next_id w1) in
      (Returned (mkResponse (Some r) None),
       mkWorld (cases w1) (social_media_sources w1 ++ [r]) (case_updates w1)
               (case_media w1) (related_cases w1) (trace w1) (clock_reads w1)
               (S (next_id w1)) (console w1)).

(** [supabase.from('cases').insert({...}).select().single()]; the
    repository generates [id] and [created_at]. *)
Definition insertCase (row : Id -> Z -> Case) : M (Response Case) :=
  fun w =>
    let (failed, w1) := recordCall InsertCase w in
    if failed then (Returned (rejected InsertCase), w1)
    else
      let (t, w2) := readClock w1 in
      let r := row (next_id w2) t in
      (Returned (mkResponse (Some r) None),
       mkWorld (cases w2 ++ [r]) (social_media_sources w2) (case_updates w2)
               (case_media w2) (related_cases w2) (trace w2) (clock_reads w2)
               (S (next_id w2)) (console w2)).

(** [supabase.from('case_updates').insert(update)] *)
Definition insertCaseUpdate (update : CaseUpdate) : M (Response unit) :=
  fun w =>
    let (failed, w1) := recordCall InsertCaseUpdate w in
    if failed then (Returned (rejected InsertCaseUpdate), w1)
    else
      (Returned (mkResponse (Some tt) None),
       mkWorld (cases w1) (social_media_sources w1) (case_updates w1 ++ [update])
               (case_media w1) (related_cases w1) (trace w1) (clock_reads w1)
               (next_id w1) (console w1)).

(** [supabase.from('case_media').insert({...})] *)
Definition insertCaseMedia (row : CaseMedia) : M (Response unit) :=
  fun w =>
    let (failed, w1) := recordCall InsertCaseMedia w in
    if failed then (Returned (rejected InsertCaseMedia), w1)
    else
      (Returned (mkResponse (Some tt) None),
       mkWorld (cases w1) (social_media_sources w1) (case_updates w1)
               (case_media w1 ++ [row]) (related_cases w1) (trace w1)
               (clock_reads w1) (next_id w1) (console w1)).

(** [supabase.from('related_cases').insert([...])]: one statement, so the
    rows are stored together or not at all. *)
Definition insertRelatedCases (rows : list RelatedCase) : M (Response unit) :=
  fun w =>
    let (failed, w1) := recordCall InsertRelatedCases w in
    if failed then (Returned (rejected InsertRelatedCases), w1)
    else
      (Returned (mkResponse (Some tt) None),
       mkWorld (cases w1) (social_media_sources w1) (case_updates w1)
               (case_media w1) (related_cases w1 ++ rows) (trace w1)
               (clock_reads w1) (next_id w1) (console w1)).

(** The filter [.eq(column, value)]: the value is sent as text, and a
    [NULL] column matches nothing. *)
Definition eqFilter (column : JsStr) (value : JsStr) : bool :=
  match column with
  | Str c => String.eqb c (render value)
  | _ => false
  end.

(** [.order('created_at', { ascending: false })]: most recent first; rows
    with equal time stamps keep their table order. *)
Fixpoint insertByDate (x : Case) (l : list Case) : list Case :=
  match l with
  | [] => [x]
  | y :: ys =>
      if (created_at x <? created_at y)%Z
      then y :: insertByDate x ys
      else x :: y :: ys
  end.

Definition orderByCreatedDesc (l : list Case) : list Case :=
  fold_right insertByDate [] l.

(** [supabase.from('cases').select('*').eq('location_city', city)
      .eq('target_type', type).order('created_at', {ascending: false})
      .limit(10)] *)
Definition selectCases (city : JsStr) (type : string) : M (Response (list Case)) :=
  fun w =>
    let (failed, w1) := recordCall SelectCases w in
    if failed then (Returned (rejected SelectCases), w1)
    else
      let rows :=
        filter (fun c => eqFilter (location_city c) city
                         && String.eqb (target_type c) type) (cases w1) in
      (Returned (mkResponse (Some (firstn 10 (orderByCreatedDesc rows))) None), w1).

End Repository.

(* ===================================================================== *)
(** ** The pipeline *)
(* ===================================================================== *)

(** The object [createCaseFromSocialMedia] resolves to. *)
Record CaseResult : Type := mkCaseResult {
  caseId : Id;
  isNewCase : bool;
  isDuplicate : bool
}.

(** [analyzeMediaContent(mediaUrl, mediaType)] of [aiAnalysis.ts]: a
    placeholder that ignores its arguments. *)
Definition analyzeMediaContent (mediaUrl mediaType : string) : string :=
  "{isVandalism: true, confidence: 0.85, damageType: 'unknown', damageLocation: 'vehicle_body', detectedObjects: ['car', 'person'], analysis: 'Media appears to show damage to a Tesla vehicle'}"%string.

Section Pipeline.

Variable faults : nat -> bool.
Variable clock : nat -> Z.

Local Open Scope string_scope.

(** The row [{ platform: source.platform, ..., metadata: source.metadata || {} }]
    both [storeSocialMediaSource] and [linkSourceToCase] insert. *)
Definition sourceRowOf (source : SocialMediaSource) (id : Id) : SourceRow :=
  {| sr_id := id;
     sr_platform := src_platform source;
     sr_platform_id := src_platform_id source;
     sr_url := src_url source;
     sr_author_username := src_author_username source;
     sr_author_display_name := or_str (src_author_display_name source) "";
     sr_author_avatar_url := or_str (src_author_avatar_url source) "";
     sr_content := src_content source;
     sr_posted_at := src_posted_at source;
     sr_is_reply := match src_is_reply source with Some b => b | None => false end;
     sr_reply_to_id := src_reply_to_id source;
     sr_metadata := or_str (src_metadata source) "{}" |}.

(** [newSource.id] where [newSource] is the [data] of a response: a
    [TypeError] when it is [null]. *)
Definition idOfData (d : option SourceRow) : M Id :=
  match d with
  | Some r => ret (sr_id r)
  | None => throw TypeError
  end.

(** [storeSocialMediaSource(source)] *)
Definition storeSocialMediaSource (source : SocialMediaSource) : M Id :=
  tryCatch
    (existing <- selectSourceId faults (src_platform source) (src_platform_id source) ;;
     match data existing with
     | Some id => ret id
     | None =>
         inserted <- insertSource faults (sourceRowOf source) ;;
         match error inserted with
         | Some insertError => throw insertError
         | None => idOfData (data inserted)
         end
     end)
    (fun e => console_error "Error storing social media source:" ;; throw e).

(** [createCaseUpdate(update)] *)
Definition createCaseUpdate (update : CaseUpdate) : M unit :=
  tryCatch
    (r <- insertCaseUpdate faults update ;;
     match error r with
     | Some e => throw e
     | None => ret tt
     end)
    (fun e => console_error "Error creating case update:" ;; throw e).

(** [linkSourceToCase(source, caseId)] *)
Definition linkSourceToCase (source : SocialMediaSource) (caseId : Id) : M Id :=
  tryCatch
    (existing <- selectSourceId faults (src_platform source) (src_platform_id source) ;;
     sourceId <-
       match data existing with
       | Some id => ret id
       | None =>
           inserted <- insertSource faults (sourceRowOf source) ;;
           match error inserted with
           | Some insertError => throw insertError
           | None => idOfData (data inserted)
           end
       end ;;
     createCaseUpdate
       {| cu_case_id := caseId;
          cu_source_id := Some sourceId;
          cu_update_type := "new_information";
          cu_title := "New information from " ++ src_platform source;
          cu_description :=
            "A post on " ++ src_platform source ++ " by @"
              ++ src_author_username source ++ " has been linked to this case.";
          cu_is_public := true;
          cu_importance := 3 |} ;;
     ret sourceId)
    (fun e => console_error "Error linking source to case:" ;; throw e).

(** [x || 0] on an optional number. *)
Definition or_zero (x : option Z) : Z :=
  match x with Some z => z | None => 0%Z end.

(** The row [addMediaToCase] inserts for the media item at [index]. *)
Definition mediaRowOf (caseId : Id) (sourceId : option Id) (index : nat)
    (media : MediaItem) : CaseMedia :=
  let mediaAnalysis := analyzeMediaContent (media_url media) (media_type_tag media) in
  {| cm_case_id := caseId;
     cm_source_id := sourceId;
     cm_media_type := if String.eqb (media_type_tag media) "video" then "video" else "image";
     cm_url := media_url media;
     cm_thumbnail_url :=
       if String.eqb (media_type_tag media) "video"
       then replace_mp4_suffix (media_url media)
       else media_url media;
     cm_width := or_zero (media_width media);
     cm_height := or_zero (media_height media);
     cm_duration := or_zero (media_duration media);
     cm_is_primary := Nat.eqb index 0;
     cm_ai_analysis := mediaAnalysis |}.

(** [addMediaToCase(caseId, sourceId, mediaUrls)]; the response of the
    insert is not inspected. *)
Definition addMediaToCase (caseId : Id) (sourceId : option Id)
    (mediaUrls : list MediaItem) : M unit :=
  tryCatch
    (forEachFrom 0 mediaUrls
       (fun index media =>
          insertCaseMedia faults (mediaRowOf caseId sourceId index media) ;;
          ret tt))
    (fun e => console_error "Error adding media to case:" ;; throw e).

(** The two rows [linkRelatedCases] inserts. *)
Definition relatedRows (caseId relatedCaseId : Id) (relationshipType : string)
    (relationshipStrength : Q) : list RelatedCase :=
  [ {| rc_case_id := caseId;
       rc_related_case_id := relatedCaseId;
       rc_relationship_type := relationshipType;
       rc_relationship_strength := relationshipStrength;
       rc_is_ai_generated := true |};
    {| rc_case_id := relatedCaseId;
       rc_related_case_id := caseId;
       rc_relationship_type := relationshipType;
       rc_relationship_strength := relationshipStrength;
       rc_is_ai_generated := true |} ].

(** [linkRelatedCases(caseId, relatedCaseId, relationshipType,
    relationshipStrength)]; the response of the insert is not inspected. *)
Definition linkRelatedCases (caseId relatedCaseId : Id) (relationshipType : string)
    (relationshipStrength : Q) : M unit :=
  tryCatch
    (insertRelatedCases faults
       (relatedRows caseId relatedCaseId relationshipType relationshipStrength) ;;
     ret tt)
    (fun e => console_error "Error linking related cases:" ;; throw e).

(** The callback of [cases.map] in [findPotentialDuplicates]. *)
Definition scoreCandidate (locationInfo : LocationInfo) (targetDetails : TargetDetails)
    (damageType : list string) (case_ : Case) : M Scored :=
  now <- newDate clock ;;
  ret {| sc_case := case_;
         similarityScore := scoreCase locationInfo targetDetails damageType now case_ |}.

(** [findPotentialDuplicates(locationInfo, targetDetails, damageType)] *)
Definition findPotentialDuplicates (locationInfo : LocationInfo)
    (targetDetails : TargetDetails) (damageType : list string) : M (list Scored) :=
  tryCatch
    (r <- selectCases faults (city locationInfo) (td_type targetDetails) ;;
     match error r with
     | Some e => throw e
     | None =>
         match data r with
         | None => ret []
         | Some [] => ret []
         | Some cases =>
             potentialDuplicates <-
               mapM (scoreCandidate locationInfo targetDetails damageType) cases ;;
             ret (sortByScore potentialDuplicates)
         end
     end)
    (fun e => console_error "Error finding potential duplicates:" ;; ret []).

(** [analysis.mediaUrls && analysis.mediaUrls.length > 0] *)
Definition hasMedia (analysis : Analysis) : option (list MediaItem) :=
  match mediaUrls analysis with
  | Some (m :: ms) => Some (m :: ms)
  | _ => None
  end.

(** [if (analysis.mediaUrls && analysis.mediaUrls.length > 0)
       await addMediaToCase(caseId, source.id, analysis.mediaUrls)] *)
Definition addMediaIfAny (caseId : Id) (source : SocialMediaSource)
    (analysis : Analysis) : M unit :=
  match hasMedia analysis with
  | Some ms => addMediaToCase caseId (src_id source) ms
  | None => ret tt
  end.

(** [analysis.relevanceScore || 0.7] *)
Definition confidenceOf (analysis : Analysis) : Q :=
  match relevanceScore analysis with
  | Some q => if Qeq_bool q 0 then 0.7%Q else q
  | None => 0.7%Q
  end.

(** The row [createCaseFromSocialMedia] inserts into [cases]. *)
Definition newCaseRow (headline summary targetType : string)
    (targetDetails : TargetDetails) (locationInfo : LocationInfo)
    (damageType : list string) (analysis : Analysis) (id : Id) (now : Z) : Case :=
  {| case_id := id;
     headline := headline;
     case_summary := summary;
     target_type := targetType;
     target_details := targetDetails;
     location_city := or_null (city locationInfo);
     location_state := or_null (state locationInfo);
     location_country := Str (or_str (country locationInfo) "US");
     status := "reported";
     damage_type := Some damageType;
     ai_confidence := confidenceOf analysis;
     is_verified := false;
     created_at := now |}.

(** [newCase.id] where [newCase] is the [data] of the insert. *)
Definition caseOfData (d : option Case) : M Case :=
  match d with
  | Some c => ret c
  | None => throw TypeError
  end.

(** The loop over [potentialDuplicates] that links the borderline
    candidates to the new case. *)
Fixpoint linkPossibleDuplicates (newCaseId : Id) (potentialDuplicates : list Scored)
  : M unit :=
  match potentialDuplicates with
  | [] => ret tt
  | duplicate :: rest =>
      (if Qgtb (similarityScore duplicate) 0.6
       then linkRelatedCases newCaseId (case_id (sc_case duplicate))
              "possible_duplicate" (similarityScore duplicate)
       else ret tt) ;;
      linkPossibleDuplicates newCaseId rest
  end.

(** [potentialDuplicates.length > 0 && potentialDuplicates[0].similarityScore > 0.85] *)
Definition certainDuplicate (potentialDuplicates : list Scored) : option Scored :=
  match potentialDuplicates with
  | top :: _ => if Qgtb (similarityScore top) 0.85 then Some top else None
  | [] => None
  end.

(** [createCaseFromSocialMedia(source, analysis)] *)
Definition createCaseFromSocialMedia (source : SocialMediaSource) (analysis : Analysis)
  : M CaseResult :=
  tryCatch
    (let targetType := determineTargetType (src_content source) analysis in
     let targetDetails := createTargetDetails targetType analysis in
     let headline := generateHeadline (src_content source) analysis targetType in
     let summary :=
       if truthy (summary analysis) then render (summary analysis)
       else generateSummary (src_content source) analysis targetType in
     let locationInfo :=
       match locationInfo analysis with Some l => l | None => emptyLocationInfo end in
     let damageType := determineDamageType (src_content source) analysis in
     potentialDuplicates <- findPotentialDuplicates locationInfo targetDetails damageType ;;
     match certainDuplicate potentialDuplicates with
     | Some top =>
         let duplicateCase := sc_case top in
         linkSourceToCase source (case_id duplicateCase) ;;
         addMediaIfAny (case_id duplicateCase) source analysis ;;
         createCaseUpdate
           {| cu_case_id := case_id duplicateCase;
              cu_source_id := src_id source;
              cu_update_type := "new_information";
              cu_title := "Additional report of the same incident";
              cu_description :=
                "A new social media post about this incident was found on "
                  ++ src_platform source ++ ".";
              cu_is_public := true;
              cu_importance := 2 |} ;;
         ret {| caseId := case_id duplicateCase;
                isNewCase := false;
                isDuplicate := true |}
     | None =>
         r <- insertCase faults clock
                (newCaseRow headline summary targetType targetDetails locationInfo
                            damageType analysis) ;;
         match error r with
         | Some e => throw e
         | None =>
             newCase <- caseOfData (data r) ;;
             linkSourceToCase source (case_id newCase) ;;
             addMediaIfAny (case_id newCase) source analysis ;;
             linkPossibleDuplicates (case_id newCase) potentialDuplicates ;;
             ret {| caseId := case_id newCase;
                    isNewCase := true;
                    isDuplicate := false |}
         end
     end)
    (fun e => console_error "Error creating case from social media:" ;; throw e).

End Pipeline.

(* ===================================================================== *)
(** ** The score as the specification words it *)
(* ===================================================================== *)

Section ScoreSpecification.

Local Open Scope Q_scope.

(** 0.3 if the candidate's city equals the post's city, plus 0.1 if
    additionally the states are equal. *)
Definition locationTerm (locationInfo : LocationInfo) (case_ : Case) : Q :=
  if strict_eq (location_city case_) (city locationInfo)
  then 0.3 + (if strict_eq (location_state case_) (state locationInfo) then 0.1 else 0)
  else 0.

(** 0.2 if the target types are equal, plus 0.2 if additionally the target
    type is vehicle and the candidate's make and model both equal the
    post's. *)
Definition targetTerm (targetDetails : TargetDetails) (case_ : Case) : Q :=
  if String.eqb (target_type case_) (td_type targetDetails)
  then 0.2 + (if String.eqb (target_type case_) "vehicle"
                 && strict_eq (td_make (target_details case_)) (td_make targetDetails)
                 && strict_eq (td_model (target_details case_)) (td_model targetDetails)
              then 0.2 else 0)
  else 0.

(** The tags of a candidate ([null] counts as no tag). *)
Definition tagsOf (case_ : Case) : list string :=
  match damage_type case_ with Some l => l | None => [] end.

(** The number of the post's damage tags also present on the candidate. *)
Fixpoint overlap (postTags candidateTags : list string) : nat :=
  match postTags with
  | [] => 0%nat
  | t :: ts =>
      if arr_includes candidateTags t
      then S (overlap ts candidateTags)
      else overlap ts candidateTags
  end.

(** 0.2 times (overlap divided by the number of the post's tags) when at
    least one tag overlaps. *)
Definition damageTerm (damageType : list string) (case_ : Case) : Q :=
  match overlap damageType (tagsOf case_) with
  | O => 0
  | S k => 0.2 * (inject_Z (Z.of_nat (S k)) / inject_Z (Z.of_nat (List.length damageType)))
  end.

(** 0.2 times (1 - h/48) when h < 48, and 0 when h >= 48. *)
Definition timeTerm (h : Q) : Q :=
  if Qltb h 48 then 0.2 * (1 - h / 48) else 0.

Definition specScore (locationInfo : LocationInfo) (targetDetails : TargetDetails)
    (damageType : list string) (h : Q) (case_ : Case) : Q :=
  locationTerm locationInfo case_ + targetTerm targetDetails case_
  + damageTerm damageType case_ + timeTerm h.

End ScoreSpecification.

(* ===================================================================== *)
(** ** Vocabulary of the statements: sortedness, the two branches, relations
       between worlds *)
(* ===================================================================== *)

Section SortPredicates.

Local Open Scope Q_scope.

(** [a] may stand before [b] in the sorted array. *)
Definition before (a b : Scored) : Prop := similarityScore b <= similarityScore a.

(** Highest score first. *)
Fixpoint descending (l : list Scored) : Prop :=
  match l with
  | [] => True
  | x :: xs => Forall (before x) xs /\ descending xs
  end.

End SortPredicates.

Section Decomposition.

Variable faults : nat -> bool.
Variable clock : nat -> Z.

Local Open Scope string_scope.

(** [analysis.locationInfo || {}] *)
Definition locationOf (analysis : Analysis) : LocationInfo :=
  match locationInfo analysis with Some l => l | None => emptyLocationInfo end.

(** The duplicate search as [createCaseFromSocialMedia] runs it. *)
Definition duplicateSearch (source : SocialMediaSource) (analysis : Analysis)
  : M (list Scored) :=
  findPotentialDuplicates faults clock (locationOf analysis)
    (createTargetDetails (determineTargetType (src_content source) analysis) analysis)
    (determineDamageType (src_content source) analysis).

(** The update written last on the duplicate path. *)
Definition additionalReport (source : SocialMediaSource) (c : Id) : CaseUpdate :=
  {| cu_case_id := c;
     cu_source_id := src_id source;
     cu_update_type := "new_information";
     cu_title := "Additional report of the same incident";
     cu_description :=
       "A new social media post about this incident was found on "
         ++ src_platform source ++ ".";
     cu_is_public := true;
     cu_importance := 2 |}.

(** The update [linkSourceToCase] writes for the stored source [sourceId]. *)
Definition linkingUpdate (source : SocialMediaSource) (c sourceId : Id) : CaseUpdate :=
  {| cu_case_id := c;
     cu_source_id := Some sourceId;
     cu_update_type := "new_information";
     cu_title := "New information from " ++ src_platform source;
     cu_description :=
       "A post on " ++ src_platform source ++ " by @"
         ++ src_author_username source ++ " has been linked to this case.";
     cu_is_public := true;
     cu_importance := 3 |}.

(** The body of [if (... similarityScore > 0.85) { ... }]. *)
Definition attachDuplicate (source : SocialMediaSource) (analysis : Analysis)
    (top : Scored) : M CaseResult :=
  (linkSourceToCase faults source (case_id (sc_case top)) ;;
   addMediaIfAny faults (case_id (sc_case top)) source analysis ;;
   createCaseUpdate faults (additionalReport source (case_id (sc_case top))) ;;
   ret {| caseId := case_id (sc_case top); isNewCase := false; isDuplicate := true |})%monad.

(** The row of the new case, before the repository completes it. *)
Definition caseRowFor (source : SocialMediaSource) (analysis : Analysis)
  : Id -> Z -> Case :=
  let targetType := determineTargetType (src_content source) analysis in
  newCaseRow (generateHeadline (src_content source) analysis targetType)
    (if truthy (summary analysis) then render (summary analysis)
     else generateSummary (src_content source) analysis targetType)
    targetType (createTargetDetails targetType analysis) (locationOf analysis)
    (determineDamageType (src_content source) analysis) analysis.

(** What follows the [if]: a new case is created and linked. *)
Definition openNewCase (source : SocialMediaSource) (analysis : Analysis)
    (potentialDuplicates : list Scored) : M CaseResult :=
  (r <- insertCase faults clock (caseRowFor source analysis) ;;
   match error r with
   | Some e => throw e
   | None =>
       newCase <- caseOfData (data r) ;;
       linkSourceToCase faults source (case_id newCase) ;;
       addMediaIfAny faults (case_id newCase) source analysis ;;
       linkPossibleDuplicates faults (case_id newCase) potentialDuplicates ;;
       ret {| caseId := case_id newCase; isNewCase := true; isDuplicate := false |}
   end)%monad.

Definition resolve (source : SocialMediaSource) (analysis : Analysis)
    (potentialDuplicates : list Scored) : M CaseResult :=
  match certainDuplicate potentialDuplicates with
  | Some top => attachDuplicate source analysis top
  | None => openNewCase source analysis potentialDuplicates
  end.

(** After the case insert: the continuation for the inserted case. *)
Definition afterInsert (source : SocialMediaSource) (analysis : Analysis)
    (dups : list Scored) (newCase : Case) : M CaseResult :=
  (linkSourceToCase faults source (case_id newCase) ;;
   addMediaIfAny faults (case_id newCase) source analysis ;;
   linkPossibleDuplicates faults (case_id newCase) dups ;;
   ret {| caseId := case_id newCase; isNewCase := true; isDuplicate := false |})%monad.

End Decomposition.

(** [m] relates every world to the world it leaves, whatever the outcome. *)
Definition stable (R : World -> World -> Prop) (A : Type) (m : M A) : Prop :=
  forall w, R w (snd (m w)).

(** A relation that is reflexive, transitive and blind to the console. *)
Record Frame (R : World -> World -> Prop) : Prop := mkFrame {
  frame_refl : forall w, R w w;
  frame_trans : forall w1 w2 w3, R w1 w2 -> R w2 w3 -> R w1 w3;
  frame_console : forall msg w, R w (snd (console_error msg w))
}.

(** A component of the world is left as it was. *)
Definition unchanged (T : Type) (proj : World -> T) : World -> World -> Prop :=
  fun w w' => proj w' = proj w.

(** A table only gained rows, each satisfying [P]. *)
Definition appended (T : Type) (proj : World -> list T) (P : T -> Prop)
  : World -> World -> Prop :=
  fun w w' => exists xs, proj w' = proj w ++ xs /\ Forall P xs.

Definition both (R1 R2 : World -> World -> Prop) : World -> World -> Prop :=
  fun w w' => R1 w w' /\ R2 w w'.

(** No table changes. *)
Definition sameTables : World -> World -> Prop :=
  both (unchanged cases)
    (both (unchanged social_media_sources)
       (both (unchanged case_updates)
          (both (unchanged case_media) (unchanged related_cases)))).

(** Every table keeps the rows it had: nothing is deleted or rolled back. *)
Definition extends : World -> World -> Prop :=
  both (appended cases (fun _ => True))
    (both (appended social_media_sources (fun _ => True))
       (both (appended case_updates (fun _ => True))
          (both (appended case_media (fun _ => True))
                (appended related_cases (fun _ => True))))).

(** What may be written when a post is attached to case [c]: no case row
    and no link is touched, updates and media are appended for [c] only. *)
Definition attachedTo (c : Id) : World -> World -> Prop :=
  both (unchanged cases)
    (both (unchanged related_cases)
       (both (appended case_updates (fun u => cu_case_id u = c))
             (appended case_media (fun m => cm_case_id m = c)))).

(** At most one row, the row of [source], is added to the sources. *)
Definition atMostOneSource (source : SocialMediaSource) : World -> World -> Prop :=
  fun w w' =>
    social_media_sources w' = social_media_sources w
    \/ exists id,
         social_media_sources w' = social_media_sources w ++ [sourceRowOf source id].

(** The links written for a new case: for some candidates of [dups] that
    satisfy [P], the two rows of [linkRelatedCases]. *)
Definition linkRows (newId : Id) (d : Scored) : list RelatedCase :=
  relatedRows newId (case_id (sc_case d)) "possible_duplicate" (similarityScore d).

Definition linking (P : Scored -> Prop) (newId : Id) : World -> World -> Prop :=
  fun w w' =>
    exists ds,
      related_cases w' = related_cases w ++ flat_map (linkRows newId) ds
      /\ Forall P ds.

(** The candidates that get a link. *)
Definition borderline (dups : list Scored) (d : Scored) : Prop :=
  In d dups /\ (0.6 < similarityScore d)%Q.

(** Some candidates of [dups] above 0.6 are linked to one new case. *)
Definition linkingSome (dups : list Scored) : World -> World -> Prop :=
  fun w w' => exists newId, linking (borderline dups) newId w w'.

(** What [linkSourceToCase] does to the sources when its calls are accepted:
    nothing if exactly one row has the key of [source], one insert if no row
    has it. *)
Definition insertIfAbsent (source : SocialMediaSource) : World -> World -> Prop :=
  fun w w' =>
    let key := sameSource (src_platform source) (src_platform_id source) in
    (forall r, filter key (social_media_sources w) = [r] ->
       social_media_sources w' = social_media_sources w)
    /\ (filter key (social_media_sources w) = [] ->
          exists id,
            social_media_sources w' = social_media_sources w ++ [sourceRowOf source id]).

(** [R] holds across every repository call and every clock reading. *)
Record Robust (faults : nat -> bool) (clock : nat -> Z)
    (R : World -> World -> Prop) : Prop := mkRobust {
  robust_frame : Frame R;
  robust_selectSource : forall p i, stable R (selectSourceId faults p i);
  robust_insertSource : forall row, stable R (insertSource faults row);
  robust_insertCase : forall row, stable R (insertCase faults clock row);
  robust_insertCaseUpdate : forall u, stable R (insertCaseUpdate faults u);
  robust_insertCaseMedia : forall m, stable R (insertCaseMedia faults m);
  robust_insertRelatedCases : forall rows, stable R (insertRelatedCases faults rows);
  robust_selectCases : forall c t, stable R (selectCases faults c t);
  robust_readClock : forall w, R w (snd (readClock clock w))
}.

(** The calls whose response the code inspects before going on. *)
Definition critical (k : CallKind) : bool :=
  match k with
  | InsertCase | InsertSource | InsertCaseUpdate => true
  | _ => false
  end.

(** A call that does not stop the computation: not critical, or accepted. *)
Definition passes (c : Call) : Prop :=
  critical (call_kind c) = true -> call_failed c = false.

(** If [m] returns, every call it made passes. *)
Definition guarded (A : Type) (m : M A) : Prop :=
  forall w,
  exists t,
    trace (snd (m w)) = trace w ++ t
    /\ forall a, fst (m w) = Returned a -> Forall passes t.

(** Every call of [m] passes, whatever the outcome. *)
Definition lenient : World -> World -> Prop := appended trace passes.

(** The link in the other direction. *)
Definition mirror (r : RelatedCase) : RelatedCase :=
  {| rc_case_id := rc_related_case_id r;
     rc_related_case_id := rc_case_id r;
     rc_relationship_type := rc_relationship_type r;
     rc_relationship_strength := rc_relationship_strength r;
     rc_is_ai_generated := rc_is_ai_generated r |}.

(* ===================================================================== *)
(** ** Concrete posts, analyses and worlds *)
(* ===================================================================== *)

Module Scenario.

Local Open Scope string_scope.

(** The repository accepts every call. *)
Definition accepting (n : nat) : bool := false.

(** The repository rejects the fourth call only. *)
Definition rejectingFourth (n : nat) : bool := Nat.eqb n 3.

(** A clock that stands still at time 0. *)
Definition frozen (n : nat) : Z := 0%Z.

(** A clock that shows time 0 at the first reading and forty hours later at
    every other reading. *)
Definition fortyHoursLater (n : nat) : Z :=
  match n with O => 0%Z | S _ => 144000000%Z end.

(** An empty repository. *)
Definition emptyWorld : World :=
  mkWorld [] [] [] [] [] [] 0%nat 0%nat [].

Definition superchargerText : string := "Tesla Supercharger station spray painted".

(** What [analyzeTextContent] of [aiAnalysis.ts] returns for
    [superchargerText]: no [text], no [mediaUrls] and no [platform] field,
    relevance 0.8 * 0.4, no city, no model. *)
Definition superchargerAnalysis : Analysis :=
  {| vehicleInfo := Some (mkVehicleInfo (Str "") (Str "") (Str ""));
     text := Undefined;
     summary := Str "";
     locationInfo := Some (mkLocationInfo (Str "") (Str "") (Str "US"));
     mediaUrls := None;
     relevanceScore := Some 0.32%Q;
     an_platform := Undefined |}.

Definition superchargerPost : SocialMediaSource :=
  {| src_id := None;
     src_platform := "twitter";
     src_platform_id := "1001";
     src_url := "https://twitter.com/someone/status/1001";
     src_author_username := "someone";
     src_author_display_name := Str "Some One";
     src_author_avatar_url := Undefined;
     src_content := superchargerText;
     src_posted_at := "2025-03-01T10:00:00.000Z";
     src_is_reply := None;
     src_reply_to_id := None;
     src_metadata := Undefined |}.

Definition austinText : string := "White Tesla Model 3 keyed in Austin, TX".

(** What [analyzeTextContent] returns for [austinText]. *)
Definition austinAnalysis : Analysis :=
  {| vehicleInfo := Some (mkVehicleInfo (Str "Model 3") (Str "white") (Str ""));
     text := Undefined;
     summary := Str "white Tesla Model 3 vandalism incident in Austin, TX. Vehicle was keyed";
     locationInfo := Some (mkLocationInfo (Str "Austin") (Str "TX") (Str "US"));
     mediaUrls := None;
     relevanceScore := Some 0.8%Q;
     an_platform := Undefined |}.

(** An analysis of the same post that also carries the text, the platform,
    a picture and a video. *)
Definition austinAnalysisWithMedia : Analysis :=
  {| vehicleInfo := vehicleInfo austinAnalysis;
     text := Str austinText;
     summary := summary austinAnalysis;
     locationInfo := locationInfo austinAnalysis;
     mediaUrls :=
       Some [ mkMediaItem "https://pbs.twimg.com/media/a.jpg" "photo"
                          (Some 1200%Z) (Some 800%Z) None;
              mkMediaItem "https://video.twimg.com/v/b.mp4" "video"
                          (Some 1280%Z) (Some 720%Z) (Some 12%Z) ];
     relevanceScore := Some 0.8%Q;
     an_platform := Str "twitter" |}.

Definition austinPost : SocialMediaSource :=
  {| src_id := None;
     src_platform := "twitter";
     src_platform_id := "2002";
     src_url := "https://twitter.com/owner/status/2002";
     src_author_username := "owner";
     src_author_display_name := Undefined;
     src_author_avatar_url := Undefined;
     src_content := austinText;
     src_posted_at := "2025-03-01T12:00:00.000Z";
     src_is_reply := None;
     src_reply_to_id := None;
     src_metadata := Undefined |}.

(** A building post with a city: the supercharger text, analysed with a
    location in Austin, TX. *)
Definition austinChargerAnalysis : Analysis :=
  {| vehicleInfo := Some (mkVehicleInfo (Str "") (Str "") (Str ""));
     text := Undefined;
     summary := Str "";
     locationInfo := Some (mkLocationInfo (Str "Austin") (Str "TX") (Str "US"));
     mediaUrls := None;
     relevanceScore := Some 0.8%Q;
     an_platform := Undefined |}.

Definition noCityText : string := "My Tesla Model 3 got keyed last night".

(** What [analyzeTextContent] returns for [noCityText]: a relevant post in
    which no city is recognised. *)
Definition noCityAnalysis : Analysis :=
  {| vehicleInfo := Some (mkVehicleInfo (Str "Model 3") (Str "") (Str ""));
     text := Undefined;
     summary := Str "Tesla Model 3 vandalism incident. Vehicle was keyed";
     locationInfo := Some (mkLocationInfo (Str "") (Str "") (Str "US"));
     mediaUrls := None;
     relevanceScore := Some 0.8%Q;
     an_platform := Undefined |}.

Definition noCityPost : SocialMediaSource :=
  {| src_id := None;
     src_platform := "twitter";
     src_platform_id := "3003";
     src_url := "https://twitter.com/driver/status/3003";
     src_author_username := "driver";
     src_author_display_name := Undefined;
     src_author_avatar_url := Undefined;
     src_content := noCityText;
     src_posted_at := "2025-03-02T08:00:00.000Z";
     src_is_reply := None;
     src_reply_to_id := None;
     src_metadata := Undefined |}.

(** The repository rejects exactly the call made after as many calls as
    [w] has seen. *)
Definition rejectingNextOf (w : World) (n : nat) : bool :=
  Nat.eqb n (List.length (trace w)).

(** [austinPost] is processed in the empty world, the clock standing at 0;
    [austinWorld] is the world this leaves. *)
Definition austinFirstPass : Outcome CaseResult * World :=
  createCaseFromSocialMedia accepting frozen austinPost austinAnalysis emptyWorld.

Definition austinWorld : World := snd austinFirstPass.

(** [austinPost] is processed again, every call accepted. *)
Definition austinSecondPass : Outcome CaseResult * World :=
  createCaseFromSocialMedia accepting frozen austinPost austinAnalysis austinWorld.

(** [austinPost] is processed again and the repository rejects the next
    call, which is the candidate query. *)
Definition austinRejectedSearch : Outcome CaseResult * World :=
  createCaseFromSocialMedia (rejectingNextOf austinWorld) frozen
    austinPost austinAnalysis austinWorld.

(** [austinPost] is processed in the empty world and the repository rejects
    the fourth call, which is the insert of the source. *)
Definition austinRejectedSource : Outcome CaseResult * World :=
  createCaseFromSocialMedia rejectingFourth frozen austinPost austinAnalysis emptyWorld.

(** [noCityPost] is processed twice in a row. *)
Definition noCityFirstPass : Outcome CaseResult * World :=
  createCaseFromSocialMedia accepting frozen noCityPost noCityAnalysis emptyWorld.

Definition noCitySecondPass : Outcome CaseResult * World :=
  createCaseFromSocialMedia accepting frozen noCityPost noCityAnalysis
    (snd noCityFirstPass).

(** The supercharger post, located in Austin, is processed at time 0 and
    again forty hours later. *)
Definition chargerFirstPass : Outcome CaseResult * World :=
  createCaseFromSocialMedia accepting fortyHoursLater
    superchargerPost austinChargerAnalysis emptyWorld.

Definition chargerSecondPass : Outcome CaseResult * World :=
  createCaseFromSocialMedia accepting fortyHoursLater
    superchargerPost austinChargerAnalysis (snd chargerFirstPass).

End Scenario.

(** A candidate tagged graffiti and keying, scored for a post tagged keying
    and arson: one of the post's two tags overlaps. *)
Definition twoTagCandidate : Case :=
  {| case_id := 7%nat;
     headline := "Tesla Model 3 vandalized in Austin, TX: Keyed by vandal"%string;
     case_summary := "A Tesla Model 3 was vandalized in Austin, TX."%string;
     target_type := "vehicle"%string;
     target_details := createTargetDetails "vehicle"%string Scenario.austinAnalysis;
     location_city := Str "Austin";
     location_state := Str "TX";
     location_country := Str "US";
     status := "reported"%string;
     damage_type := Some ["graffiti"; "keying"]%string;
     ai_confidence := 0.8%Q;
     is_verified := false;
     created_at := 0%Z |}.

(* ===================================================================== *)
(** ** Vocabulary for the candidate query *)
(* ===================================================================== *)

(** Most recent first. *)
Fixpoint newestFirst (l : list Case) : Prop :=
  match l with
  | [] => True
  | x :: xs =>
      Forall (fun y => (created_at y <= created_at x)%Z) xs /\ newestFirst xs
  end.

(** The rows the query of [findPotentialDuplicates] matches. *)
Definition matchesQuery (locationInfo : LocationInfo) (targetDetails : TargetDetails)
    (c : Case) : bool :=
  eqFilter (location_city c) (city locationInfo)
  && String.eqb (target_type c) (td_type targetDetails).

(* ===================================================================== *)
(** ** Vocabulary for the media of a case *)
(* ===================================================================== *)

(** The rows [addMediaToCase] leaves in [case_media] when its first insert
    is call number [call] of the run and concerns the item at [index]: the
    row of every item whose insert the repository accepts. *)
Fixpoint storedMedia (faults : nat -> bool) (call index : nat) (caseId : Id)
    (sourceId : option Id) (mediaUrls : list MediaItem) : list CaseMedia :=
  match mediaUrls with
  | [] => []
  | media :: rest =>
      (if faults call then [] else [mediaRowOf caseId sourceId index media])
      ++ storedMedia faults (S call) (S index) caseId sourceId rest
  end.

(** The rows of all items, in order. *)
Fixpoint mediaRowsFrom (index : nat) (caseId : Id) (sourceId : option Id)
    (mediaUrls : list MediaItem) : list CaseMedia :=
  match mediaUrls with
  | [] => []
  | media :: rest =>
      mediaRowOf caseId sourceId index media
      :: mediaRowsFrom (S index) caseId sourceId rest
  end.

(* ===================================================================== *)
(** ** The CHECK constraints of the schema *)
(* ===================================================================== *)

Module Schema.

Local Open Scope string_scope.
Local Open Scope Q_scope.

(** [target_type TEXT NOT NULL CHECK (target_type IN ('vehicle', 'building',
    'property'))] *)
Definition check_target_type (c : Case) : bool :=
  arr_includes ["vehicle"; "building"; "property"] (target_type c).

(** [status TEXT NOT NULL CHECK (status IN ('reported', 'verified',
    'identified', 'apprehended', 'prosecuted', 'resolved', 'unresolved'))] *)
Definition check_status (c : Case) : bool :=
  arr_includes ["reported"; "verified"; "identified"; "apprehended";
                "prosecuted"; "resolved"; "unresolved"] (status c).

(** [ai_confidence REAL CHECK (ai_confidence >= 0 AND ai_confidence <= 1)] *)
Definition check_ai_confidence (c : Case) : bool :=
  Qle_bool 0 (ai_confidence c) && Qle_bool (ai_confidence c) 1.

(** [media_type TEXT NOT NULL CHECK (media_type IN ('image', 'video',
    'audio', 'document'))] *)
Definition check_media_type (m : CaseMedia) : bool :=
  arr_includes ["image"; "video"; "audio"; "document"] (cm_media_type m).

(** [update_type TEXT NOT NULL CHECK (update_type IN ('status_change',
    'new_information', 'suspect_identified', 'media_added',
    'location_update', 'other'))] *)
Definition check_update_type (u : CaseUpdate) : bool :=
  arr_includes ["status_change"; "new_information"; "suspect_identified";
                "media_added"; "location_update"; "other"] (cu_update_type u).

(** [importance INTEGER CHECK (importance >= 1 AND importance <= 5)] *)
Definition check_importance (u : CaseUpdate) : bool :=
  (1 <=? cu_importance u)%Z && (cu_importance u <=? 5)%Z.

(** [relationship_type TEXT NOT NULL CHECK (relationship_type IN
    ('same_location', 'same_suspect', 'same_method', 'part_of_series',
    'other'))] *)
Definition check_relationship_type (r : RelatedCase) : bool :=
  arr_includes ["same_location"; "same_suspect"; "same_method";
                "part_of_series"; "other"] (rc_relationship_type r).

(** [relationship_strength REAL CHECK (relationship_strength >= 0
    AND relationship_strength <= 1)] *)
Definition check_relationship_strength (r : RelatedCase) : bool :=
  Qle_bool 0 (rc_relationship_strength r) && Qle_bool (rc_relationship_strength r) 1.

End Schema.

(** The relevance score of the analysis, when there is one, lies between 0
    and 1. *)
Definition relevanceInRange (analysis : Analysis) : Prop :=
  match relevanceScore analysis with
  | Some q => (0 <= q <= 1)%Q
  | None => True
  end.

(** What the schema checks on a row of [cases]. *)
Definition caseChecks (analysis : Analysis) (c : Case) : Prop :=
  Schema.check_target_type c = true
  /\ Schema.check_status c = true
  /\ (relevanceInRange analysis -> Schema.check_ai_confidence c = true).

(** What the schema checks on a row of [case_updates]. *)
Definition updateChecks (u : CaseUpdate) : Prop :=
  Schema.check_update_type u = true /\ Schema.check_importance u = true.

(** The rows written by a run satisfy the checks of [cases], [case_updates]
    and [case_media]. *)
Definition checkedRows (analysis : Analysis) : World -> World -> Prop :=
  both (appended cases (caseChecks analysis))
    (both (appended case_updates updateChecks)
          (appended case_media (fun m => Schema.check_media_type m = true))).

(** The links written by a run fail the check on [relationship_type]. *)
Definition uncheckedLinks : World -> World -> Prop :=
  appended related_cases (fun r => Schema.check_relationship_type r = false).

(* ===================================================================== *)
(** ** Updating a case ([updateCase]) *)
(* ===================================================================== *)

(** [Partial<Case>]: a value for some of the columns of a case; a column
    that is absent is left as it is. *)
Record CasePatch : Type := mkCasePatch {
  p_id : option Id;
  p_headline : option string;
  p_summary : option string;
  p_target_type : option string;
  p_target_details : option TargetDetails;
  p_location_city : option string;
  p_location_state : option string;
  p_location_country : option string;
  p_status : option string;
  p_damage_type : option (list string);
  p_ai_confidence : option Q;
  p_is_verified : option bool;
  p_created_at : option Z
}.

(** The object [updateCase] resolves to. *)
Record UpdateResult : Type := mkUpdateResult {
  success : bool
}.

Section UpdateCase.

Variable faults : nat -> bool.

Local Open Scope string_scope.

(** The new value of a column. *)
Definition assign {A : Type} (new : option A) (old : A) : A :=
  match new with Some x => x | None => old end.

Definition assignStr (new : option string) (old : JsStr) : JsStr :=
  match new with Some s => Str s | None => old end.

(** The row after [UPDATE cases SET ...]. *)
Definition applyPatch (p : CasePatch) (c : Case) : Case :=
  {| case_id := assign (p_id p) (case_id c);
     headline := assign (p_headline p) (headline c);
     case_summary := assign (p_summary p) (case_summary c);
     target_type := assign (p_target_type p) (target_type c);
     target_details := assign (p_target_details p) (target_details c);
     location_city := assignStr (p_location_city p) (location_city c);
     location_state := assignStr (p_location_state p) (location_state c);
     location_country := assignStr (p_location_country p) (location_country c);
     status := assign (p_status p) (status c);
     damage_type :=
       match p_damage_type p with Some l => Some l | None => damage_type c end;
     ai_confidence := assign (p_ai_confidence p) (ai_confidence c);
     is_verified := assign (p_is_verified p) (is_verified c);
     created_at := assign (p_created_at p) (created_at c) |}.

(** [supabase.from('cases').update(updateData).eq('id', caseId)].  The
    answer of the repository to this call is the argument [rejection]: with
    an error no row changes, without one every row whose id is [caseId] is
    updated.  No row is returned. *)
Definition updateCaseRows (rejection : option Error) (caseId : Id)
    (updateData : CasePatch) : M (Response unit) :=
  fun w =>
    match rejection with
    | Some e => (Returned (mkResponse None (Some e)), w)
    | None =>
        (Returned (mkResponse None None),
         mkWorld
           (map (fun c => if Nat.eqb (case_id c) caseId
                          then applyPatch updateData c else c) (cases w))
           (social_media_sources w) (case_updates w) (case_media w)
           (related_cases w) (trace w) (clock_reads w) (next_id w) (console w))
    end.

(** Truthiness of an optional string. *)
Definition present (s : option string) : bool :=
  match s with
  | Some x => negb (String.eqb x "")
  | None => false
  end.

(** The double quote character. *)
Definition dquote : string := String (ascii_of_nat 34) EmptyString.

(** [updateCase(caseId, updateData)] *)
Definition updateCase (rejection : option Error) (caseId : Id)
    (updateData : CasePatch) : M UpdateResult :=
  tryCatch
    (r <- updateCaseRows rejection caseId updateData ;;
     match error r with
     | Some e => throw e
     | None =>
         let updateType := "other" in
         let title := "Case updated" in
         let description := "The case was updated with new information." in
         let '(updateType, title, description) :=
           if present (p_status updateData)
              && negb (String.eqb (assign (p_status updateData) "") "reported")
           then ("status_change",
                 "Status changed to " ++ assign (p_status updateData) "",
                 "The case status was updated to " ++ dquote
                   ++ assign (p_status updateData) "" ++ dquote ++ ".")
           else if present (p_location_city updateData)
                   || present (p_location_state updateData)
           then ("location_update",
                 "Location information updated",
                 "The location information for this case was updated.")
           else (updateType, title, description) in
         createCaseUpdate faults
           {| cu_case_id := caseId;
              cu_source_id := None;
              cu_update_type := updateType;
              cu_title := title;
              cu_description := description;
              cu_is_public := true;
              cu_importance := 3 |} ;;
         ret {| success := true |}
     end)%monad
    (fun e => console_error "Error updating case:" ;; throw e)%monad.

End UpdateCase.

(** The row of [case_updates] that records an update of a case. *)
Definition updateRecord (caseId : Id) (updateType title description : string)
  : CaseUpdate :=
  {| cu_case_id := caseId;
     cu_source_id := None;
     cu_update_type := updateType;
     cu_title := title;
     cu_description := description;
     cu_is_public := true;
     cu_importance := 3 |}.

(** The rows of [cases] after an accepted update of [caseId]. *)
Definition patchedCases (caseId : Id) (updateData : CasePatch) (l : list Case)
  : list Case :=
  map (fun c => if Nat.eqb (case_id c) caseId then applyPatch updateData c else c) l.

(* ===================================================================== *)
(** ** Listing cases ([getCases]) *)
(* ===================================================================== *)

(** The argument [filters] of [getCases]; each property may be absent. *)
Record CaseFilters : Type := mkCaseFilters {
  f_status : JsStr;
  f_target_type : JsStr;
  f_location_city : JsStr;
  f_location_state : JsStr;
  f_search : JsStr
}.

(** A row of the select with [media:case_media]: a case with all columns and
    its media. *)
Record CaseWithMedia : Type := mkCaseWithMedia {
  cwm_case : Case;
  cwm_media : list CaseMedia
}.

(** [pagination]; [totalPages] is [None] when [Math.ceil] yields no finite
    number (a page size of 0). *)
Record Pagination : Type := mkPagination {
  pg_page : Z;
  pg_pageSize : Z;
  pg_totalCount : Z;
  pg_totalPages : option Z
}.

(** The object [getCases] resolves to. *)
Record CasesPage : Type := mkCasesPage {
  pg_cases : list CaseWithMedia;
  pg_pagination : Pagination
}.

Section GetCases.

(** [textSearch('search_vector', query)]: the full-text match of the
    database, which is not part of the code. *)
Variable textSearch : string -> Case -> bool.

Local Open Scope string_scope.

(** [if (filters.x) query = query.eq(column, filters.x)] on a text column
    that is never [NULL]. *)
Definition eqIfGiven (value : JsStr) (column : string) : bool :=
  if truthy value then String.eqb column (render value) else true.

(** The same on a column that may be [NULL]. *)
Definition eqFilterIfGiven (value : JsStr) (column : JsStr) : bool :=
  if truthy value then eqFilter column value else true.

(** The rows the filters of [getCases] select. *)
Definition selectedBy (filters : CaseFilters) (c : Case) : bool :=
  eqIfGiven (f_status filters) (status c)
  && eqIfGiven (f_target_type filters) (target_type c)
  && eqFilterIfGiven (f_location_city filters) (location_city c)
  && eqFilterIfGiven (f_location_state filters) (location_state c)
  && (if truthy (f_search filters) then textSearch (render (f_search filters)) c
      else true).

(** [.range(from, to)]: the rows at the positions [from] to [to], for
    [0 <= from <= to + 1]. *)
Definition range {A : Type} (from to : Z) (rows : list A) : list A :=
  firstn (Z.to_nat (to - from + 1)) (skipn (Z.to_nat from) rows).

(** The media embedded in a row. *)
Definition withMedia (w : World) (c : Case) : CaseWithMedia :=
  {| cwm_case := c;
     cwm_media := filter (fun m => Nat.eqb (cm_case_id m) (case_id c)) (case_media w) |}.

(** The query for one page.  The answer of the repository is the argument
    [rejection]: an error, or the rows. *)
Definition selectPage (rejection : option Error) (filters : CaseFilters)
    (from to : Z) : M (Response (list CaseWithMedia)) :=
  fun w =>
    match rejection with
    | Some e => (Returned (mkResponse None (Some e)), w)
    | None =>
        (Returned
           (mkResponse
              (Some (map (withMedia w)
                       (range from to
                          (orderByCreatedDesc (filter (selectedBy filters) (cases w))))))
              None), w)
    end.

(** [supabase.from('cases').select('*', { count: 'exact', head: true })]:
    the number of rows of the table; [count] is [null] with an error. *)
Definition countCases (rejection : option Error) : M (Response Z) :=
  fun w =>
    match rejection with
    | Some e => (Returned (mkResponse None (Some e)), w)
    | None => (Returned (mkResponse (Some (Z.of_nat (List.length (cases w)))) None), w)
    end.

(** [Math.ceil(a / b)] on integers, for [b <> 0]. *)
Definition ceilDiv (a b : Z) : Z := (- ((- a) / b))%Z.

(** [getCases(filters, page, pageSize)] *)
Definition getCases (pageRejection countRejection : option Error)
    (filters : CaseFilters) (page pageSize : Z) : M CasesPage :=
  tryCatch
    (let start := ((page - 1) * pageSize)%Z in
     let end_ := (start + pageSize - 1)%Z in
     r <- selectPage pageRejection filters start end_ ;;
     match error r with
     | Some e => throw e
     | None =>
         c <- countCases countRejection ;;
         match error c with
         | Some countError => throw countError
         | None =>
             let totalCount := match data c with Some n => n | None => 0%Z end in
             ret {| pg_cases := match data r with Some rows => rows | None => [] end;
                    pg_pagination :=
                      {| pg_page := page;
                         pg_pageSize := pageSize;
                         pg_totalCount := totalCount;
                         pg_totalPages :=
                           if (pageSize =? 0)%Z then None
                           else Some (ceilDiv totalCount pageSize) |} |}
         end
     end)%monad
    (fun e => console_error "Error getting cases:" ;; throw e)%monad.

End GetCases.

(* ===================================================================== *)
(** ** Comparing two posts ([detectDuplicateIncidents] of [aiAnalysis.ts]) *)
(* ===================================================================== *)

(** A post as [detectDuplicateIncidents] reads it: the two objects may be
    absent, and [ip_postedAt] is [new Date(post.postedAt).getTime()], which
    is [None] for an invalid date ([NaN]). *)
Record IncidentPost : Type := mkIncidentPost {
  ip_locationInfo : option LocationInfo;
  ip_vehicleInfo : option VehicleInfo;
  ip_postedAt : option Z
}.

(** The object [detectDuplicateIncidents] returns. *)
Record IncidentMatch : Type := mkIncidentMatch {
  im_similarityScore : Q;
  isSameIncident : bool
}.

Section DetectDuplicateIncidents.

Local Open Scope Q_scope.

(** [a.x && b.x && a.x === b.x], where [a.x] is at hand and reading [b.x]
    fails ([None]) when the object of [b] is absent; [b] is only read when
    [a.x] is truthy. *)
Definition bothAndEqual (a : JsStr) (b : option JsStr) : option bool :=
  if truthy a
  then match b with
       | Some b' => Some (truthy b' && strict_eq a b')
       | None => None
       end
  else Some false.

(** [Math.abs(date1.getTime() - date2.getTime()) / (1000 * 60 * 60)];
    [None] is [NaN]. *)
Definition hoursApart (t1 t2 : option Z) : option Q :=
  match t1, t2 with
  | Some a, Some b => Some (inject_Z (Z.abs (a - b)) / inject_Z (1000 * 60 * 60))
  | _, _ => None
  end.

(** [detectDuplicateIncidents(post1, post2)]; reading a property of an
    absent object throws a [TypeError]. *)
Definition detectDuplicateIncidents (post1 post2 : IncidentPost)
  : Outcome IncidentMatch :=
  let similarityScore := 0 in
  match ip_locationInfo post1 with
  | None => Thrown TypeError
  | Some l1 =>
      match bothAndEqual (city l1) (option_map city (ip_locationInfo post2)) with
      | None => Thrown TypeError
      | Some sameCity =>
          let similarityScore :=
            if sameCity then similarityScore + 0.3 else similarityScore in
          match ip_vehicleInfo post1 with
          | None => Thrown TypeError
          | Some v1 =>
              match bothAndEqual (vi_model v1)
                      (option_map vi_model (ip_vehicleInfo post2)) with
              | None => Thrown TypeError
              | Some sameModel =>
                  let similarityScore :=
                    if sameModel then similarityScore + 0.2 else similarityScore in
                  let similarityScore :=
                    match hoursApart (ip_postedAt post1) (ip_postedAt post2) with
                    | Some hoursDiff =>
                        if Qltb hoursDiff 24
                        then similarityScore + 0.3 * (1 - hoursDiff / 24)
                        else similarityScore
                    | None => similarityScore
                    end in
                  Returned {| im_similarityScore := similarityScore;
                              isSameIncident := Qgtb similarityScore 0.7 |}
              end
          end
      end
  end.

End DetectDuplicateIncidents.

(** Two posts name the same non-empty value. *)
Definition sameNonEmpty (a b : JsStr) : Prop :=
  truthy a = true /\ strict_eq a b = true.

(* ===================================================================== *)
(** ** Regular expressions *)
(* ===================================================================== *)

(** The regular expressions of [aiAnalysis.ts], with the backtracking
    semantics of JavaScript: alternatives are tried from left to right,
    repetition is greedy, and the first position at which the pattern
    matches wins. *)
Module Regex.

Inductive Regex : Type :=
| Chars (s : string)            (** the characters of [s], in sequence *)
| Class (p : ascii -> bool)     (** one character of a class *)
| Seq (r1 r2 : Regex)           (** [r1 r2] *)
| Alt (r1 r2 : Regex)           (** [r1|r2] *)
| Star (r : Regex)              (** [r*] *)
| Group (r : Regex)             (** [(r)] *)
| WordBoundary.                 (** [\b] *)

(** [r+] *)
Definition Plus (r : Regex) : Regex := Seq r (Star r).

Definition inRange (lo hi : N) (c : ascii) : bool :=
  ((lo <=? N_of_ascii c) && (N_of_ascii c <=? hi))%N.

(** [[A-Z]], [[a-z]], [[0-9]] *)
Definition isUpper : ascii -> bool := inRange 65 90.
Definition isLower : ascii -> bool := inRange 97 122.
Definition isDigit : ascii -> bool := inRange 48 57.

(** [\s]: space, tab, line feed, vertical tab, form feed, carriage return. *)
Definition isSpace (c : ascii) : bool :=
  (N_of_ascii c =? 32)%N || inRange 9 13 c.

(** [\w] *)
Definition isWord (c : ascii) : bool :=
  isUpper c || isLower c || isDigit c || (N_of_ascii c =? 95)%N.

Section Matcher.

(** The flag [i]. *)
Variable ignoreCase : bool.

Variable R : Type.

Definition sameChar (a b : ascii) : bool :=
  if ignoreCase then Ascii.eqb (lower_ascii a) (lower_ascii b) else Ascii.eqb a b.

(** The characters [l] at the head of [s]; the result is the last character
    read and the rest of the input. *)
Fixpoint readChars (l : list ascii) (prev : option ascii) (s : list ascii)
  : option (option ascii * list ascii) :=
  match l with
  | [] => Some (prev, s)
  | c :: l' =>
      match s with
      | x :: s' => if sameChar c x then readChars l' (Some x) s' else None
      | [] => None
      end
  end.

Definition wordBefore (prev : option ascii) : bool :=
  match prev with Some c => isWord c | None => false end.

Definition wordAhead (s : list ascii) : bool :=
  match s with c :: _ => isWord c | [] => false end.

(** A bound on the iterations of [r*] on the input [s]: an iteration that
    reads no character is not made, so that each one shortens the input. *)
Definition iterations (s : list ascii) : nat := S (List.length s).

(** [run r prev s caps k]: match [r] at the head of [s], [prev] being the
    character before it and [caps] the groups captured so far, then go on
    with [k]; when [k] fails the next way of matching [r] is tried. *)
Fixpoint run (r : Regex) (prev : option ascii) (s : list ascii) (caps : list string)
    (k : option ascii -> list ascii -> list string -> option R) {struct r}
  : option R :=
  match r with
  | Chars l =>
      match readChars (list_ascii_of_string l) prev s with
      | Some (prev', s') => k prev' s' caps
      | None => None
      end
  | Class p =>
      match s with
      | c :: s' => if p c then k (Some c) s' caps else None
      | [] => None
      end
  | Seq r1 r2 =>
      run r1 prev s caps (fun prev' s' caps' => run r2 prev' s' caps' k)
  | Alt r1 r2 =>
      match run r1 prev s caps k with
      | Some x => Some x
      | None => run r2 prev s caps k
      end
  | Star r' =>
      (fix loop (fuel : nat) (prev : option ascii) (s : list ascii)
           (caps : list string) {struct fuel} : option R :=
         match fuel with
         | O => k prev s caps
         | S fuel' =>
             match run r' prev s caps
                     (fun prev' s' caps' =>
                        if Nat.ltb (List.length s') (List.length s)
                        then loop fuel' prev' s' caps'
                        else None) with
             | Some x => Some x
             | None => k prev s caps
             end
         end) (iterations s) prev s caps
  | Group r' =>
      run r' prev s caps
        (fun prev' s' caps' =>
           k prev' s'
             (caps' ++ [string_of_list_ascii
                          (firstn (List.length s - List.length s') s)]))
  | WordBoundary =>
      if xorb (wordBefore prev) (wordAhead s) then k prev s caps else None
  end.

End Matcher.

(** A match: where it starts, its text, its groups, and what follows. *)
Record Match : Type := mkMatch {
  m_index : nat;
  m_text : string;
  m_groups : list string;
  m_last : option ascii;
  m_rest : list ascii
}.

(** The match of [r] that starts at the head of [s], if any. *)
Definition matchHere (ignoreCase : bool) (r : Regex) (index : nat)
    (prev : option ascii) (s : list ascii) : option Match :=
  run ignoreCase r prev s []
    (fun prev' s' caps =>
       Some {| m_index := index;
               m_text := string_of_list_ascii
                           (firstn (List.length s - List.length s') s);
               m_groups := caps;
               m_last := prev';
               m_rest := s' |}).

(** The first match of [r] in [s], which starts at position [index] of the
    text and follows the character [prev]. *)
Fixpoint execFrom (ignoreCase : bool) (r : Regex) (index : nat)
    (prev : option ascii) (s : list ascii) : option Match :=
  match matchHere ignoreCase r index prev s with
  | Some m => Some m
  | None =>
      match s with
      | [] => None
      | c :: s' => execFrom ignoreCase r (S index) (Some c) s'
      end
  end.

(** [text.match(r)] and [r.exec(text)] for a pattern without the flag [g]. *)
Definition exec (ignoreCase : bool) (r : Regex) (text : string) : option Match :=
  execFrom ignoreCase r 0 None (list_ascii_of_string text).

(** [r.test(text)] *)
Definition test (ignoreCase : bool) (r : Regex) (text : string) : bool :=
  match exec ignoreCase r text with Some _ => true | None => false end.

(** The matches [while ((m = r.exec(text)) !== null)] goes through for a
    pattern with the flag [g] whose matches are not empty: each search
    starts where the match before ended.  [fuel] bounds the number of
    matches. *)
Fixpoint execAll (fuel : nat) (ignoreCase : bool) (r : Regex) (index : nat)
    (prev : option ascii) (s : list ascii) : list Match :=
  match fuel with
  | O => []
  | S fuel' =>
      match execFrom ignoreCase r index prev s with
      | None => []
      | Some m =>
          m :: execAll fuel' ignoreCase r (m_index m + String.length (m_text m))
                 (m_last m) (m_rest m)
      end
  end.

(** [s.trim()] *)
Fixpoint trimStart (s : list ascii) : list ascii :=
  match s with
  | c :: s' => if isSpace c then trimStart s' else s
  | [] => []
  end.

Definition trim (s : string) : string :=
  string_of_list_ascii
    (rev (trimStart (rev (trimStart (list_ascii_of_string s))))).

End Regex.

(* ===================================================================== *)
(** ** The text analysis ([aiAnalysis.ts]) *)
(* ===================================================================== *)

Module AiAnalysis.

Import Regex.

Local Open Scope string_scope.
Local Open Scope Q_scope.

(** [const RELEVANCE_THRESHOLD = 0.7; const VANDALISM_THRESHOLD = 0.8;] *)
Definition RELEVANCE_THRESHOLD : Q := 0.7.
Definition VANDALISM_THRESHOLD : Q := 0.8.

(** The object [extractLocationInfo] returns. *)
Record ExtractedLocation : Type := mkExtractedLocation {
  el_city : string;
  el_state : string;
  el_country : string;
  el_confidence : Q
}.

(** The object [extractVehicleInfo] returns. *)
Record ExtractedVehicle : Type := mkExtractedVehicle {
  ev_make : string;
  ev_model : string;
  ev_color : string;
  ev_year : string;
  ev_confidence : Q
}.

(** An element of the array [extractEntities] returns. *)
Record Entity : Type := mkEntity {
  en_type : string;
  en_text : string;
  en_start : nat;
  en_end : nat
}.

(** The object [analyzeTextContent] resolves to. *)
Record TextAnalysis : Type := mkTextAnalysis {
  isRelevant : bool;
  isVandalism : bool;
  ta_relevanceScore : Q;
  hasTeslaReference : bool;
  hasVandalismReference : bool;
  ta_locationInfo : ExtractedLocation;
  ta_vehicleInfo : ExtractedVehicle;
  ta_summary : string;
  entities : list Entity
}.

(** [[A-Za-z\s]] *)
Definition letterOrSpace (c : ascii) : bool := isUpper c || isLower c || isSpace c.

(** [/in ([A-Za-z\s]+),\s*([A-Z]{2})/] *)
Definition cityStatePattern : Regex :=
  Seq (Chars "in ")
    (Seq (Group (Plus (Class letterOrSpace)))
       (Seq (Chars ",")
          (Seq (Star (Class isSpace))
             (Group (Seq (Class isUpper) (Class isUpper)))))).

(** [extractLocationInfo(text)] *)
Definition extractLocationInfo (text : string) : ExtractedLocation :=
  let cityStateMatch := exec false cityStatePattern text in
  let city := "" in
  let state := "" in
  let '(city, state) :=
    match cityStateMatch with
    | Some m =>
        match m_groups m with
        | [g1; g2] => (trim g1, g2)
        | _ => (city, state)
        end
    | None => (city, state)
    end in
  {| el_city := city;
     el_state := state;
     el_country := "US";
     el_confidence := match cityStateMatch with Some _ => 0.8 | None => 0.2 end |}.

(** The first name of [patterns] whose pattern is found in [text], or
    [''] ([for (...) { if (pattern.test(text)) { name = ...; break; } }]). *)
Fixpoint firstTested (patterns : list (Regex * string)) (text : string) : string :=
  match patterns with
  | [] => ""
  | (pattern, name) :: rest =>
      if test true pattern text then name else firstTested rest text
  end.

(** [/model\s*x/i] for a character [x] *)
Definition modelPattern (x : string) : Regex :=
  Seq (Chars "model") (Seq (Star (Class isSpace)) (Chars x)).

Definition modelPatterns : list (Regex * string) :=
  [ (Chars "cybertruck", "Cybertruck");
    (modelPattern "s", "Model S");
    (modelPattern "3", "Model 3");
    (modelPattern "x", "Model X");
    (modelPattern "y", "Model Y") ].

Definition colorPatterns : list (Regex * string) :=
  [ (Chars "white", "white");
    (Chars "black", "black");
    (Chars "red", "red");
    (Chars "blue", "blue");
    (Chars "silver", "silver");
    (Alt (Chars "gray") (Chars "grey"), "gray") ].

(** [new RegExp(`\\b(20[0-9][0-9])\\b`)] *)
Definition yearPattern : Regex :=
  Seq WordBoundary
    (Seq (Group (Seq (Chars "20") (Seq (Class isDigit) (Class isDigit))))
       WordBoundary).

(** [parseInt(s)] for a string of decimal digits. *)
Definition parseInt (s : string) : Z :=
  fold_left (fun n c => (10 * n + (Z.of_N (N_of_ascii c) - 48))%Z)
    (list_ascii_of_string s) 0%Z.

(** [extractYear(text)]; [currentYear] is [new Date().getFullYear()].  The
    year is rendered by [toString()] as the digits that were parsed. *)
Definition extractYear (currentYear : Z) (text : string) : string :=
  match exec false yearPattern text with
  | Some m =>
      match m_groups m with
      | g1 :: _ =>
          let year := parseInt g1 in
          if ((2008 <=? year) && (year <=? currentYear))%Z then g1 else ""
      | [] => ""
      end
  | None => ""
  end.

(** [extractVehicleInfo(text)] *)
Definition extractVehicleInfo (currentYear : Z) (text : string) : ExtractedVehicle :=
  let textLower := toLowerCase text in
  let model := firstTested modelPatterns textLower in
  let color := firstTested colorPatterns textLower in
  {| ev_make := "Tesla";
     ev_model := model;
     ev_color := color;
     ev_year := extractYear currentYear text;
     ev_confidence := if negb (String.eqb model "") then 0.9 else 0.3 |}.

(** [/([A-Z][a-z]+)\s+([A-Z][a-z]+)/g] *)
Definition namePattern : Regex :=
  Seq (Group (Seq (Class isUpper) (Plus (Class isLower))))
    (Seq (Plus (Class isSpace))
       (Group (Seq (Class isUpper) (Plus (Class isLower))))).

(** [extractEntities(text)]; a match has at least five characters, so that
    there are fewer matches than characters. *)
Definition extractEntities (text : string) : list Entity :=
  map (fun nameMatch =>
         {| en_type := "PERSON";
            en_text := m_text nameMatch;
            en_start := m_index nameMatch;
            en_end := (m_index nameMatch + String.length (m_text nameMatch))%nat |})
    (execAll (String.length text) false namePattern 0 None
       (list_ascii_of_string text)).

(** [generateSummary(text, locationInfo, vehicleInfo)] of [aiAnalysis.ts] *)
Definition generateSummary (text : string) (locationInfo : ExtractedLocation)
    (vehicleInfo : ExtractedVehicle) : string :=
  let summary := "Tesla vandalism incident" in
  let summary :=
    if negb (String.eqb (ev_model vehicleInfo) "")
    then "Tesla " ++ ev_model vehicleInfo ++ " vandalism incident"
    else summary in
  let summary :=
    if negb (String.eqb (ev_color vehicleInfo) "")
    then ev_color vehicleInfo ++ " " ++ summary
    else summary in
  let summary :=
    if negb (String.eqb (el_city locationInfo) "")
       && negb (String.eqb (el_state locationInfo) "")
    then summary ++ " in " ++ el_city locationInfo ++ ", " ++ el_state locationInfo
    else summary in
  let textLower := toLowerCase text in
  if includes textLower "key" then summary ++ ". Vehicle was keyed"
  else if includes textLower "window"
          && (includes textLower "break" || includes textLower "broke"
              || includes textLower "broken")
  then summary ++ ". Windows were broken"
  else if includes textLower "graffiti"
  then summary ++ ". Vehicle was tagged with graffiti"
  else if includes textLower "tire" || includes textLower "tyre"
  then summary ++ ". Tires were damaged"
  else summary ++ ". Vehicle was damaged".

Definition teslaKeywords : list string :=
  ["tesla"; "cybertruck"; "model s"; "model 3"; "model x"; "model y"].

Definition vandalismKeywords : list string :=
  ["vandalism"; "vandalized"; "damaged"; "keyed"; "scratched"; "broken";
   "smashed"; "graffiti"].

(** [analyzeTextContent(text)] *)
Definition analyzeTextContent (currentYear : Z) (text : string) : TextAnalysis :=
  let textLower := toLowerCase text in
  let hasTeslaReference := existsb (fun keyword => includes textLower keyword)
                             teslaKeywords in
  let hasVandalismReference := existsb (fun keyword => includes textLower keyword)
                                 vandalismKeywords in
  let teslaScore := if hasTeslaReference then 0.8 else 0 in
  let vandalismScore := if hasVandalismReference then 0.8 else 0 in
  let relevanceScore := (teslaScore * 0.4) + (vandalismScore * 0.6) in
  let locationInfo := extractLocationInfo text in
  let vehicleInfo := extractVehicleInfo currentYear text in
  let summary := "" in
  let summary :=
    if Qgtb relevanceScore RELEVANCE_THRESHOLD
    then generateSummary text locationInfo vehicleInfo
    else summary in
  {| isRelevant := Qgtb relevanceScore RELEVANCE_THRESHOLD;
     isVandalism := Qgtb relevanceScore VANDALISM_THRESHOLD;
     ta_relevanceScore := relevanceScore;
     hasTeslaReference := hasTeslaReference;
     hasVandalismReference := hasVandalismReference;
     ta_locationInfo := locationInfo;
     ta_vehicleInfo := vehicleInfo;
     ta_summary := summary;
     entities := extractEntities text |}.

(** The result of [analyzeTextContent] as the [analysis] argument of the
    case management: it has a vehicle, a summary, a location and a score,
    and no [text], [mediaUrls] or [platform]. *)
Definition asAnalysis (a : TextAnalysis) : Analysis :=
  {| vehicleInfo :=
       Some {| vi_model := Str (ev_model (ta_vehicleInfo a));
               vi_color := Str (ev_color (ta_vehicleInfo a));
               vi_year := Str (ev_year (ta_vehicleInfo a)) |};
     text := Undefined;
     summary := Str (ta_summary a);
     locationInfo :=
       Some {| city := Str (el_city (ta_locationInfo a));
               state := Str (el_state (ta_locationInfo a));
               country := Str (el_country (ta_locationInfo a)) |};
     mediaUrls := None;
     relevanceScore := Some (ta_relevanceScore a);
     an_platform := Undefined |}.

End AiAnalysis.

(* ===================================================================== *)
(** ** Twitter search results ([aiAnalysis.ts] and
       [socialMediaIntegration.ts]) *)
(* ===================================================================== *)

(** One element of [media.video_info.variants]. *)
Record VideoVariant : Type := mkVideoVariant {
  content_type : JsStr;
  bitrate : option Z;
  variant_url : string
}.

(** One element of [tweet.legacy.entities.media] or of
    [tweet.legacy.extended_entities.media]: the properties that are read.
    [tm_large_w] is [media.sizes?.large?.w], [tm_variants] is
    [media.video_info?.variants], [tm_duration_millis] is
    [media.video_info.duration_millis]. *)
Record TweetMedia : Type := mkTweetMedia {
  media_url_https : JsStr;
  tm_type : JsStr;
  tm_large_w : option Z;
  tm_large_h : option Z;
  tm_variants : option (list VideoVariant);
  tm_duration_millis : option Z
}.

(** A tweet: the properties that are read, each absent when a step of its
    optional chain is.  [full_text] is [tweet.legacy?.full_text],
    [screen_name] and [user_name] are those of
    [tweet.core?.user_results?.result?.legacy], [tweet_created_at] is
    [tweet.legacy?.created_at]. *)
Record Tweet : Type := mkTweet {
  rest_id : string;
  full_text : JsStr;
  screen_name : JsStr;
  user_name : JsStr;
  tweet_created_at : JsStr;
  entities_media : option (list TweetMedia);
  extended_entities_media : option (list TweetMedia)
}.

(** [item.item?.itemContent?.tweet_results?.result] *)
Record TimelineItem : Type := mkTimelineItem {
  tweet_result : option Tweet
}.

(** [entry.content?.items] *)
Record TimelineEntry : Type := mkTimelineEntry {
  entry_items : option (list TimelineItem)
}.

Record TimelineInstruction : Type := mkTimelineInstruction {
  entries : option (list TimelineEntry)
}.

(** [TwitterSearchResponse]: [instructions] is
    [response.result?.timeline?.instructions]. *)
Record TwitterSearchResponse : Type := mkTwitterSearchResponse {
  instructions : option (list TimelineInstruction)
}.

(** An element of the array [extractMediaUrls] returns; a photo has no
    [duration]. *)
Record ExtractedMedia : Type := mkExtractedMedia {
  xm_type : string;
  xm_url : string;
  xm_width : Z;
  xm_height : Z;
  xm_duration : option Q
}.

(** An element of the array [analyzeTwitterSearchResults] resolves to. *)
Record RelevantTweet : Type := mkRelevantTweet {
  rt_tweet : Tweet;
  rt_analysis : AiAnalysis.TextAnalysis;
  tweetId : string;
  rt_text : string;
  authorUsername : string;
  authorName : string;
  postedAt : string;
  rt_mediaUrls : list ExtractedMedia
}.

(** [MonitoringResult] *)
Record MonitoringResult : Type := mkMonitoringResult {
  mr_platform : string;
  mr_query : string;
  mr_timestamp : string;
  newPosts : nat;
  relevantPosts : nat;
  newCases : nat;
  updatedCases : nat;
  processingTime : Q
}.

Section ExtractMedia.

Local Open Scope string_scope.

(** Truthiness of an optional number. *)
Definition nonZero (n : option Z) : bool :=
  match n with Some z => negb (z =? 0)%Z | None => false end.

(** [variants.sort((a, b) => b.bitrate - a.bitrate)]: a stable sort,
    highest bit rate first. *)
Fixpoint insertByBitrate (x : VideoVariant) (l : list VideoVariant)
  : list VideoVariant :=
  match l with
  | [] => [x]
  | y :: ys =>
      if (or_zero (bitrate x) <? or_zero (bitrate y))%Z
      then y :: insertByBitrate x ys
      else x :: y :: ys
  end.

Definition sortByBitrate (l : list VideoVariant) : list VideoVariant :=
  fold_right insertByBitrate [] l.

(** [v => v.content_type === 'video/mp4' && v.bitrate] *)
Definition isMp4 (v : VideoVariant) : bool :=
  strict_eq (content_type v) (Str "video/mp4") && nonZero (bitrate v).

(** [media.video_info.duration_millis / 1000 || 0] *)
Definition durationSeconds (millis : option Z) : Q :=
  match millis with
  | Some z => (inject_Z z / 1000)%Q
  | None => 0%Q
  end.

(** The body of the first loop of [extractMediaUrls]. *)
Definition photoOf (media : TweetMedia) : list ExtractedMedia :=
  if truthy (media_url_https media)
  then [ {| xm_type := or_str (tm_type media) "photo";
            xm_url := render (media_url_https media);
            xm_width := or_zero (tm_large_w media);
            xm_height := or_zero (tm_large_h media);
            xm_duration := None |} ]
  else [].

(** The body of the second loop. *)
Definition videoOf (media : TweetMedia) : list ExtractedMedia :=
  match tm_variants media with
  | Some variants =>
      let videos := sortByBitrate (filter isMp4 variants) in
      match videos with
      | best :: _ =>
          [ {| xm_type := "video";
               xm_url := variant_url best;
               xm_width := or_zero (tm_large_w media);
               xm_height := or_zero (tm_large_h media);
               xm_duration := Some (durationSeconds (tm_duration_millis media)) |} ]
      | [] => []
      end
  | None => []
  end.

(** [extractMediaUrls(tweet)] *)
Definition extractMediaUrls (tweet : Tweet) : list ExtractedMedia :=
  let mediaUrls := [] in
  let mediaUrls :=
    match entities_media tweet with
    | Some media => (mediaUrls ++ flat_map photoOf media)%list
    | None => mediaUrls
    end in
  let mediaUrls :=
    match extended_entities_media tweet with
    | Some media => (mediaUrls ++ flat_map videoOf media)%list
    | None => mediaUrls
    end in
  mediaUrls.

End ExtractMedia.

Section Twitter.

Variable faults : nat -> bool.
Variable clock : nat -> Z.

(** [date.getFullYear()] and [date.toISOString()] of the date with a given
    time value, and the time value of [new Date(text)], which is [None]
    for an invalid date. *)
Variable getFullYear : Z -> Z.
Variable toISOString : Z -> string.
Variable parseDate : string -> option Z.

(** The [RangeError] that [toISOString] throws on an invalid date. *)
Variable invalidTimeValue : Error.

Local Open Scope string_scope.
Local Open Scope monad_scope.

(** The tweets of [l], each handled by [f], one after the other. *)
Fixpoint forEachCollect {A B : Type} (f : A -> M (list B)) (l : list A)
  : M (list B) :=
  match l with
  | [] => ret []
  | x :: xs => ys <- f x ;; zs <- forEachCollect f xs ;; ret (ys ++ zs)%list
  end.

(** The body of the innermost loop of [analyzeTwitterSearchResults].  The
    year [extractYear] compares with is read from the clock at each call
    of [analyzeTextContent]. *)
Definition analyzeTweet (tweet : Tweet) : M (list RelevantTweet) :=
  let tweetText := or_str (full_text tweet) "" in
  now <- newDate clock ;;
  let analysis := AiAnalysis.analyzeTextContent (getFullYear now) tweetText in
  ret (if AiAnalysis.isRelevant analysis
       then [ {| rt_tweet := tweet;
                 rt_analysis := analysis;
                 tweetId := rest_id tweet;
                 rt_text := tweetText;
                 authorUsername := or_str (screen_name tweet) "";
                 authorName := or_str (user_name tweet) "";
                 postedAt := or_str (tweet_created_at tweet) "";
                 rt_mediaUrls := extractMediaUrls tweet |} ]
       else []).

(** [analyzeTwitterSearchResults(response)] *)
Definition analyzeTwitterSearchResults (response : TwitterSearchResponse)
  : M (list RelevantTweet) :=
  match instructions response with
  | Some instructions =>
      forEachCollect
        (fun instruction =>
           match entries instruction with
           | Some entries =>
               forEachCollect
                 (fun entry =>
                    match entry_items entry with
                    | Some items =>
                        forEachCollect
                          (fun item =>
                             match tweet_result item with
                             | Some tweet => analyzeTweet tweet
                             | None => ret []
                             end)
                          items
                    | None => ret []
                    end)
                 entries
           | None => ret []
           end)
        instructions
  | None => ret []
  end.

(** [simulateTwitterSearch(query, count, cursor)]: a placeholder without
    entries. *)
Definition simulateTwitterSearch (query : string) (count : Z) (cursor : JsStr)
  : TwitterSearchResponse :=
  {| instructions := Some [ {| entries := Some [] |} ] |}.

(** [new Date(text).toISOString()] *)
Definition isoOf (text : string) : M string :=
  match parseDate text with
  | Some t => ret (toISOString t)
  | None => throw invalidTimeValue
  end.

(** The source built from a relevant tweet. *)
Definition sourceOfTweet (tweet : RelevantTweet) (posted_at : string)
  : SocialMediaSource :=
  {| src_id := None;
     src_platform := "twitter";
     src_platform_id := tweetId tweet;
     src_url := "https://twitter.com/" ++ authorUsername tweet ++ "/status/"
                  ++ tweetId tweet;
     src_author_username := authorUsername tweet;
     src_author_display_name := Str (authorName tweet);
     src_author_avatar_url := Undefined;
     src_content := rt_text tweet;
     src_posted_at := posted_at;
     src_is_reply := None;
     src_reply_to_id := None;
     src_metadata := Undefined |}.

(** The body of the loop over the relevant tweets. *)
Definition processTweet (tweet : RelevantTweet) : M CaseResult :=
  posted_at <- isoOf (postedAt tweet) ;;
  createCaseFromSocialMedia faults clock (sourceOfTweet tweet posted_at)
    (AiAnalysis.asAnalysis (rt_analysis tweet)).

(** [response.result?.timeline?.instructions?.[0]?.entries?.length || 0] *)
Definition firstEntries (response : TwitterSearchResponse) : nat :=
  match instructions response with
  | Some (first :: _) =>
      match entries first with
      | Some l => List.length l
      | None => 0
      end
  | _ => 0
  end.

(** [searchTwitter] from the response of the search on. *)
Definition searchTwitterOn (response : TwitterSearchResponse) (query : string)
  : M MonitoringResult :=
  tryCatch
    (startTime <- newDate clock ;;
     relevantTweets <- analyzeTwitterSearchResults response ;;
     processedCases <- mapM processTweet relevantTweets ;;
     let newCases := List.length (filter (fun c => isNewCase c) processedCases) in
     let updatedCases :=
       List.length (filter (fun c => negb (isNewCase c)) processedCases) in
     endTime <- newDate clock ;;
     let processingTime := (inject_Z (endTime - startTime) / 1000)%Q in
     timestamp <- newDate clock ;;
     ret {| mr_platform := "twitter";
            mr_query := query;
            mr_timestamp := toISOString timestamp;
            newPosts := firstEntries response;
            relevantPosts := List.length relevantTweets;
            newCases := newCases;
            updatedCases := updatedCases;
            processingTime := processingTime |})
    (fun e => console_error "Error searching Twitter:" ;; throw e).

(** [searchTwitter(query, count, cursor)] *)
Definition searchTwitter (query : string) (count : Z) (cursor : JsStr)
  : M MonitoringResult :=
  searchTwitterOn (simulateTwitterSearch query count cursor) query.

End Twitter.

(* ===================================================================== *)
(** ** Vocabulary for the Twitter search *)
(* ===================================================================== *)

(** The tweets of a response, in the order of the loops of
    [analyzeTwitterSearchResults]. *)
Definition tweetsOfItem (item : TimelineItem) : list Tweet :=
  match tweet_result item with Some tweet => [tweet] | None => [] end.

Definition tweetsOfEntry (entry : TimelineEntry) : list Tweet :=
  match entry_items entry with
  | Some items => flat_map tweetsOfItem items
  | None => []
  end.

Definition tweetsOfInstruction (instruction : TimelineInstruction) : list Tweet :=
  match entries instruction with
  | Some l => flat_map tweetsOfEntry l
  | None => []
  end.

Definition allTweets (response : TwitterSearchResponse) : list Tweet :=
  match instructions response with
  | Some l => flat_map tweetsOfInstruction l
  | None => []
  end.

(** The text of a tweet contains a Tesla keyword and a vandalism keyword. *)
Definition mentionsTeslaVandalism (tweet : Tweet) : bool :=
  let textLower := toLowerCase (or_str (full_text tweet) "") in
  existsb (fun keyword => includes textLower keyword) AiAnalysis.teslaKeywords
  && existsb (fun keyword => includes textLower keyword) AiAnalysis.vandalismKeywords.

(** The element of the result for a tweet analysed in the year [year]. *)
Definition relevantTweetOf (year : Z) (tweet : Tweet) : RelevantTweet :=
  {| rt_tweet := tweet;
     rt_analysis := AiAnalysis.analyzeTextContent year (or_str (full_text tweet) "");
     tweetId := rest_id tweet;
     rt_text := or_str (full_text tweet) "";
     authorUsername := or_str (screen_name tweet) "";
     authorName := or_str (user_name tweet) "";
     postedAt := or_str (tweet_created_at tweet) "";
     rt_mediaUrls := extractMediaUrls tweet |}.

(** Nothing but the clock has moved, by [n] readings. *)
Definition onlyClock (n : nat) : World -> World -> Prop :=
  fun w w' =>
    sameTables w w' /\ next_id w' = next_id w /\ trace w' = trace w
    /\ console w' = console w /\ clock_reads w' = (clock_reads w + n)%nat.

(** An element of the result carries the analysis of its tweet, made at
    some reading of the clock. *)
Definition analysedAt (clock : nat -> Z) (getFullYear : Z -> Z)
    (t : RelevantTweet) : Prop :=
  exists n, t = relevantTweetOf (getFullYear (clock n)) (rt_tweet t).

(* ===================================================================== *)
(** ** Facts about numbers and about the score *)
(* ===================================================================== *)

Section ScoreFacts.

Local Open Scope Q_scope.

Lemma Qgtb_true (a b : Q) : Qgtb a b = true <-> b < a.
Proof.
  unfold Qgtb. rewrite negb_true_iff. split; intro H.
  - apply Qnot_le_lt. intro L. apply Qle_bool_iff in L. congruence.
  - destruct (Qle_bool a b) eqn:E; [|reflexivity].
    apply Qle_bool_iff in E. exfalso. apply (Qlt_not_le _ _ H E).
Qed.

Lemma Qgtb_false (a b : Q) : Qgtb a b = false <-> a <= b.
Proof.
  unfold Qgtb. rewrite negb_false_iff. apply Qle_bool_iff.
Qed.

Lemma Qltb_true (a b : Q) : Qltb a b = true <-> a < b.
Proof. unfold Qltb. apply (Qgtb_true b a). Qed.

Lemma Qltb_false (a b : Q) : Qltb a b = false <-> b <= a.
Proof. unfold Qltb. apply (Qgtb_false b a). Qed.

Lemma overlap_length (postTags candidateTags : list string) :
  overlap postTags candidateTags
  = List.length (matchingDamageTypes postTags candidateTags).
Proof.
  induction postTags as [|t ts IH]; simpl; [reflexivity|].
  destruct (arr_includes candidateTags t); simpl; congruence.
Qed.

Lemma overlap_le (postTags candidateTags : list string) :
  (overlap postTags candidateTags <= List.length postTags)%nat.
Proof.
  induction postTags as [|t ts IH]; simpl; [lia|].
  destruct (arr_includes candidateTags t); lia.
Qed.

Lemma len_pos (A : Type) (l : list A) :
  Qgtb (len l) 0 = negb (Nat.eqb (List.length l) 0).
Proof.
  unfold len. destruct l as [|x xs]; simpl; [reflexivity|].
  apply Qgtb_true. unfold Qlt, inject_Z; simpl. lia.
Qed.

(** The accumulated score is the sum of the four terms. *)
Lemma scoreCase_terms (locationInfo : LocationInfo) (targetDetails : TargetDetails)
    (damageType : list string) (now : Z) (case_ : Case) :
  scoreCase locationInfo targetDetails damageType now case_
  == specScore locationInfo targetDetails damageType
       (hoursDiff now (created_at case_)) case_.
Proof.
  unfold scoreCase, specScore, locationTerm, targetTerm, damageTerm, timeTerm.
  fold (tagsOf case_).
  rewrite len_pos, overlap_length.
  unfold len.
  destruct (matchingDamageTypes damageType (tagsOf case_)) as [|m ms] eqn:Em;
    cbn [List.length Nat.eqb negb];
    destruct (strict_eq (location_city case_) (city locationInfo));
    destruct (strict_eq (location_state case_) (state locationInfo));
    destruct (String.eqb (target_type case_) (td_type targetDetails));
    destruct (String.eqb (target_type case_) "vehicle"
              && strict_eq (td_make (target_details case_)) (td_make targetDetails)
              && strict_eq (td_model (target_details case_)) (td_model targetDetails));
    destruct (Qltb (hoursDiff now (created_at case_)) 48);
    ring.
Qed.

Lemma locationTerm_bounds (locationInfo : LocationInfo) (case_ : Case) :
  0 <= locationTerm locationInfo case_ <= 0.4.
Proof.
  unfold locationTerm.
  destruct (strict_eq _ _); [destruct (strict_eq _ _)|]; split; lra.
Qed.

Lemma targetTerm_bounds (targetDetails : TargetDetails) (case_ : Case) :
  0 <= targetTerm targetDetails case_ <= 0.4.
Proof.
  unfold targetTerm.
  destruct (String.eqb _ _); [destruct (_ && _)|]; split; lra.
Qed.

Lemma ratio_bounds (m n : nat) :
  (m <= n)%nat ->
  0 <= inject_Z (Z.of_nat m) / inject_Z (Z.of_nat n) <= 1.
Proof.
  intro H. destruct n as [|n].
  - assert (m = 0%nat) by lia. subst. split; unfold Qle; simpl; lia.
  - assert (Hn : 0 < inject_Z (Z.of_nat (S n))).
    { unfold Qlt, inject_Z; simpl; lia. }
    split.
    + apply Qle_shift_div_l; [exact Hn|].
      unfold Qle, inject_Z; simpl; lia.
    + apply Qle_shift_div_r; [exact Hn|].
      unfold Qle, inject_Z. simpl Qnum. simpl Qden. lia.
Qed.

Lemma damageTerm_bounds (damageType : list string) (case_ : Case) :
  0 <= damageTerm damageType case_ <= 0.2.
Proof.
  unfold damageTerm.
  pose proof (overlap_le damageType (tagsOf case_)) as Hle.
  destruct (overlap damageType (tagsOf case_)) as [|k]; [split; lra|].
  pose proof (ratio_bounds Hle) as [H0 H1].
  split; lra.
Qed.

Lemma div48 (h : Q) : h / 48 == h * (1 # 48).
Proof. reflexivity. Qed.

Lemma timeTerm_nonneg (h : Q) : 0 <= timeTerm h.
Proof.
  unfold timeTerm. destruct (Qltb h 48) eqn:E; [|lra].
  apply Qltb_true in E. rewrite div48. lra.
Qed.

Lemma timeTerm_le (h : Q) : 0 <= h -> timeTerm h <= 0.2.
Proof.
  intro H. unfold timeTerm. destruct (Qltb h 48); rewrite ?div48; lra.
Qed.

Lemma timeTerm_zero (h : Q) : 48 <= h -> timeTerm h = 0.
Proof.
  intro H. unfold timeTerm.
  apply Qltb_false in H. rewrite H. reflexivity.
Qed.

Lemma timeTerm_antitone (h1 h2 : Q) : h1 <= h2 -> timeTerm h2 <= timeTerm h1.
Proof.
  intro H. unfold timeTerm.
  destruct (Qltb h1 48) eqn:E1; destruct (Qltb h2 48) eqn:E2;
    try apply Qltb_true in E1; try apply Qltb_true in E2;
    try apply Qltb_false in E1; try apply Qltb_false in E2;
    rewrite ?div48; lra.
Qed.

Lemma hoursDiff_monotone (now1 now2 t1 t2 : Z) :
  (now1 - t1 <= now2 - t2)%Z -> hoursDiff now1 t1 <= hoursDiff now2 t2.
Proof.
  intro H. unfold hoursDiff.
  apply Qmult_le_compat_r.
  - rewrite <- Zle_Qle. exact H.
  - unfold Qle; simpl; lia.
Qed.

Lemma hoursDiff_nonneg (now t : Z) : (t <= now)%Z -> 0 <= hoursDiff now t.
Proof.
  intro H. unfold hoursDiff.
  apply Qle_shift_div_l.
  - unfold Qlt; simpl; lia.
  - rewrite Qmult_0_l. replace 0 with (inject_Z 0) by reflexivity.
    rewrite <- Zle_Qle. lia.
Qed.

Lemma hoursDiff_48 (now t : Z) :
  (172800000 <= now - t)%Z -> 48 <= hoursDiff now t.
Proof.
  intro H. unfold hoursDiff.
  apply Qle_shift_div_l.
  - unfold Qlt; simpl; lia.
  - unfold Qle, inject_Z; simpl. lia.
Qed.

End ScoreFacts.

(* ===================================================================== *)
(** ** Facts about the sort *)
(* ===================================================================== *)

Section SortFacts.

Local Open Scope Q_scope.

Lemma insertByScore_In (x y : Scored) (l : list Scored) :
  In y (insertByScore x l) <-> y = x \/ In y l.
Proof.
  induction l as [|z zs IH]; simpl.
  - intuition.
  - destruct (Qgtb (similarityScore z) (similarityScore x)); simpl;
      rewrite ?IH; intuition.
Qed.

Lemma sortByScore_In (y : Scored) (l : list Scored) :
  In y (sortByScore l) <-> In y l.
Proof.
  induction l as [|x xs IH]; simpl; [tauto|].
  rewrite insertByScore_In, IH. intuition.
Qed.

Lemma insertByScore_descending (x : Scored) (l : list Scored) :
  descending l -> descending (insertByScore x l).
Proof.
  induction l as [|z zs IH]; simpl; intro D.
  - auto.
  - destruct D as [Dz Dzs].
    destruct (Qgtb (similarityScore z) (similarityScore x)) eqn:E; simpl.
    + split; [|auto].
      apply Forall_forall. intros y Hy.
      apply insertByScore_In in Hy. destruct Hy as [->|Hy].
      * apply Qgtb_true in E. unfold before. lra.
      * rewrite Forall_forall in Dz. auto.
    + apply Qgtb_false in E. split; [|split; assumption].
      constructor; [exact E|].
      rewrite Forall_forall in Dz |- *. intros y Hy.
      specialize (Dz y Hy). unfold before in *. lra.
Qed.

Lemma sortByScore_descending (l : list Scored) : descending (sortByScore l).
Proof.
  induction l as [|x xs IH]; simpl; [exact I|].
  apply insertByScore_descending, IH.
Qed.

Lemma descending_head (top : Scored) (rest : list Scored) (d : Scored) :
  descending (top :: rest) -> In d (top :: rest) ->
  similarityScore d <= similarityScore top.
Proof.
  intros [F _] [->|H]; [lra|].
  rewrite Forall_forall in F. exact (F d H).
Qed.

End SortFacts.

(* ===================================================================== *)
(** ** Reasoning about computations *)
(* ===================================================================== *)

Section Runs.

Context {A B : Type}.

Lemma bind_Returned (m : M A) (k : A -> M B) (w w1 : World) (a : A) :
  m w = (Returned a, w1) -> bind m k w = k a w1.
Proof. intro H. unfold bind. rewrite H. reflexivity. Qed.

(** How a sequence can have returned. *)
Lemma bind_inv_Returned (m : M A) (k : A -> M B) (w w' : World) (b : B) :
  bind m k w = (Returned b, w') ->
  exists a w1, m w = (Returned a, w1) /\ k a w1 = (Returned b, w').
Proof.
  unfold bind. destruct (m w) as [[a|e] w1]; intro H.
  - exists a, w1. auto.
  - discriminate.
Qed.

End Runs.

(** A handler that logs and throws again lets no value through. *)
Lemma rethrow_inv_Returned (A : Type) (m : M A) (msg : string) (w w' : World) (a : A) :
  tryCatch m (fun e => bind (console_error msg) (fun _ => throw e)) w = (Returned a, w') ->
  m w = (Returned a, w').
Proof.
  unfold tryCatch. destruct (m w) as [[x|e] w1]; intro H.
  - exact H.
  - unfold bind, console_error, throw in H. discriminate.
Qed.

Lemma rethrow_Returned (A : Type) (m : M A) (h : Error -> M A) (w w' : World) (a : A) :
  m w = (Returned a, w') -> tryCatch m h w = (Returned a, w').
Proof. intro H. unfold tryCatch. rewrite H. reflexivity. Qed.

(** ** Relations between the world before and after a computation *)

Section Stable.

Variable R : World -> World -> Prop.
Hypothesis RF : Frame R.

Lemma stable_ret (A : Type) (a : A) : stable R (ret a).
Proof. intro w. apply (frame_refl RF). Qed.

Lemma stable_throw (A : Type) (e : Error) : stable R (@throw A e).
Proof. intro w. apply (frame_refl RF). Qed.

Lemma stable_console (msg : string) : stable R (console_error msg).
Proof. intro w. apply (frame_console RF). Qed.

Lemma stable_bind (A B : Type) (m : M A) (k : A -> M B) :
  stable R m -> (forall a, stable R (k a)) -> stable R (bind m k).
Proof.
  intros Hm Hk w. unfold bind.
  specialize (Hm w). destruct (m w) as [[a|e] w1]; simpl in *.
  - eapply (frame_trans RF); [exact Hm|apply Hk].
  - exact Hm.
Qed.

Lemma stable_tryCatch (A : Type) (m : M A) (h : Error -> M A) :
  stable R m -> (forall e, stable R (h e)) -> stable R (tryCatch m h).
Proof.
  intros Hm Hh w. unfold tryCatch.
  specialize (Hm w). destruct (m w) as [[a|e] w1]; simpl in *.
  - exact Hm.
  - eapply (frame_trans RF); [exact Hm|apply Hh].
Qed.

Lemma stable_rethrow (A : Type) (m : M A) (msg : string) :
  stable R m ->
  stable R (tryCatch m (fun e => bind (console_error msg) (fun _ => throw e))).
Proof.
  intro Hm. apply stable_tryCatch; [exact Hm|].
  intro e. apply stable_bind; [apply stable_console|].
  intro. apply stable_throw.
Qed.

Lemma stable_forEachFrom (A : Type) (f : nat -> A -> M unit) (l : list A) :
  (forall i x, stable R (f i x)) -> forall index, stable R (forEachFrom index l f).
Proof.
  intro Hf. induction l as [|x xs IH]; intro index; simpl.
  - apply stable_ret.
  - apply stable_bind; [apply Hf|]. intro. apply IH.
Qed.

Lemma stable_mapM (A B : Type) (f : A -> M B) (l : list A) :
  (forall x, stable R (f x)) -> stable R (mapM f l).
Proof.
  intro Hf. induction l as [|x xs IH]; simpl.
  - apply stable_ret.
  - apply stable_bind; [apply Hf|]. intro y.
    apply stable_bind; [exact IH|]. intro ys. apply stable_ret.
Qed.

(** Once the world before is fixed, the relation carries over a run. *)
Lemma stable_run (A : Type) (m : M A) (w w' : World) (o : Outcome A) :
  stable R m -> m w = (o, w') -> R w w'.
Proof. intros H E. specialize (H w). rewrite E in H. exact H. Qed.

End Stable.

(** [carry H L E]: from a run [H : m w = (o, w')] and a stability lemma [L]
    for [m], the fact [E] relating [w] and [w']. *)
Ltac carry H L E :=
  pose proof H as E; eapply stable_run in E; [|eapply L].

(** ** The relations used below *)

Lemma Frame_unchanged (T : Type) (proj : World -> T) :
  (forall msg w, proj (snd (console_error msg w)) = proj w) ->
  Frame (unchanged proj).
Proof.
  intro Hc. constructor; unfold unchanged.
  - reflexivity.
  - intros w1 w2 w3 H12 H23. congruence.
  - exact Hc.
Qed.

Lemma Frame_appended (T : Type) (proj : World -> list T) (P : T -> Prop) :
  (forall msg w, proj (snd (console_error msg w)) = proj w) ->
  Frame (appended proj P).
Proof.
  intro Hc. constructor; unfold appended.
  - intro w. exists []. split; [symmetry; apply app_nil_r|constructor].
  - intros w1 w2 w3 [xs [E1 F1]] [ys [E2 F2]].
    exists (xs ++ ys). split.
    + rewrite E2, E1, app_assoc. reflexivity.
    + apply Forall_app. split; assumption.
  - intros msg w. exists []. split; [rewrite Hc; symmetry; apply app_nil_r|constructor].
Qed.

Lemma Frame_both (R1 R2 : World -> World -> Prop) :
  Frame R1 -> Frame R2 -> Frame (both R1 R2).
Proof.
  intros F1 F2. constructor; unfold both.
  - intro w. split; [apply (frame_refl F1)|apply (frame_refl F2)].
  - intros w1 w2 w3 [A1 A2] [B1 B2]. split.
    + exact (frame_trans F1 _ _ _ A1 B1).
    + exact (frame_trans F2 _ _ _ A2 B2).
  - intros msg w. split; [apply (frame_console F1)|apply (frame_console F2)].
Qed.

Lemma appended_In (T : Type) (proj : World -> list T) (P : T -> Prop)
    (w w' : World) (x : T) :
  appended proj P w w' -> In x (proj w) -> In x (proj w').
Proof.
  intros [xs [E _]] H. rewrite E. apply in_or_app. left. exact H.
Qed.

(** Proves that a relation built from [unchanged], [appended] and [both]
    over table projections is a [Frame]. *)
Ltac frame :=
  repeat first
    [ apply Frame_both
    | apply Frame_unchanged; reflexivity
    | apply Frame_appended; reflexivity ].

(** ** Every function is stable for whatever its repository calls are
       stable for *)

Section Compositional.

Variable faults : nat -> bool.
Variable clock : nat -> Z.
Variable R : World -> World -> Prop.
Hypothesis RF : Frame R.

Lemma newDate_stable :
  (forall w, R w (snd (readClock clock w))) -> stable R (newDate clock).
Proof.
  intros H w. unfold newDate. specialize (H w).
  destruct (readClock clock w) as [t w1]. exact H.
Qed.

Lemma idOfData_stable (d : option SourceRow) : stable R (idOfData d).
Proof. destruct d; [apply stable_ret|apply stable_throw]; exact RF. Qed.

Lemma caseOfData_stable (d : option Case) : stable R (caseOfData d).
Proof. destruct d; [apply stable_ret|apply stable_throw]; exact RF. Qed.

Lemma createCaseUpdate_stable (update : CaseUpdate) :
  stable R (insertCaseUpdate faults update) ->
  stable R (createCaseUpdate faults update).
Proof.
  intro H. unfold createCaseUpdate.
  apply stable_rethrow; [exact RF|].
  apply stable_bind; [exact RF|exact H|].
  intro r. destruct (error r); [apply stable_throw|apply stable_ret]; exact RF.
Qed.

Lemma storeOrFind_stable (source : SocialMediaSource) (existing : Response Id) :
  stable R (insertSource faults (sourceRowOf source)) ->
  stable R
    (match data existing with
     | Some id => ret id
     | None =>
         bind (insertSource faults (sourceRowOf source))
           (fun inserted =>
              match error inserted with
              | Some insertError => throw insertError
              | None => idOfData (data inserted)
              end)
     end).
Proof.
  intro H. destruct (data existing).
  - apply stable_ret; exact RF.
  - apply stable_bind; [exact RF|exact H|].
    intro r. destruct (error r); [apply stable_throw; exact RF|apply idOfData_stable].
Qed.

Lemma linkSourceToCase_stable (source : SocialMediaSource) (caseId : Id) :
  stable R (selectSourceId faults (src_platform source) (src_platform_id source)) ->
  stable R (insertSource faults (sourceRowOf source)) ->
  (forall u, cu_case_id u = caseId -> stable R (insertCaseUpdate faults u)) ->
  stable R (linkSourceToCase faults source caseId).
Proof.
  intros Hs Hi Hu. unfold linkSourceToCase.
  apply stable_rethrow; [exact RF|].
  apply stable_bind; [exact RF|exact Hs|].
  intro existing.
  apply stable_bind; [exact RF|apply storeOrFind_stable; exact Hi|].
  intro sourceId.
  apply stable_bind; [exact RF| |intro; apply stable_ret; exact RF].
  apply createCaseUpdate_stable. apply Hu. reflexivity.
Qed.

Lemma addMediaToCase_stable (caseId : Id) (sourceId : option Id)
    (mediaUrls : list MediaItem) :
  (forall m, cm_case_id m = caseId -> stable R (insertCaseMedia faults m)) ->
  stable R (addMediaToCase faults caseId sourceId mediaUrls).
Proof.
  intro H. unfold addMediaToCase.
  apply stable_rethrow; [exact RF|].
  apply stable_forEachFrom; [exact RF|].
  intros i x. apply stable_bind; [exact RF| |intro; apply stable_ret; exact RF].
  apply H. reflexivity.
Qed.

Lemma addMediaIfAny_stable (caseId : Id) (source : SocialMediaSource)
    (analysis : Analysis) :
  (forall m, cm_case_id m = caseId -> stable R (insertCaseMedia faults m)) ->
  stable R (addMediaIfAny faults caseId source analysis).
Proof.
  intro H. unfold addMediaIfAny.
  destruct (hasMedia analysis).
  - apply addMediaToCase_stable. exact H.
  - apply stable_ret; exact RF.
Qed.

Lemma linkRelatedCases_stable (a b : Id) (type : string) (strength : Q) :
  stable R (insertRelatedCases faults (relatedRows a b type strength)) ->
  stable R (linkRelatedCases faults a b type strength).
Proof.
  intro H. unfold linkRelatedCases.
  apply stable_rethrow; [exact RF|].
  apply stable_bind; [exact RF|exact H|intro; apply stable_ret; exact RF].
Qed.

Lemma linkPossibleDuplicates_stable (newCaseId : Id) (l : list Scored) :
  (forall d, In d l -> Qgtb (similarityScore d) 0.6 = true ->
     stable R (insertRelatedCases faults
                 (relatedRows newCaseId (case_id (sc_case d)) "possible_duplicate"
                              (similarityScore d)))) ->
  stable R (linkPossibleDuplicates faults newCaseId l).
Proof.
  induction l as [|d ds IH]; intro H; simpl.
  - apply stable_ret; exact RF.
  - apply stable_bind; [exact RF| |].
    + destruct (Qgtb (similarityScore d) 0.6) eqn:E.
      * apply linkRelatedCases_stable. apply H; [left; reflexivity|exact E].
      * apply stable_ret; exact RF.
    + intro. apply IH. intros d' Hd'. apply H. right. exact Hd'.
Qed.

Lemma findPotentialDuplicates_stable (locationInfo : LocationInfo)
    (targetDetails : TargetDetails) (damageType : list string) :
  stable R (selectCases faults (city locationInfo) (td_type targetDetails)) ->
  (forall w, R w (snd (readClock clock w))) ->
  stable R (findPotentialDuplicates faults clock locationInfo targetDetails damageType).
Proof.
  intros Hs Hc. unfold findPotentialDuplicates.
  apply stable_tryCatch; [exact RF| |].
  - apply stable_bind; [exact RF|exact Hs|].
    intro r. destruct (error r); [apply stable_throw; exact RF|].
    destruct (data r) as [[|c cs]|]; try (apply stable_ret; exact RF).
    apply stable_bind; [exact RF| |intro; apply stable_ret; exact RF].
    apply stable_mapM; [exact RF|].
    intro x. unfold scoreCandidate.
    apply stable_bind; [exact RF|apply newDate_stable; exact Hc|].
    intro. apply stable_ret; exact RF.
  - intro e. apply stable_bind; [exact RF|apply stable_console; exact RF|].
    intro. apply stable_ret; exact RF.
Qed.

End Compositional.

(** ** The footprint of the repository calls *)

(** Decides a goal [stable R call] or [R w (snd (readClock clock w))] for a
    relation built from [unchanged], [appended] and [both]: the call is run
    symbolically, once accepted and once rejected. *)
Ltac footprint :=
  intros;
  let w := fresh "w" in
  try intro w;
  unfold selectSourceId, insertSource, insertCase, insertCaseUpdate,
    insertCaseMedia, insertRelatedCases, selectCases, readClock, recordCall;
  cbn [fst snd];
  repeat match goal with
    | |- context [if ?f (List.length (trace ?x)) then _ else _] =>
        destruct (f (List.length (trace x)))
    | |- context [match filter ?f ?l with _ => _ end] =>
        destruct (filter f l) as [|? [|? ?]]
    end;
  unfold sameTables, extends, attachedTo, both, unchanged, appended; cbn;
  repeat match goal with |- _ /\ _ => split end;
  first
    [ reflexivity
    | exists []; split; [symmetry; apply app_nil_r|constructor]
    | eexists; split;
      [reflexivity|repeat constructor; solve [eauto|reflexivity|assumption]]
    | eexists; split; [reflexivity|apply Forall_forall; intros; exact I] ].

Section Footprints.

Variable faults : nat -> bool.
Variable clock : nat -> Z.

Lemma findPotentialDuplicates_sameTables (locationInfo : LocationInfo)
    (targetDetails : TargetDetails) (damageType : list string) :
  stable sameTables
    (findPotentialDuplicates faults clock locationInfo targetDetails damageType).
Proof.
  apply findPotentialDuplicates_stable; [unfold sameTables; frame| |]; footprint.
Qed.

Lemma linkSourceToCase_attachedTo (source : SocialMediaSource) (c : Id) :
  stable (attachedTo c) (linkSourceToCase faults source c).
Proof.
  apply linkSourceToCase_stable; [unfold attachedTo; frame| | |]; footprint.
Qed.

Lemma addMediaIfAny_attachedTo (source : SocialMediaSource) (analysis : Analysis)
    (c : Id) :
  stable (attachedTo c) (addMediaIfAny faults c source analysis).
Proof.
  apply addMediaIfAny_stable; [unfold attachedTo; frame|]; footprint.
Qed.

Lemma createCaseUpdate_attachedTo (u : CaseUpdate) :
  stable (attachedTo (cu_case_id u)) (createCaseUpdate faults u).
Proof.
  apply createCaseUpdate_stable; [unfold attachedTo; frame|]; footprint.
Qed.

Lemma addMediaIfAny_sameSources (source : SocialMediaSource) (analysis : Analysis)
    (c : Id) :
  stable (unchanged social_media_sources) (addMediaIfAny faults c source analysis).
Proof.
  apply addMediaIfAny_stable; [frame|]; footprint.
Qed.

Lemma createCaseUpdate_sameSources (u : CaseUpdate) :
  stable (unchanged social_media_sources) (createCaseUpdate faults u).
Proof.
  apply createCaseUpdate_stable; [frame|]; footprint.
Qed.

Lemma linkPossibleDuplicates_sameSources (c : Id) (l : list Scored) :
  stable (unchanged social_media_sources) (linkPossibleDuplicates faults c l).
Proof.
  apply linkPossibleDuplicates_stable; [frame|]; footprint.
Qed.

Lemma linkSourceToCase_sameCases (source : SocialMediaSource) (c : Id) :
  stable (unchanged cases) (linkSourceToCase faults source c).
Proof.
  apply linkSourceToCase_stable; [frame| | |]; footprint.
Qed.

Lemma addMediaIfAny_sameCases (source : SocialMediaSource) (analysis : Analysis)
    (c : Id) :
  stable (unchanged cases) (addMediaIfAny faults c source analysis).
Proof.
  apply addMediaIfAny_stable; [frame|]; footprint.
Qed.

Lemma linkPossibleDuplicates_sameCases (c : Id) (l : list Scored) :
  stable (unchanged cases) (linkPossibleDuplicates faults c l).
Proof.
  apply linkPossibleDuplicates_stable; [frame|]; footprint.
Qed.

Lemma linkSourceToCase_sameRelated (source : SocialMediaSource) (c : Id) :
  stable (unchanged related_cases) (linkSourceToCase faults source c).
Proof.
  apply linkSourceToCase_stable; [frame| | |]; footprint.
Qed.

Lemma addMediaIfAny_sameRelated (source : SocialMediaSource) (analysis : Analysis)
    (c : Id) :
  stable (unchanged related_cases) (addMediaIfAny faults c source analysis).
Proof.
  apply addMediaIfAny_stable; [frame|]; footprint.
Qed.

End Footprints.

(* ===================================================================== *)
(** ** The two branches of [createCaseFromSocialMedia] *)
(* ===================================================================== *)

Section Branches.

Variable faults : nat -> bool.
Variable clock : nat -> Z.

Local Open Scope string_scope.

Lemma createCaseFromSocialMedia_unfold (source : SocialMediaSource)
    (analysis : Analysis) :
  createCaseFromSocialMedia faults clock source analysis
  = tryCatch
      (bind (duplicateSearch faults clock source analysis)
            (resolve faults clock source analysis))
      (fun e => bind (console_error "Error creating case from social media:")
                  (fun _ => throw e)).
Proof. reflexivity. Qed.

(** *** The duplicate search *)

Lemma mapM_scoreCandidate_returns (l : LocationInfo) (t : TargetDetails)
    (d : list string) (cs : list Case) (w : World) :
  exists ys w1,
    mapM (scoreCandidate clock l t d) cs w = (Returned ys, w1)
    /\ List.length ys = List.length cs.
Proof.
  revert w. induction cs as [|c cs IH]; intro w; simpl.
  - exists [], w. split; reflexivity.
  - unfold bind at 1. unfold scoreCandidate at 1. unfold bind at 1.
    unfold newDate. destruct (readClock clock w) as [now w0]. simpl.
    unfold bind at 1.
    destruct (IH w0) as [ys [w1 [E L]]]. rewrite E. simpl.
    eexists _, w1. split; [reflexivity|]. simpl. congruence.
Qed.

(** The search always returns, and what it returns is sorted. *)
Lemma findPotentialDuplicates_returns (l : LocationInfo) (t : TargetDetails)
    (d : list string) (w : World) :
  exists dups w1,
    findPotentialDuplicates faults clock l t d w = (Returned dups, w1)
    /\ descending dups
    /\ (faults (List.length (trace w)) = true -> dups = []).
Proof.
  unfold findPotentialDuplicates, tryCatch, bind at 1.
  unfold selectCases, recordCall. cbn [fst snd].
  destruct (faults (List.length (trace w))) eqn:F.
  - cbn. eexists [], _. split; [reflexivity|]. split; [exact I|reflexivity].
  - cbn [error data rejected].
    match goal with
    | |- context [firstn 10 ?x] => destruct (firstn 10 x) as [|c cs]
    end.
    + cbn. eexists [], _. split; [reflexivity|]. split; [exact I|discriminate].
    + match goal with
      | |- context [bind (mapM ?f ?l0) ?k ?w0] =>
          destruct (mapM_scoreCandidate_returns l t d l0 w0) as [ys [w1 [E _]]];
          erewrite bind_Returned by exact E
      end.
      cbn. eexists _, w1. split; [reflexivity|].
      split; [apply sortByScore_descending|discriminate].
Qed.

Lemma duplicateSearch_returns (source : SocialMediaSource) (analysis : Analysis)
    (w : World) :
  exists dups w1,
    duplicateSearch faults clock source analysis w = (Returned dups, w1)
    /\ descending dups
    /\ (faults (List.length (trace w)) = true -> dups = []).
Proof. apply findPotentialDuplicates_returns. Qed.

Lemma duplicateSearch_sameTables (source : SocialMediaSource) (analysis : Analysis) :
  stable sameTables (duplicateSearch faults clock source analysis).
Proof. apply findPotentialDuplicates_sameTables. Qed.

(** The whole function, once the search has returned. *)
Lemma createCaseFromSocialMedia_after_search (source : SocialMediaSource)
    (analysis : Analysis) (w w1 : World) (dups : list Scored) :
  duplicateSearch faults clock source analysis w = (Returned dups, w1) ->
  createCaseFromSocialMedia faults clock source analysis w
  = tryCatch (resolve faults clock source analysis dups)
      (fun e => bind (console_error "Error creating case from social media:")
                  (fun _ => throw e)) w1.
Proof.
  intro E. rewrite createCaseFromSocialMedia_unfold.
  unfold tryCatch. erewrite bind_Returned by exact E. reflexivity.
Qed.

End Branches.

(* ===================================================================== *)
(** ** Composition of different relations *)
(* ===================================================================== *)

Section Composition.

Variables R1 R2 R3 : World -> World -> Prop.
Hypothesis compose : forall w1 w2 w3, R1 w1 w2 -> R2 w2 w3 -> R3 w1 w3.
Hypothesis weaken1 : forall w1 w2, R1 w1 w2 -> R3 w1 w2.

Lemma stable_bind2 (A B : Type) (m : M A) (k : A -> M B) :
  stable R1 m -> (forall a, stable R2 (k a)) -> stable R3 (bind m k).
Proof.
  intros Hm Hk w. unfold bind.
  specialize (Hm w). destruct (m w) as [[a|e] w1]; simpl in *.
  - eapply compose; [exact Hm|apply Hk].
  - apply weaken1. exact Hm.
Qed.

End Composition.

(** A relation on the tables survives the logging of a rethrown error. *)
Lemma stable_rethrow2 (R : World -> World -> Prop) (A : Type) (m : M A) (msg : string) :
  (forall w w', R w w' -> R w (snd (console_error msg w'))) ->
  stable R m ->
  stable R (tryCatch m (fun e => bind (console_error msg) (fun _ => throw e))).
Proof.
  intros Hc Hm w. unfold tryCatch.
  specialize (Hm w). destruct (m w) as [[a|e] w1]; simpl in *.
  - exact Hm.
  - apply Hc in Hm. exact Hm.
Qed.

Lemma Frame_linking (P : Scored -> Prop) (newId : Id) : Frame (linking P newId).
Proof.
  constructor; unfold linking.
  - intro w. exists []. split; [symmetry; apply app_nil_r|constructor].
  - intros w1 w2 w3 [xs [E1 F1]] [ys [E2 F2]].
    exists (xs ++ ys). split.
    + rewrite E2, E1, flat_map_app, app_assoc. reflexivity.
    + apply Forall_app. split; assumption.
  - intros msg w. exists []. split; [symmetry; apply app_nil_r|constructor].
Qed.

Section BranchFacts.

Variable faults : nat -> bool.
Variable clock : nat -> Z.

(** *** What a returned call has done *)

Lemma createCaseUpdate_Returned (u : CaseUpdate) (w w' : World) (x : unit) :
  createCaseUpdate faults u w = (Returned x, w') ->
  case_updates w' = case_updates w ++ [u].
Proof.
  intro H. apply rethrow_inv_Returned in H.
  unfold bind, insertCaseUpdate, recordCall in H. cbn [fst snd] in H.
  destruct (faults (List.length (trace w))); cbn in H.
  - discriminate.
  - inversion H. reflexivity.
Qed.

Lemma selectSourceId_run (source : SocialMediaSource) (w w1 : World)
    (existing : Response Id) :
  selectSourceId faults (src_platform source) (src_platform_id source) w
  = (Returned existing, w1) ->
  social_media_sources w1 = social_media_sources w
  /\ forall id, data existing = Some id ->
       exists r, filter (sameSource (src_platform source) (src_platform_id source))
                   (social_media_sources w) = [r]
                 /\ sr_id r = id.
Proof.
  unfold selectSourceId, recordCall. cbn [fst snd].
  destruct (faults (List.length (trace w))); cbn.
  - intro H. inversion H. subst. split; [reflexivity|]. cbn. discriminate.
  - destruct (filter _ (social_media_sources w)) as [|r [|r' rs]];
      intro H; inversion H; subst; (split; [reflexivity|]); cbn; try discriminate.
    intros id E. inversion E. exists r. split; reflexivity.
Qed.

Lemma sameSource_row (source : SocialMediaSource) (id : Id) :
  sameSource (src_platform source) (src_platform_id source) (sourceRowOf source id)
  = true.
Proof.
  unfold sameSource. cbn. rewrite !String.eqb_refl. reflexivity.
Qed.

(** The source is looked up and, if not found, inserted. *)
Lemma storeOrFind_Returned (source : SocialMediaSource) (existing : Response Id)
    (w w1 w2 : World) (sourceId : Id) :
  selectSourceId faults (src_platform source) (src_platform_id source) w
  = (Returned existing, w1) ->
  (match data existing with
   | Some id => ret id
   | None =>
       bind (insertSource faults (sourceRowOf source))
         (fun inserted =>
            match error inserted with
            | Some insertError => throw insertError
            | None => idOfData (data inserted)
            end)
   end) w1 = (Returned sourceId, w2) ->
  exists r,
    In r (social_media_sources w2)
    /\ sr_id r = sourceId
    /\ sameSource (src_platform source) (src_platform_id source) r = true.
Proof.
  intros Hs H. apply selectSourceId_run in Hs. destruct Hs as [Es Hd].
  destruct (data existing) as [id|].
  - inversion H. subst. destruct (Hd sourceId eq_refl) as [r [Ef Ei]].
    exists r. rewrite Es.
    assert (Hin : In r (filter (sameSource (src_platform source) (src_platform_id source))
                          (social_media_sources w))) by (rewrite Ef; left; reflexivity).
    apply filter_In in Hin. destruct Hin. auto.
  - unfold bind, insertSource, recordCall in H. cbn [fst snd] in H.
    destruct (faults (List.length (trace w1))); cbn in H; [discriminate|].
    inversion H. subst. cbn.
    exists (sourceRowOf source (next_id w1)). split; [|split].
    + apply in_or_app. right. left. reflexivity.
    + reflexivity.
    + apply sameSource_row.
Qed.

Lemma linkSourceToCase_Returned (source : SocialMediaSource) (c sourceId : Id)
    (w w' : World) :
  linkSourceToCase faults source c w = (Returned sourceId, w') ->
  In (linkingUpdate source c sourceId) (case_updates w')
  /\ exists r,
       In r (social_media_sources w')
       /\ sr_id r = sourceId
       /\ sameSource (src_platform source) (src_platform_id source) r = true.
Proof.
  intro H. apply rethrow_inv_Returned in H.
  apply bind_inv_Returned in H. destruct H as [existing [w1 [Hs H]]].
  apply bind_inv_Returned in H. destruct H as [sid [w2 [Hf H]]].
  apply bind_inv_Returned in H. destruct H as [x [w3 [Hu H]]].
  inversion H. subst.
  pose proof Hf as Hr. eapply storeOrFind_Returned in Hr; [|exact Hs].
  destruct Hr as [r [Hin [Hid Hsame]]].
  pose proof Hu as Eu. apply createCaseUpdate_Returned in Eu.
  carry Hu (createCaseUpdate_sameSources faults) Esrc.
  unfold unchanged in Esrc.
  split.
  - unfold linkingUpdate. rewrite Eu. apply in_or_app. right. left. reflexivity.
  - exists r. rewrite Esrc. auto.
Qed.

(** *** The sources *)

Lemma linkSourceToCase_atMostOneSource (source : SocialMediaSource) (c : Id) :
  stable (atMostOneSource source) (linkSourceToCase faults source c).
Proof.
  unfold linkSourceToCase.
  apply stable_rethrow2; [intros w w' H; exact H|].
  apply stable_bind2 with (R1 := unchanged social_media_sources)
                          (R2 := atMostOneSource source).
  - intros w1 w2 w3 E [H|[id H]]; unfold unchanged in E; [left|right; exists id];
      congruence.
  - intros w1 w2 E. left. exact E.
  - footprint.
  - intro existing.
    apply stable_bind2 with (R1 := atMostOneSource source)
                            (R2 := unchanged social_media_sources).
    + intros w1 w2 w3 [H|[id H]] E; unfold unchanged in E; [left|right; exists id];
        congruence.
    + auto.
    + destruct (data existing).
      * intro w. left. reflexivity.
      * intro w. unfold bind, insertSource, recordCall. cbn [fst snd].
        destruct (faults (List.length (trace w))); cbn.
        -- left. reflexivity.
        -- right. exists (next_id w). reflexivity.
    + intro sid. apply stable_bind; [frame| |intro; apply stable_ret; frame].
      apply createCaseUpdate_sameSources.
Qed.

End BranchFacts.

Section DuplicateBranch.

Variable faults : nat -> bool.
Variable source : SocialMediaSource.
Variable analysis : Analysis.
Variable top : Scored.

Lemma attachDuplicate_attachedTo :
  stable (attachedTo (case_id (sc_case top)))
         (attachDuplicate faults source analysis top).
Proof.
  unfold attachDuplicate.
  assert (F : Frame (attachedTo (case_id (sc_case top)))) by (unfold attachedTo; frame).
  apply stable_bind; [exact F|apply linkSourceToCase_attachedTo|intro].
  apply stable_bind; [exact F|apply addMediaIfAny_attachedTo|intro].
  apply stable_bind; [exact F| |intro; apply stable_ret; exact F].
  apply (createCaseUpdate_attachedTo faults (additionalReport source (case_id (sc_case top)))).
Qed.

Lemma attachDuplicate_atMostOneSource :
  stable (atMostOneSource source) (attachDuplicate faults source analysis top).
Proof.
  unfold attachDuplicate.
  apply stable_bind2 with (R1 := atMostOneSource source)
                          (R2 := unchanged social_media_sources).
  - intros w1 w2 w3 [H|[id H]] E; unfold unchanged in E; [left|right; exists id];
      congruence.
  - auto.
  - apply linkSourceToCase_atMostOneSource.
  - intro. apply stable_bind; [frame|apply addMediaIfAny_sameSources|intro].
    apply stable_bind; [frame|apply createCaseUpdate_sameSources|intro].
    apply stable_ret; frame.
Qed.

Lemma attachDuplicate_Returned (w w' : World) (r : CaseResult) :
  attachDuplicate faults source analysis top w = (Returned r, w') ->
  r = {| caseId := case_id (sc_case top); isNewCase := false; isDuplicate := true |}
  /\ In (additionalReport source (case_id (sc_case top))) (case_updates w')
  /\ exists row,
       In (linkingUpdate source (case_id (sc_case top)) (sr_id row)) (case_updates w')
       /\ In row (social_media_sources w')
       /\ sameSource (src_platform source) (src_platform_id source) row = true.
Proof.
  intro H. unfold attachDuplicate in H.
  apply bind_inv_Returned in H. destruct H as [sid [w1 [Hl H]]].
  apply bind_inv_Returned in H. destruct H as [x [w2 [Hm H]]].
  apply bind_inv_Returned in H. destruct H as [y [w3 [Hu H]]].
  inversion H. subst. clear H.
  apply linkSourceToCase_Returned in Hl. destruct Hl as [Hin [row [Hrow [Hid Hsame]]]].
  carry Hm (addMediaIfAny_attachedTo faults) Em.
  carry Hm (addMediaIfAny_sameSources faults) Sm.
  carry Hu (createCaseUpdate_sameSources faults) Su.
  pose proof Hu as Eu. apply createCaseUpdate_Returned in Eu.
  destruct Em as [_ [_ [Um _]]]. unfold unchanged in Sm, Su.
  split; [reflexivity|]. split.
  - rewrite Eu. apply in_or_app. right. left. reflexivity.
  - exists row. subst sid. split; [|split].
    + rewrite Eu. apply in_or_app. left.
      eapply appended_In; [exact Um|exact Hin].
    + rewrite Su, Sm. exact Hrow.
    + exact Hsame.
Qed.

End DuplicateBranch.

Section NewCaseBranch.

Variable faults : nat -> bool.
Variable clock : nat -> Z.
Variable source : SocialMediaSource.
Variable analysis : Analysis.
Variable dups : list Scored.

Local Open Scope Q_scope.

Lemma insertCase_run (row : Id -> Z -> Case) (w w1 : World) (r : Response Case) :
  insertCase faults clock row w = (Returned r, w1) ->
  match error r with
  | Some _ => cases w1 = cases w
  | None =>
      exists id t, data r = Some (row id t) /\ cases w1 = cases w ++ [row id t]
  end.
Proof.
  unfold insertCase, recordCall, readClock. cbn [fst snd].
  destruct (faults (List.length (trace w))); cbn; intro H; inversion H; subst; cbn.
  - reflexivity.
  - eexists _, _. split; reflexivity.
Qed.

Lemma insertCase_sameRelated (row : Id -> Z -> Case) :
  stable (unchanged related_cases) (insertCase faults clock row).
Proof. footprint. Qed.

Lemma insertCase_sameSources (row : Id -> Z -> Case) :
  stable (unchanged social_media_sources) (insertCase faults clock row).
Proof. footprint. Qed.

Lemma linkPossibleDuplicates_linking (newId : Id) (l : list Scored) :
  incl l dups ->
  stable (linking (borderline dups) newId) (linkPossibleDuplicates faults newId l).
Proof.
  intro Hl. apply linkPossibleDuplicates_stable; [apply Frame_linking|].
  intros d Hd Hs w.
  unfold insertRelatedCases, recordCall. cbn [fst snd].
  destruct (faults (List.length (trace w))); cbn; unfold linking; cbn.
  - exists []. split; [symmetry; apply app_nil_r|constructor].
  - exists [d]. split.
    + cbn. reflexivity.
    + constructor; [|constructor]. split; [apply Hl, Hd|].
      apply Qgtb_true. exact Hs.
Qed.

Lemma openNewCase_unfold (w : World) :
  openNewCase faults clock source analysis dups w
  = bind (insertCase faults clock (caseRowFor source analysis))
      (fun r =>
         match error r with
         | Some e => throw e
         | None => bind (caseOfData (data r)) (afterInsert faults source analysis dups)
         end) w.
Proof. reflexivity. Qed.

Lemma afterInsert_linking (newCase : Case) :
  stable (linking (borderline dups) (case_id newCase)) (afterInsert faults source analysis dups newCase).
Proof.
  unfold afterInsert.
  assert (F : Frame (linking (borderline dups) (case_id newCase))) by apply Frame_linking.
  assert (U : forall w w', unchanged related_cases w w' ->
                           linking (borderline dups) (case_id newCase) w w').
  { intros w w' E. exists []. split; [rewrite E; symmetry; apply app_nil_r|constructor]. }
  apply stable_bind; [exact F| |intro].
  { intro w. apply U. apply linkSourceToCase_sameRelated. }
  apply stable_bind; [exact F| |intro].
  { intro w. apply U. apply addMediaIfAny_sameRelated. }
  apply stable_bind; [exact F| |intro; apply stable_ret; exact F].
  apply linkPossibleDuplicates_linking. apply incl_refl.
Qed.

Lemma afterInsert_sameCases (newCase : Case) :
  stable (unchanged cases) (afterInsert faults source analysis dups newCase).
Proof.
  unfold afterInsert.
  apply stable_bind; [frame|apply linkSourceToCase_sameCases|intro].
  apply stable_bind; [frame|apply addMediaIfAny_sameCases|intro].
  apply stable_bind; [frame|apply linkPossibleDuplicates_sameCases|intro].
  apply stable_ret; frame.
Qed.

Lemma afterInsert_atMostOneSource (newCase : Case) :
  stable (atMostOneSource source) (afterInsert faults source analysis dups newCase).
Proof.
  unfold afterInsert.
  apply stable_bind2 with (R1 := atMostOneSource source)
                          (R2 := unchanged social_media_sources).
  - intros w1 w2 w3 [H|[id H]] E; unfold unchanged in E; [left|right; exists id];
      congruence.
  - auto.
  - apply linkSourceToCase_atMostOneSource.
  - intro. apply stable_bind; [frame|apply addMediaIfAny_sameSources|intro].
    apply stable_bind; [frame|apply linkPossibleDuplicates_sameSources|intro].
    apply stable_ret; frame.
Qed.

Lemma openNewCase_linkingSome :
  stable (linkingSome dups) (openNewCase faults clock source analysis dups).
Proof.
  assert (U : forall w w', unchanged related_cases w w' -> linkingSome dups w w').
  { intros w w' E. exists 0%nat, []. split; [rewrite E; symmetry; apply app_nil_r|constructor]. }
  intro w. rewrite openNewCase_unfold. revert w.
  apply stable_bind2 with (R1 := unchanged related_cases) (R2 := linkingSome dups).
  - intros w1 w2 w3 E [newId [ds [E2 F2]]]. exists newId, ds.
    unfold unchanged in E. split; [congruence|exact F2].
  - exact U.
  - apply insertCase_sameRelated.
  - intro r. destruct (error r).
    + intro w. apply U. reflexivity.
    + destruct (data r) as [c|]; cbn [caseOfData].
      * intro w. exists (case_id c). unfold bind at 1, ret.
        apply afterInsert_linking.
      * intro w. apply U. reflexivity.
Qed.

(** A returned result is a new case, and exactly one row was inserted. *)
Lemma openNewCase_Returned (w w' : World) (r : CaseResult) :
  openNewCase faults clock source analysis dups w = (Returned r, w') ->
  isNewCase r = true /\ isDuplicate r = false
  /\ exists c, cases w' = cases w ++ [c] /\ case_id c = caseId r
               /\ exists t, c = caseRowFor source analysis (case_id c) t.
Proof.
  rewrite openNewCase_unfold. intro H.
  apply bind_inv_Returned in H. destruct H as [resp [w1 [Hi H]]].
  apply insertCase_run in Hi.
  destruct (error resp); [discriminate|].
  destruct Hi as [id [t [Ed Ec]]]. rewrite Ed in H. cbn [caseOfData] in H.
  unfold bind at 1, ret in H.
  carry H afterInsert_sameCases Sc. unfold unchanged in Sc.
  unfold afterInsert in H.
  apply bind_inv_Returned in H. destruct H as [sid [w2 [_ H]]].
  apply bind_inv_Returned in H. destruct H as [x [w3 [_ H]]].
  apply bind_inv_Returned in H. destruct H as [y [w4 [_ H]]].
  inversion H. subst. cbn.
  split; [reflexivity|]. split; [reflexivity|].
  exists (caseRowFor source analysis id t).
  split; [congruence|]. split; [reflexivity|].
  exists t. reflexivity.
Qed.

End NewCaseBranch.

(* ===================================================================== *)
(** ** Runs in which the repository accepts every call *)
(* ===================================================================== *)

Lemma insertIfAbsent_after (source : SocialMediaSource) (w1 w2 w3 : World) :
  insertIfAbsent source w1 w2 -> unchanged social_media_sources w2 w3 ->
  insertIfAbsent source w1 w3.
Proof.
  unfold insertIfAbsent, unchanged. intros [H1 H2] E. split.
  - intros r Hr. rewrite E. eauto.
  - intro Hr. destruct (H2 Hr) as [id Hid]. exists id. congruence.
Qed.

Lemma insertIfAbsent_before (source : SocialMediaSource) (w1 w2 w3 : World) :
  unchanged social_media_sources w1 w2 -> insertIfAbsent source w2 w3 ->
  insertIfAbsent source w1 w3.
Proof.
  unfold insertIfAbsent, unchanged. intros E [H1 H2]. split.
  - intros r Hr. rewrite <- E in Hr. rewrite (H1 r Hr). exact E.
  - intro Hr. rewrite <- E in Hr. destruct (H2 Hr) as [id Hid]. exists id. congruence.
Qed.

Lemma filter_key_app (source : SocialMediaSource) (l : list SourceRow) (id : Id) :
  filter (sameSource (src_platform source) (src_platform_id source))
    (l ++ [sourceRowOf source id])
  = filter (sameSource (src_platform source) (src_platform_id source)) l
    ++ [sourceRowOf source id].
Proof.
  rewrite filter_app. cbn [filter]. rewrite sameSource_row. reflexivity.
Qed.

(** After an insert-if-absent on at most one stored row, exactly one row
    has the key. *)
Lemma insertIfAbsent_once (source : SocialMediaSource) (w w1 : World) :
  insertIfAbsent source w w1 ->
  (filter (sameSource (src_platform source) (src_platform_id source))
     (social_media_sources w) = []
   \/ exists r,
        filter (sameSource (src_platform source) (src_platform_id source))
          (social_media_sources w) = [r]) ->
  exists r,
    filter (sameSource (src_platform source) (src_platform_id source))
      (social_media_sources w1) = [r].
Proof.
  intros [I1 I2] [Hnil|[r Hr]].
  - destruct (I2 Hnil) as [id Hid]. exists (sourceRowOf source id).
    rewrite Hid, filter_key_app, Hnil. reflexivity.
  - exists r. rewrite (I1 r Hr). exact Hr.
Qed.

Lemma insertIfAbsent_length (source : SocialMediaSource) (w w1 : World) :
  insertIfAbsent source w w1 ->
  (filter (sameSource (src_platform source) (src_platform_id source))
     (social_media_sources w) = []
   \/ exists r,
        filter (sameSource (src_platform source) (src_platform_id source))
          (social_media_sources w) = [r]) ->
  (List.length (social_media_sources w1) <= S (List.length (social_media_sources w)))%nat.
Proof.
  intros [I1 I2] [Hnil|[r Hr]].
  - destruct (I2 Hnil) as [id Hid]. rewrite Hid, length_app. cbn. lia.
  - rewrite (I1 r Hr). lia.
Qed.

Section NoFaults.

Variable faults : nat -> bool.
Variable clock : nat -> Z.
Hypothesis NF : forall n, faults n = false.

Lemma createCaseUpdate_accepted (u : CaseUpdate) (w : World) :
  exists w', createCaseUpdate faults u w = (Returned tt, w').
Proof.
  unfold createCaseUpdate, tryCatch, bind, insertCaseUpdate, recordCall.
  cbn [fst snd]. rewrite NF. cbn. eauto.
Qed.

Lemma linkSourceToCase_accepted (source : SocialMediaSource) (c : Id) (w : World) :
  exists sid w',
    linkSourceToCase faults source c w = (Returned sid, w')
    /\ insertIfAbsent source w w'.
Proof.
  unfold linkSourceToCase, tryCatch.
  unfold bind at 1. unfold selectSourceId, recordCall. cbn [fst snd].
  rewrite NF. cbn [social_media_sources].
  set (key := sameSource (src_platform source) (src_platform_id source)).
  destruct (filter key (social_media_sources w)) as [|r [|r' rs]] eqn:Ef;
    cbn [data error].
  - (* not stored yet *)
    unfold bind at 1. unfold bind at 1.
    unfold insertSource, recordCall. cbn [fst snd]. rewrite NF. cbn.
    unfold bind at 1.
    match goal with
    | |- context [createCaseUpdate faults ?u ?w0] =>
        let Hu := fresh in
        destruct (createCaseUpdate_accepted u w0) as [w' Hu];
        carry Hu (createCaseUpdate_sameSources faults) Es; rewrite Hu
    end.
    cbn. eexists _, w'. split; [reflexivity|].
    unfold insertIfAbsent. fold key. rewrite Ef. unfold unchanged in Es. cbn in Es.
    split; [discriminate|]. intros _. exists (next_id w). exact Es.
  - (* stored once *)
    unfold bind at 1. unfold bind at 1. unfold ret at 1.
    match goal with
    | |- context [createCaseUpdate faults ?u ?w0] =>
        let Hu := fresh in
        destruct (createCaseUpdate_accepted u w0) as [w' Hu];
        carry Hu (createCaseUpdate_sameSources faults) Es; rewrite Hu
    end.
    cbn. eexists _, w'. split; [reflexivity|].
    unfold insertIfAbsent. fold key. rewrite Ef. unfold unchanged in Es. cbn in Es.
    split; [intros; exact Es|discriminate].
  - (* more than one row: [single()] gives no data *)
    unfold bind at 1. unfold bind at 1.
    unfold insertSource, recordCall. cbn [fst snd]. rewrite NF. cbn.
    unfold bind at 1.
    match goal with
    | |- context [createCaseUpdate faults ?u ?w0] =>
        let Hu := fresh in
        destruct (createCaseUpdate_accepted u w0) as [w' Hu]; rewrite Hu
    end.
    cbn. eexists _, w'. split; [reflexivity|].
    unfold insertIfAbsent. fold key. rewrite Ef. split; discriminate.
Qed.

Lemma storeSocialMediaSource_accepted (source : SocialMediaSource) (w : World) :
  exists id w',
    storeSocialMediaSource faults source w = (Returned id, w')
    /\ insertIfAbsent source w w'.
Proof.
  unfold storeSocialMediaSource, tryCatch.
  unfold bind at 1. unfold selectSourceId, recordCall. cbn [fst snd].
  rewrite NF. cbn [social_media_sources].
  set (key := sameSource (src_platform source) (src_platform_id source)).
  destruct (filter key (social_media_sources w)) as [|r [|r' rs]] eqn:Ef;
    cbn [data error].
  - unfold bind at 1. unfold insertSource, recordCall. cbn [fst snd].
    rewrite NF. cbn. eexists _, _. split; [reflexivity|].
    unfold insertIfAbsent. fold key. rewrite Ef. cbn.
    split; [discriminate|]. intros _. exists (next_id w). reflexivity.
  - unfold ret at 1. eexists _, _. split; [reflexivity|].
    unfold insertIfAbsent. fold key. rewrite Ef. cbn.
    split; [reflexivity|discriminate].
  - unfold bind at 1. unfold insertSource, recordCall. cbn [fst snd].
    rewrite NF. cbn. eexists _, _. split; [reflexivity|].
    unfold insertIfAbsent. fold key. rewrite Ef. split; discriminate.
Qed.

Lemma forEachMedia_accepted (c : Id) (sid : option Id) (ms : list MediaItem) :
  forall (index : nat) (w : World),
  exists w',
    forEachFrom index ms
      (fun i media =>
         bind (insertCaseMedia faults (mediaRowOf c sid i media)) (fun _ => ret tt)) w
    = (Returned tt, w').
Proof.
  induction ms as [|m ms IH]; intros index w; simpl.
  - exists w. reflexivity.
  - unfold bind at 1. unfold bind at 1.
    unfold insertCaseMedia, recordCall. cbn [fst snd]. rewrite NF. cbn.
    apply IH.
Qed.

Lemma addMediaIfAny_accepted (c : Id) (source : SocialMediaSource)
    (analysis : Analysis) (w : World) :
  exists w', addMediaIfAny faults c source analysis w = (Returned tt, w').
Proof.
  unfold addMediaIfAny. destruct (hasMedia analysis) as [ms|].
  - unfold addMediaToCase, tryCatch.
    destruct (forEachMedia_accepted c (src_id source) ms 0 w) as [w' E].
    rewrite E. eauto.
  - exists w. reflexivity.
Qed.

Lemma linkPossibleDuplicates_accepted (newId : Id) (l : list Scored) :
  forall w,
  exists w',
    linkPossibleDuplicates faults newId l w = (Returned tt, w')
    /\ related_cases w'
       = related_cases w
         ++ flat_map (linkRows newId)
              (filter (fun d => Qgtb (similarityScore d) 0.6) l).
Proof.
  induction l as [|d ds IH]; intro w; simpl.
  - exists w. split; [reflexivity|symmetry; apply app_nil_r].
  - unfold bind at 1.
    destruct (Qgtb (similarityScore d) 0.6) eqn:E.
    + unfold linkRelatedCases, tryCatch, bind at 1.
      unfold insertRelatedCases, recordCall. cbn [fst snd]. rewrite NF. cbn.
      match goal with
      | |- context [linkPossibleDuplicates faults newId ds ?w0] =>
          destruct (IH w0) as [w' [Hr Hrel]]
      end.
      exists w'. split; [exact Hr|]. rewrite Hrel. cbn.
      rewrite <- app_assoc. reflexivity.
    + unfold ret at 1. apply IH.
Qed.

Lemma attachDuplicate_accepted (source : SocialMediaSource) (analysis : Analysis)
    (top : Scored) (w : World) :
  exists r w',
    attachDuplicate faults source analysis top w = (Returned r, w')
    /\ insertIfAbsent source w w'.
Proof.
  unfold attachDuplicate.
  destruct (linkSourceToCase_accepted source (case_id (sc_case top)) w)
    as [sid [w1 [E1 I1]]].
  erewrite bind_Returned by exact E1.
  destruct (addMediaIfAny_accepted (case_id (sc_case top)) source analysis w1)
    as [w2 E2].
  erewrite bind_Returned by exact E2.
  destruct (createCaseUpdate_accepted
              (additionalReport source (case_id (sc_case top))) w2) as [w3 E3].
  erewrite bind_Returned by exact E3.
  eexists _, w3. split; [reflexivity|].
  carry E2 (addMediaIfAny_sameSources faults) S2.
  carry E3 (createCaseUpdate_sameSources faults) S3.
  eapply insertIfAbsent_after; [|exact S3].
  eapply insertIfAbsent_after; [exact I1|exact S2].
Qed.

Lemma openNewCase_accepted (source : SocialMediaSource) (analysis : Analysis)
    (dups : list Scored) (w : World) :
  exists r w',
    openNewCase faults clock source analysis dups w = (Returned r, w')
    /\ insertIfAbsent source w w'
    /\ related_cases w'
       = related_cases w
         ++ flat_map (linkRows (caseId r))
              (filter (fun d => Qgtb (similarityScore d) 0.6) dups).
Proof.
  rewrite openNewCase_unfold.
  destruct (insertCase faults clock (caseRowFor source analysis) w)
    as [o w0] eqn:E0.
  pose proof E0 as E0'.
  unfold insertCase, recordCall, readClock in E0'. cbn [fst snd] in E0'.
  rewrite NF in E0'. cbn in E0'. inversion E0' as [[Ho Hw0]]. clear E0'.
  rewrite <- Ho in E0.
  erewrite bind_Returned by exact E0. cbn [error data caseOfData].
  unfold bind at 1, ret at 1.
  set (newCase := caseRowFor source analysis (next_id w) (clock (clock_reads w))).
  unfold afterInsert.
  destruct (linkSourceToCase_accepted source (case_id newCase) w0)
    as [sid [w1 [E1 I1]]].
  erewrite bind_Returned by exact E1.
  destruct (addMediaIfAny_accepted (case_id newCase) source analysis w1) as [w2 E2].
  erewrite bind_Returned by exact E2.
  destruct (linkPossibleDuplicates_accepted (case_id newCase) dups w2)
    as [w3 [E3 R3]].
  erewrite bind_Returned by exact E3.
  eexists _, w3. split; [reflexivity|].
  carry E0 (insertCase_sameSources faults clock) S0.
  carry E0 (insertCase_sameRelated faults clock) L0.
  carry E1 (linkSourceToCase_sameRelated faults) L1.
  carry E2 (addMediaIfAny_sameSources faults) S2.
  carry E2 (addMediaIfAny_sameRelated faults) L2.
  carry E3 (linkPossibleDuplicates_sameSources faults) S3.
  unfold unchanged in L0, L1, L2.
  split.
  - eapply insertIfAbsent_before; [exact S0|].
    eapply insertIfAbsent_after; [|exact S3].
    eapply insertIfAbsent_after; [exact I1|exact S2].
  - cbn [caseId]. rewrite R3, L2, L1, L0. reflexivity.
Qed.

End NoFaults.

(* ===================================================================== *)
(** ** Relations every repository call respects *)
(* ===================================================================== *)

Section RobustRelations.

Variable faults : nat -> bool.
Variable clock : nat -> Z.
Variable R : World -> World -> Prop.
Hypothesis RR : Robust faults clock R.

Lemma createCaseFromSocialMedia_stable (source : SocialMediaSource)
    (analysis : Analysis) :
  stable R (createCaseFromSocialMedia faults clock source analysis).
Proof.
  pose proof (robust_frame RR) as F.
  rewrite createCaseFromSocialMedia_unfold.
  apply stable_rethrow; [exact F|].
  apply stable_bind; [exact F| |].
  - apply findPotentialDuplicates_stable;
      [exact F|apply (robust_selectCases RR)|apply (robust_readClock RR)].
  - intro dups. unfold resolve.
    destruct (certainDuplicate dups) as [top|].
    + unfold attachDuplicate.
      apply stable_bind; [exact F| |intro].
      { apply linkSourceToCase_stable;
          [exact F|apply (robust_selectSource RR)|apply (robust_insertSource RR)|].
        intros. apply (robust_insertCaseUpdate RR). }
      apply stable_bind; [exact F| |intro].
      { apply addMediaIfAny_stable; [exact F|].
        intros. apply (robust_insertCaseMedia RR). }
      apply stable_bind; [exact F| |intro; apply stable_ret; exact F].
      apply createCaseUpdate_stable; [exact F|apply (robust_insertCaseUpdate RR)].
    + unfold openNewCase.
      apply stable_bind; [exact F|apply (robust_insertCase RR)|intro r].
      destruct (error r); [apply stable_throw; exact F|].
      apply stable_bind; [exact F|apply caseOfData_stable; exact F|intro newCase].
      apply stable_bind; [exact F| |intro].
      { apply linkSourceToCase_stable;
          [exact F|apply (robust_selectSource RR)|apply (robust_insertSource RR)|].
        intros. apply (robust_insertCaseUpdate RR). }
      apply stable_bind; [exact F| |intro].
      { apply addMediaIfAny_stable; [exact F|].
        intros. apply (robust_insertCaseMedia RR). }
      apply stable_bind; [exact F| |intro; apply stable_ret; exact F].
      apply linkPossibleDuplicates_stable; [exact F|].
      intros. apply (robust_insertRelatedCases RR).
Qed.

End RobustRelations.

Lemma extends_Robust (faults : nat -> bool) (clock : nat -> Z) :
  Robust faults clock extends.
Proof.
  constructor; [unfold extends; frame| | | | | | | |]; footprint.
Qed.

(* ===================================================================== *)
(** ** Which rejected calls a returning computation can have made *)
(* ===================================================================== *)

Section Guarded.

Lemma guarded_ret (A : Type) (a : A) : guarded (ret a).
Proof.
  intro w. exists []. split; [symmetry; apply app_nil_r|constructor].
Qed.

Lemma guarded_throw (A : Type) (e : Error) : guarded (@throw A e).
Proof.
  intro w. exists []. split; [symmetry; apply app_nil_r|constructor].
Qed.

Lemma guarded_lenient (A : Type) (m : M A) : stable lenient m -> guarded m.
Proof.
  intros H w. destruct (H w) as [t [E F]]. exists t. auto.
Qed.

Lemma guarded_bind (A B : Type) (m : M A) (k : A -> M B) :
  guarded m -> (forall a, guarded (k a)) -> guarded (bind m k).
Proof.
  intros Hm Hk w. unfold bind.
  destruct (Hm w) as [t1 [E1 F1]].
  destruct (m w) as [[a|e] w1]; cbn [fst snd] in *.
  - destruct (Hk a w1) as [t2 [E2 F2]].
    exists (t1 ++ t2). split.
    + rewrite E2, E1, app_assoc. reflexivity.
    + intros b Hb. apply Forall_app. split; [eapply F1; reflexivity|eapply F2; exact Hb].
  - exists t1. split; [exact E1|]. intros b Hb. discriminate.
Qed.

Lemma guarded_rethrow (A : Type) (m : M A) (msg : string) :
  guarded m ->
  guarded (tryCatch m (fun e => bind (console_error msg) (fun _ => throw e))).
Proof.
  intros Hm w. unfold tryCatch.
  destruct (Hm w) as [t [E F]].
  destruct (m w) as [[a|e] w1]; cbn [fst snd] in *.
  - exists t. split; [exact E|exact F].
  - exists t. split; [exact E|]. intros b Hb. discriminate.
Qed.

Variable faults : nat -> bool.
Variable clock : nat -> Z.

(** Decides a goal [stable lenient call] for a call that is not critical. *)
Ltac lenient_call :=
  intros;
  let w := fresh "w" in
  try intro w;
  unfold selectSourceId, insertCaseMedia, insertRelatedCases, selectCases,
    readClock, recordCall;
  cbn [fst snd];
  repeat match goal with
    | |- context [match filter ?f ?l with _ => _ end] =>
        destruct (filter f l) as [|? [|? ?]]
    | |- context [if ?b then _ else _] => destruct b
    end;
  unfold lenient, appended; cbn;
  first
    [ exists []; split; [symmetry; apply app_nil_r|constructor]
    | eexists; split;
      [reflexivity|constructor; [intro; discriminate|constructor]] ].

Lemma Frame_lenient : Frame lenient.
Proof. unfold lenient. frame. Qed.

Lemma createCaseUpdate_guarded (u : CaseUpdate) :
  guarded (createCaseUpdate faults u).
Proof.
  apply guarded_rethrow. intro w.
  unfold bind, insertCaseUpdate, recordCall. cbn [fst snd].
  destruct (faults (List.length (trace w))) eqn:E; cbn.
  - eexists. split; [reflexivity|]. intros a Ha. discriminate.
  - eexists. split; [reflexivity|]. intros a Ha.
    constructor; [intro; reflexivity|constructor].
Qed.

Lemma storeOrFind_guarded (source : SocialMediaSource) (existing : Response Id) :
  guarded
    (match data existing with
     | Some id => ret id
     | None =>
         bind (insertSource faults (sourceRowOf source))
           (fun inserted =>
              match error inserted with
              | Some insertError => throw insertError
              | None => idOfData (data inserted)
              end)
     end).
Proof.
  destruct (data existing); [apply guarded_ret|].
  intro w. unfold bind, insertSource, recordCall. cbn [fst snd].
  destruct (faults (List.length (trace w))) eqn:E; cbn.
  - eexists. split; [reflexivity|]. intros a Ha. discriminate.
  - eexists. split; [reflexivity|]. intros a Ha.
    constructor; [intro; reflexivity|constructor].
Qed.

Lemma linkSourceToCase_guarded (source : SocialMediaSource) (c : Id) :
  guarded (linkSourceToCase faults source c).
Proof.
  unfold linkSourceToCase. apply guarded_rethrow.
  apply guarded_bind; [apply guarded_lenient; lenient_call|intro existing].
  apply guarded_bind; [apply storeOrFind_guarded|intro sid].
  apply guarded_bind; [apply createCaseUpdate_guarded|intro; apply guarded_ret].
Qed.

Lemma addMediaIfAny_guarded (c : Id) (source : SocialMediaSource)
    (analysis : Analysis) :
  guarded (addMediaIfAny faults c source analysis).
Proof.
  apply guarded_lenient.
  apply addMediaIfAny_stable; [apply Frame_lenient|]. lenient_call.
Qed.

Lemma linkPossibleDuplicates_guarded (c : Id) (l : list Scored) :
  guarded (linkPossibleDuplicates faults c l).
Proof.
  apply guarded_lenient.
  apply linkPossibleDuplicates_stable; [apply Frame_lenient|]. lenient_call.
Qed.

Lemma duplicateSearch_guarded (source : SocialMediaSource) (analysis : Analysis) :
  guarded (duplicateSearch faults clock source analysis).
Proof.
  apply guarded_lenient.
  apply findPotentialDuplicates_stable; [apply Frame_lenient| |]; lenient_call.
Qed.

(** A call whose response is inspected: a rejection is thrown. *)
Lemma guarded_check (A B : Type) (call : M (Response A)) (k : Response A -> M B) :
  (forall w, exists t,
     trace (snd (call w)) = trace w ++ t
     /\ forall r, fst (call w) = Returned r -> error r = None -> Forall passes t) ->
  (forall r, guarded (k r)) ->
  guarded (bind call
             (fun r => match error r with Some e => throw e | None => k r end)).
Proof.
  intros Hc Hk w. unfold bind.
  destruct (Hc w) as [t1 [E1 F1]].
  destruct (call w) as [[r|e] w1]; cbn [fst snd] in *.
  - destruct (error r) as [e|] eqn:Er.
    + exists t1. split; [exact E1|]. intros b Hb. discriminate.
    + destruct (Hk r w1) as [t2 [E2 F2]].
      exists (t1 ++ t2). split.
      * rewrite E2, E1, app_assoc. reflexivity.
      * intros b Hb. apply Forall_app.
        split; [exact (F1 r eq_refl Er)|eapply F2; exact Hb].
  - exists t1. split; [exact E1|]. intros b Hb. discriminate.
Qed.

Lemma openNewCase_guarded (source : SocialMediaSource) (analysis : Analysis)
    (dups : list Scored) :
  guarded (openNewCase faults clock source analysis dups).
Proof.
  unfold openNewCase. apply guarded_check.
  - intro w. unfold insertCase, recordCall, readClock. cbn [fst snd].
    destruct (faults (List.length (trace w))) eqn:E; cbn.
    + eexists. split; [reflexivity|]. intros r Hr He.
      inversion Hr. subst. discriminate.
    + eexists. split; [reflexivity|]. intros r Hr He.
      constructor; [intro; reflexivity|constructor].
  - intro r.
    apply guarded_bind; [destruct (data r); [apply guarded_ret|apply guarded_throw]|].
    intro newCase.
    apply guarded_bind; [apply linkSourceToCase_guarded|intro].
    apply guarded_bind; [apply addMediaIfAny_guarded|intro].
    apply guarded_bind; [apply linkPossibleDuplicates_guarded|intro].
    apply guarded_ret.
Qed.

Lemma createCaseFromSocialMedia_guarded (source : SocialMediaSource)
    (analysis : Analysis) :
  guarded (createCaseFromSocialMedia faults clock source analysis).
Proof.
  rewrite createCaseFromSocialMedia_unfold.
  apply guarded_rethrow.
  apply guarded_bind; [apply duplicateSearch_guarded|intro dups].
  unfold resolve. destruct (certainDuplicate dups) as [top|].
  - unfold attachDuplicate.
    apply guarded_bind; [apply linkSourceToCase_guarded|intro].
    apply guarded_bind; [apply addMediaIfAny_guarded|intro].
    apply guarded_bind; [apply createCaseUpdate_guarded|intro].
    apply guarded_ret.
  - apply openNewCase_guarded.
Qed.

End Guarded.

(* ===================================================================== *)
(** ** The whole function *)
(* ===================================================================== *)

Section WholeFunction.

Variable faults : nat -> bool.
Variable clock : nat -> Z.
Variable source : SocialMediaSource.
Variable analysis : Analysis.

Local Open Scope Q_scope.

Lemma certainDuplicate_Some (top : Scored) (rest : list Scored) :
  0.85 < similarityScore top -> certainDuplicate (top :: rest) = Some top.
Proof.
  intro H. unfold certainDuplicate.
  apply Qgtb_true in H. rewrite H. reflexivity.
Qed.

Lemma certainDuplicate_None (dups : list Scored) :
  dups = [] \/ (exists top rest, dups = top :: rest /\ similarityScore top <= 0.85) ->
  certainDuplicate dups = None.
Proof.
  intros [->|[top [rest [-> H]]]]; [reflexivity|].
  unfold certainDuplicate. apply Qgtb_false in H. rewrite H. reflexivity.
Qed.

(** Without a certain duplicate no candidate of a sorted result is above
    0.85. *)
Lemma certainDuplicate_None_bound (dups : list Scored) (d : Scored) :
  descending dups -> certainDuplicate dups = None -> In d dups ->
  similarityScore d <= 0.85.
Proof.
  intros D H Hd. destruct dups as [|top rest]; [contradiction|].
  unfold certainDuplicate in H.
  destruct (Qgtb (similarityScore top) 0.85) eqn:E; [discriminate|].
  apply Qgtb_false in E.
  pose proof (descending_head D Hd) as Hle. lra.
Qed.

(** The run of the whole function: the search, then one of the two
    branches, and the log entry of a rethrown error. *)
Lemma createCaseFromSocialMedia_run (w : World) :
  exists dups w1,
    duplicateSearch faults clock source analysis w = (Returned dups, w1)
    /\ descending dups
    /\ sameTables w w1
    /\ createCaseFromSocialMedia faults clock source analysis w
       = tryCatch (resolve faults clock source analysis dups)
           (fun e => bind (console_error "Error creating case from social media:")
                   (fun _ => throw e)) w1.
Proof.
  destruct (duplicateSearch_returns faults clock source analysis w)
    as [dups [w1 [E [D _]]]].
  exists dups, w1. split; [exact E|]. split; [exact D|]. split.
  - carry E (duplicateSearch_sameTables faults clock) T. exact T.
  - apply createCaseFromSocialMedia_after_search. exact E.
Qed.

(** On the duplicate path the post is attached to the candidate. *)
Lemma duplicate_path (w w1 : World) (dups : list Scored) (top : Scored) :
  duplicateSearch faults clock source analysis w = (Returned dups, w1) ->
  certainDuplicate dups = Some top ->
  attachedTo (case_id (sc_case top)) w
    (snd (createCaseFromSocialMedia faults clock source analysis w))
  /\ atMostOneSource source w
       (snd (createCaseFromSocialMedia faults clock source analysis w)).
Proof.
  intros E C.
  erewrite createCaseFromSocialMedia_after_search by exact E.
  unfold resolve. rewrite C.
  carry E (duplicateSearch_sameTables faults clock) T.
  destruct T as [Tc [Ts [Tu [Tm Tr]]]]. unfold unchanged in *.
  split.
  - assert (St : stable (attachedTo (case_id (sc_case top)))
                   (tryCatch (attachDuplicate faults source analysis top)
                      (fun e => bind (console_error "Error creating case from social media:")
                                  (fun _ => throw e)))).
    { apply stable_rethrow; [unfold attachedTo; frame|].
      apply attachDuplicate_attachedTo. }
    destruct (St w1) as [Ac [Ar [[us [Eu Fu]] [ms [Em Fm]]]]].
    unfold unchanged in *.
    split; [congruence|]. split; [congruence|]. split.
    + exists us. split; [congruence|exact Fu].
    + exists ms. split; [congruence|exact Fm].
  - assert (St : stable (atMostOneSource source)
                   (tryCatch (attachDuplicate faults source analysis top)
                      (fun e => bind (console_error "Error creating case from social media:")
                                  (fun _ => throw e)))).
    { apply stable_rethrow2; [intros ? ? H; exact H|].
      apply attachDuplicate_atMostOneSource. }
    destruct (St w1) as [H|[id H]]; [left|right; exists id]; congruence.
Qed.

Lemma duplicate_path_Returned (w w1 : World) (dups : list Scored) (top : Scored)
    (r : CaseResult) :
  duplicateSearch faults clock source analysis w = (Returned dups, w1) ->
  certainDuplicate dups = Some top ->
  fst (createCaseFromSocialMedia faults clock source analysis w) = Returned r ->
  r = {| caseId := case_id (sc_case top); isNewCase := false; isDuplicate := true |}
  /\ In (additionalReport source (case_id (sc_case top)))
        (case_updates (snd (createCaseFromSocialMedia faults clock source analysis w)))
  /\ exists row,
       In (linkingUpdate source (case_id (sc_case top)) (sr_id row))
          (case_updates (snd (createCaseFromSocialMedia faults clock source analysis w)))
       /\ In row (social_media_sources
                    (snd (createCaseFromSocialMedia faults clock source analysis w)))
       /\ sameSource (src_platform source) (src_platform_id source) row = true.
Proof.
  intros E C.
  erewrite createCaseFromSocialMedia_after_search by exact E.
  unfold resolve. rewrite C. intro H.
  destruct (tryCatch (attachDuplicate faults source analysis top)
              (fun e => bind (console_error "Error creating case from social media:")
                   (fun _ => throw e)) w1)
    as [o w'] eqn:Er.
  cbn [fst snd] in *. subst o.
  apply rethrow_inv_Returned in Er.
  apply attachDuplicate_Returned in Er. exact Er.
Qed.

(** Otherwise a case is created; a returned result is a new case. *)
Lemma new_case_path_Returned (w w1 : World) (dups : list Scored) (r : CaseResult) :
  duplicateSearch faults clock source analysis w = (Returned dups, w1) ->
  certainDuplicate dups = None ->
  fst (createCaseFromSocialMedia faults clock source analysis w) = Returned r ->
  isNewCase r = true /\ isDuplicate r = false
  /\ exists c,
       cases (snd (createCaseFromSocialMedia faults clock source analysis w))
       = cases w ++ [c]
       /\ case_id c = caseId r
       /\ exists t, c = caseRowFor source analysis (case_id c) t.
Proof.
  intros E C.
  erewrite createCaseFromSocialMedia_after_search by exact E.
  unfold resolve. rewrite C. intro H.
  destruct (tryCatch (openNewCase faults clock source analysis dups)
              (fun e => bind (console_error "Error creating case from social media:")
                   (fun _ => throw e)) w1)
    as [o w'] eqn:Er.
  cbn [fst snd] in *. subst o.
  apply rethrow_inv_Returned in Er.
  apply openNewCase_Returned in Er.
  carry E (duplicateSearch_sameTables faults clock) T.
  destruct T as [Tc _]. unfold unchanged in Tc. rewrite Tc in Er. exact Er.
Qed.

(** The links the function writes: for one new case, the two rows of some
    candidates that score above 0.6 and at most 0.85. *)
Lemma createCaseFromSocialMedia_links (w : World) :
  exists newId ds,
    related_cases (snd (createCaseFromSocialMedia faults clock source analysis w))
    = related_cases w ++ flat_map (linkRows newId) ds
    /\ Forall (fun d => 0.6 < similarityScore d /\ similarityScore d <= 0.85) ds.
Proof.
  destruct (createCaseFromSocialMedia_run w) as [dups [w1 [E [D [T Run]]]]].
  destruct T as [_ [_ [_ [_ Tr]]]]. unfold unchanged in Tr.
  destruct (certainDuplicate dups) as [top|] eqn:C.
  - pose proof E as DP. eapply duplicate_path in DP; [|exact C].
    destruct DP as [[_ [Ar _]] _]. unfold unchanged in Ar.
    exists 0%nat, []. split; [rewrite Ar; symmetry; apply app_nil_r|constructor].
  - rewrite Run. unfold resolve. rewrite C.
    assert (St : stable (linkingSome dups)
                   (tryCatch (openNewCase faults clock source analysis dups)
                      (fun e => bind (console_error "Error creating case from social media:")
                                  (fun _ => throw e)))).
    { apply stable_rethrow2; [intros ? ? H; exact H|].
      apply openNewCase_linkingSome. }
    destruct (St w1) as [newId [ds [Er Fr]]].
    exists newId, ds. split; [congruence|].
    eapply Forall_impl; [|exact Fr].
    intros d [Hin Hlo]. split; [exact Hlo|].
    eapply certainDuplicate_None_bound; eauto.
Qed.

(** When every call is accepted the function returns, the source is
    inserted only if absent, and on the new-case path every candidate above
    0.6 is linked. *)
Lemma createCaseFromSocialMedia_accepted (w w1 : World) (dups : list Scored) :
  (forall n, faults n = false) ->
  duplicateSearch faults clock source analysis w = (Returned dups, w1) ->
  exists r,
    fst (createCaseFromSocialMedia faults clock source analysis w) = Returned r
    /\ insertIfAbsent source w
         (snd (createCaseFromSocialMedia faults clock source analysis w))
    /\ (certainDuplicate dups = None ->
        related_cases (snd (createCaseFromSocialMedia faults clock source analysis w))
        = related_cases w
          ++ flat_map (linkRows (caseId r))
               (filter (fun d => Qgtb (similarityScore d) 0.6) dups)).
Proof.
  intros NF E.
  erewrite createCaseFromSocialMedia_after_search by exact E.
  carry E (duplicateSearch_sameTables faults clock) T.
  destruct T as [_ [Ts [_ [_ Tr]]]]. unfold unchanged in Tr.
  unfold resolve. destruct (certainDuplicate dups) as [top|].
  - destruct (attachDuplicate_accepted faults NF source analysis top w1)
      as [r [w' [Er Ir]]].
    erewrite rethrow_Returned by exact Er. cbn [fst snd].
    exists r. split; [reflexivity|]. split; [|discriminate].
    eapply insertIfAbsent_before; [exact Ts|exact Ir].
  - destruct (openNewCase_accepted faults clock NF source analysis dups w1)
      as [r [w' [Er [Ir Rr]]]].
    erewrite rethrow_Returned by exact Er. cbn [fst snd].
    exists r. split; [reflexivity|]. split.
    + eapply insertIfAbsent_before; [exact Ts|exact Ir].
    + intros _. rewrite Rr, Tr. reflexivity.
Qed.

End WholeFunction.

(* ===================================================================== *)
(** ** Properties of the pipeline *)
(* ===================================================================== *)

Section Claims.

Local Open Scope string_scope.

(** C5, as the code behaves.  For the post "Tesla Supercharger station spray
    painted" the target type is "building" and the damage types are
    ["graffiti"], but the building type stored in the target details is read
    from [analysis.text]: whenever the analysis carries no [text] (the
    analyzer never sets one) it is "other", not "supercharger", although
    [determineBuildingType] applied to the content, as [generateHeadline]
    does, gives "supercharger". *)
Theorem supercharger_post_building_type (analysis : Analysis) :
  text analysis = Undefined ->
  determineTargetType Scenario.superchargerText analysis = "building"
  /\ determineDamageType Scenario.superchargerText analysis = ["graffiti"]
  /\ td_building_type
       (createTargetDetails
          (determineTargetType Scenario.superchargerText analysis) analysis)
     = Str "other"
  /\ determineBuildingType Scenario.superchargerText = "supercharger".
Proof.
  intro H. split; [reflexivity|]. split; [reflexivity|]. split; [|reflexivity].
  change (determineTargetType Scenario.superchargerText analysis) with "building".
  unfold createTargetDetails. cbn [String.eqb Ascii.eqb Bool.eqb td_building_type].
  rewrite H. reflexivity.
Qed.

Lemma supercharger_post_building_type_witness :
  text Scenario.superchargerAnalysis = Undefined
  /\ td_building_type
       (createTargetDetails
          (determineTargetType Scenario.superchargerText Scenario.superchargerAnalysis)
          Scenario.superchargerAnalysis)
     = Str "other".
Proof.
  split; [reflexivity|].
  apply (supercharger_post_building_type Scenario.superchargerAnalysis).
  reflexivity.
Defined.



Local Open Scope Q_scope.
Local Open Scope list_scope.

(** Every score the search returns was computed by [scoreCase] at some
    reading of the clock. *)
Lemma mapM_scoreCandidate_scores (clock : nat -> Z) (l : LocationInfo)
    (t : TargetDetails) (dt : list string) (cs : list Case) :
  forall (w w1 : World) (ys : list Scored),
  mapM (scoreCandidate clock l t dt) cs w = (Returned ys, w1) ->
  Forall (fun d => exists n,
            similarityScore d = scoreCase l t dt (clock n) (sc_case d)) ys.
Proof.
  induction cs as [|c cs IH]; intros w w1 ys H; simpl in H.
  - inversion H. constructor.
  - apply bind_inv_Returned in H. destruct H as [y [w2 [Hy H]]].
    apply bind_inv_Returned in H. destruct H as [ys' [w3 [Hys H]]].
    inversion H. subst. constructor.
    + unfold scoreCandidate, bind, newDate, readClock, ret in Hy.
      inversion Hy. subst. cbn. eauto.
    + eapply IH. exact Hys.
Qed.

Lemma findPotentialDuplicates_scores (faults : nat -> bool) (clock : nat -> Z)
    (l : LocationInfo) (t : TargetDetails) (dt : list string)
    (w w1 : World) (dups : list Scored) :
  findPotentialDuplicates faults clock l t dt w = (Returned dups, w1) ->
  Forall (fun d => exists n,
            similarityScore d = scoreCase l t dt (clock n) (sc_case d)) dups.
Proof.
  unfold findPotentialDuplicates, tryCatch. intro H.
  destruct (bind (selectCases faults (city l) (td_type t)) _ w)
    as [[a|e] w2] eqn:E.
  - inversion H. subst. clear H.
    apply bind_inv_Returned in E. destruct E as [r [w3 [_ E]]].
    destruct (error r); [discriminate|].
    destruct (data r) as [[|c cs]|]; try (inversion E; constructor).
    apply bind_inv_Returned in E. destruct E as [ys [w4 [Hm E]]].
    inversion E. subst.
    apply mapM_scoreCandidate_scores in Hm.
    rewrite Forall_forall in Hm |- *. intros d Hd.
    apply Hm. apply sortByScore_In. exact Hd.
  - unfold bind, console_error, ret in H. inversion H. constructor.
Qed.

(** C2.  The score [findPotentialDuplicates] computes for a candidate is the
    sum of the location term (0.3, plus 0.1 for an equal state), the target
    term (0.2, plus 0.2 for a vehicle with equal make and model), the damage
    term (0.2 times the overlapping fraction of the post's tags, when a tag
    overlaps) and the time term (0.2 * (1 - h/48) for an age of h < 48
    hours, else 0).  With two tags on the post of which one is on the
    candidate, the damage term is 0.2 * 0.5. *)
Theorem similarity_score_formula (faults : nat -> bool) (clock : nat -> Z)
    (locationInfo : LocationInfo) (targetDetails : TargetDetails)
    (damageType : list string) :
  (forall now case_,
     scoreCase locationInfo targetDetails damageType now case_
     == locationTerm locationInfo case_ + targetTerm targetDetails case_
        + damageTerm damageType case_
        + timeTerm (hoursDiff now (created_at case_)))
  /\ (forall w w1 dups,
        findPotentialDuplicates faults clock locationInfo targetDetails damageType w
        = (Returned dups, w1) ->
        forall d, In d dups ->
        exists n,
          similarityScore d
          == specScore locationInfo targetDetails damageType
               (hoursDiff (clock n) (created_at (sc_case d))) (sc_case d))
  /\ (forall now case_ tag1 tag2,
        overlap [tag1; tag2] (tagsOf case_) = 1%nat ->
        damageTerm [tag1; tag2] case_ == 0.2 * 0.5
        /\ scoreCase locationInfo targetDetails [tag1; tag2] now case_
           == locationTerm locationInfo case_ + targetTerm targetDetails case_
              + 0.2 * 0.5
              + timeTerm (hoursDiff now (created_at case_))).
Proof.
  split; [|split].
  - intros now case_. apply scoreCase_terms.
  - intros w w1 dups H d Hd.
    apply findPotentialDuplicates_scores in H.
    rewrite Forall_forall in H. destruct (H d Hd) as [n En].
    exists n. rewrite En. apply scoreCase_terms.
  - intros now case_ tag1 tag2 H.
    assert (D : damageTerm [tag1; tag2] case_ == 0.2 * 0.5).
    { unfold damageTerm. rewrite H. reflexivity. }
    split; [exact D|].
    rewrite scoreCase_terms. unfold specScore. rewrite D. reflexivity.
Qed.

Lemma similarity_score_formula_witness :
  overlap ["keying"; "arson"]%string (tagsOf twoTagCandidate) = 1%nat
  /\ damageTerm ["keying"; "arson"]%string twoTagCandidate == 0.2 * 0.5
  /\ exists n,
       Forall (fun d =>
                 similarityScore d
                 == specScore (locationOf Scenario.austinAnalysis)
                      (createTargetDetails "vehicle" Scenario.austinAnalysis)
                      ["keying"]%string
                      (hoursDiff (Scenario.frozen n) (created_at (sc_case d)))
                      (sc_case d))
         (match fst (findPotentialDuplicates Scenario.accepting Scenario.frozen
                       (locationOf Scenario.austinAnalysis)
                       (createTargetDetails "vehicle" Scenario.austinAnalysis)
                       ["keying"]%string Scenario.austinWorld) with
          | Returned dups => dups
          | Thrown _ => []
          end).
Proof.
  pose proof (similarity_score_formula Scenario.accepting Scenario.frozen
                (locationOf Scenario.austinAnalysis)
                (createTargetDetails "vehicle" Scenario.austinAnalysis)
                ["keying"]%string) as [_ [Hrun _]].
  pose proof (similarity_score_formula Scenario.accepting Scenario.frozen
                (locationOf Scenario.austinAnalysis)
                (createTargetDetails "vehicle" Scenario.austinAnalysis)
                ["keying"; "arson"]%string) as [_ [_ Htwo]].
  split; [reflexivity|].
  split; [exact (proj1 (Htwo 0%Z twoTagCandidate "keying"%string "arson"%string eq_refl))|].
  exists 0%nat.
  destruct (findPotentialDuplicates Scenario.accepting Scenario.frozen
              (locationOf Scenario.austinAnalysis)
              (createTargetDetails "vehicle" Scenario.austinAnalysis)
              ["keying"]%string Scenario.austinWorld) as [[dups|e] w1] eqn:E;
    [|constructor].
  cbn [fst]. apply Forall_forall. intros d Hd.
  destruct (Hrun _ _ _ E d Hd) as [n Hn]. exact Hn.
Defined.

(** C7.  With city, state, target type, target details and damage tags
    fixed, an older candidate never scores higher: the score does not
    increase with the age; from 48 hours on the time term is 0 and the score
    is the sum of the other three terms. *)
Theorem score_antitone_in_age (locationInfo : LocationInfo)
    (targetDetails : TargetDetails) (damageType : list string)
    (now1 now2 : Z) (case1 case2 : Case) :
  location_city case1 = location_city case2 ->
  location_state case1 = location_state case2 ->
  target_type case1 = target_type case2 ->
  target_details case1 = target_details case2 ->
  damage_type case1 = damage_type case2 ->
  ((now1 - created_at case1 <= now2 - created_at case2)%Z ->
   scoreCase locationInfo targetDetails damageType now2 case2
   <= scoreCase locationInfo targetDetails damageType now1 case1)
  /\ ((48 * 3600000 <= now2 - created_at case2)%Z ->
      timeTerm (hoursDiff now2 (created_at case2)) = 0
      /\ scoreCase locationInfo targetDetails damageType now2 case2
         == locationTerm locationInfo case2 + targetTerm targetDetails case2
            + damageTerm damageType case2).
Proof.
  intros Hc Hs Ht Hd Hg.
  assert (L : locationTerm locationInfo case1 = locationTerm locationInfo case2).
  { unfold locationTerm. rewrite Hc, Hs. reflexivity. }
  assert (T : targetTerm targetDetails case1 = targetTerm targetDetails case2).
  { unfold targetTerm. rewrite Ht, Hd. reflexivity. }
  assert (D : damageTerm damageType case1 = damageTerm damageType case2).
  { unfold damageTerm, tagsOf. rewrite Hg. reflexivity. }
  split.
  - intro Hage.
    rewrite !scoreCase_terms. unfold specScore. rewrite L, T, D.
    pose proof (timeTerm_antitone (hoursDiff_monotone _ _ _ _ Hage)) as Hm.
    lra.
  - intro Hold.
    assert (Z0 : timeTerm (hoursDiff now2 (created_at case2)) = 0).
    { apply timeTerm_zero. apply hoursDiff_48. lia. }
    split; [exact Z0|].
    rewrite scoreCase_terms. unfold specScore. rewrite Z0. ring.
Qed.

Lemma score_antitone_in_age_witness :
  scoreCase (locationOf Scenario.austinAnalysis)
    (createTargetDetails "vehicle" Scenario.austinAnalysis) ["keying"]%string
    (30 * 3600000)%Z twoTagCandidate
  <= scoreCase (locationOf Scenario.austinAnalysis)
       (createTargetDetails "vehicle" Scenario.austinAnalysis) ["keying"]%string
       (2 * 3600000)%Z twoTagCandidate
  /\ timeTerm (hoursDiff (50 * 3600000)%Z (created_at twoTagCandidate)) = 0.
Proof.
  split.
  - apply (score_antitone_in_age (locationOf Scenario.austinAnalysis)
             (createTargetDetails "vehicle" Scenario.austinAnalysis)
             ["keying"]%string (2 * 3600000)%Z (30 * 3600000)%Z
             twoTagCandidate twoTagCandidate);
      try reflexivity.
    vm_compute. discriminate.
  - apply (score_antitone_in_age (locationOf Scenario.austinAnalysis)
             (createTargetDetails "vehicle" Scenario.austinAnalysis)
             ["keying"]%string (50 * 3600000)%Z (50 * 3600000)%Z
             twoTagCandidate twoTagCandidate);
      try reflexivity.
    vm_compute. discriminate.
Defined.

(** The two branches, as the results and the table of cases show them. *)
Lemma decision_policy_core (faults : nat -> bool) (clock : nat -> Z)
    (source : SocialMediaSource) (analysis : Analysis)
    (w w1 : World) (dups : list Scored) :
  duplicateSearch faults clock source analysis w = (Returned dups, w1) ->
  (forall top rest,
     dups = top :: rest -> 0.85 < similarityScore top ->
     cases (snd (createCaseFromSocialMedia faults clock source analysis w)) = cases w
     /\ forall r,
          fst (createCaseFromSocialMedia faults clock source analysis w) = Returned r ->
          r = {| caseId := case_id (sc_case top);
                 isNewCase := false; isDuplicate := true |})
  /\ ((dups = []
       \/ exists top rest, dups = top :: rest /\ similarityScore top <= 0.85) ->
      forall r,
        fst (createCaseFromSocialMedia faults clock source analysis w) = Returned r ->
        isNewCase r = true /\ isDuplicate r = false
        /\ exists c,
             cases (snd (createCaseFromSocialMedia faults clock source analysis w))
             = cases w ++ [c]).
Proof.
  intro E. split.
  - intros top rest -> Htop.
    pose proof (certainDuplicate_Some top rest Htop) as C.
    split.
    + pose proof E as DP. eapply duplicate_path in DP; [|exact C].
      destruct DP as [[Ac _] _]. exact Ac.
    + intros r Hr.
      pose proof E as DR. eapply duplicate_path_Returned in DR; [|exact C|exact Hr].
      destruct DR as [Er _]. exact Er.
  - intros Hnone r Hr. apply certainDuplicate_None in Hnone.
    pose proof E as NR. eapply new_case_path_Returned in NR; [|exact Hnone|exact Hr].
    destruct NR as [Hn [Hd [c [Hc _]]]].
    split; [exact Hn|]. split; [exact Hd|]. exists c. exact Hc.
Qed.





Lemma linkRows_mirror (newId : Id) (ds : list Scored) (r : RelatedCase) :
  In r (flat_map (linkRows newId) ds) -> In (mirror r) (flat_map (linkRows newId) ds).
Proof.
  intro H. apply in_flat_map in H. destruct H as [d [Hd Hr]].
  apply in_flat_map. exists d. split; [exact Hd|].
  unfold linkRows, relatedRows in *. cbn in Hr |- *.
  destruct Hr as [<-|[<-|[]]]; cbn; auto.
Qed.

(** C8.  Links are written in both directions: [linkRelatedCases] stores
    either nothing or the row (A, B) followed by its mirror (B, A), and
    among the rows [createCaseFromSocialMedia] adds to the related cases
    every row has its mirror, which swaps the two cases and keeps the type
    and the strength. *)
Theorem links_are_bidirectional (faults : nat -> bool) (clock : nat -> Z) :
  (forall a b type strength w,
     let row := {| rc_case_id := a; rc_related_case_id := b;
                   rc_relationship_type := type;
                   rc_relationship_strength := strength;
                   rc_is_ai_generated := true |} in
     related_cases (snd (linkRelatedCases faults a b type strength w))
     = related_cases w
     \/ related_cases (snd (linkRelatedCases faults a b type strength w))
        = related_cases w ++ [row; mirror row])
  /\ (forall source analysis w,
        exists added,
          related_cases (snd (createCaseFromSocialMedia faults clock source analysis w))
          = related_cases w ++ added
          /\ forall r, In r added ->
               In (mirror r) added
               /\ rc_case_id (mirror r) = rc_related_case_id r
               /\ rc_related_case_id (mirror r) = rc_case_id r
               /\ rc_relationship_type (mirror r) = rc_relationship_type r
               /\ rc_relationship_strength (mirror r) = rc_relationship_strength r).
Proof.
  split.
  - intros a b type strength w row.
    unfold linkRelatedCases, tryCatch, bind, insertRelatedCases, recordCall.
    cbn [fst snd].
    destruct (faults (List.length (trace w))); cbn; [left|right]; reflexivity.
  - intros source analysis w.
    destruct (createCaseFromSocialMedia_links faults clock source analysis w)
      as [newId [ds [E _]]].
    exists (flat_map (linkRows newId) ds). split; [exact E|].
    intros r Hr. split; [apply linkRows_mirror; exact Hr|].
    repeat split; reflexivity.
Qed.

(** C4, against the claim.  A candidate that equals the post in city,
    state, vehicle make and model and damage tags and was created at the
    very moment of the search scores 1.2. *)
Lemma exact_duplicate_scores_above_one :
  match fst (findPotentialDuplicates Scenario.accepting Scenario.frozen
               (locationOf Scenario.austinAnalysis)
               (createTargetDetails "vehicle" Scenario.austinAnalysis)
               (determineDamageType Scenario.austinText Scenario.austinAnalysis)
               Scenario.austinWorld) with
  | Returned [d] => similarityScore d == 1.2 /\ ~ similarityScore d <= 1
  | _ => False
  end.
Proof.
  vm_compute. split; [reflexivity|]. intro H. apply H. reflexivity.
Qed.

(** C4, amended.  Every score is at least 0 and, for a candidate that is
    not younger than the reading of the clock, at most 1.2; every strength
    [createCaseFromSocialMedia] stores on a link is above 0.6 and at most
    0.85, hence within [0, 1]. *)
Theorem score_and_strength_bounds (faults : nat -> bool) (clock : nat -> Z) :
  (forall locationInfo targetDetails damageType now case_,
     0 <= scoreCase locationInfo targetDetails damageType now case_
     /\ ((created_at case_ <= now)%Z ->
         scoreCase locationInfo targetDetails damageType now case_ <= 1.2))
  /\ (forall source analysis w,
        exists added,
          related_cases (snd (createCaseFromSocialMedia faults clock source analysis w))
          = related_cases w ++ added
          /\ forall r, In r added ->
               0.6 < rc_relationship_strength r
               /\ rc_relationship_strength r <= 0.85
               /\ 0 <= rc_relationship_strength r <= 1).
Proof.
  split.
  - intros locationInfo targetDetails damageType now case_.
    pose proof (locationTerm_bounds locationInfo case_) as [L0 L1].
    pose proof (targetTerm_bounds targetDetails case_) as [T0 T1].
    pose proof (damageTerm_bounds damageType case_) as [D0 D1].
    pose proof (timeTerm_nonneg (hoursDiff now (created_at case_))) as H0.
    rewrite scoreCase_terms. unfold specScore. split; [lra|].
    intro Hage.
    pose proof (timeTerm_le (hoursDiff_nonneg Hage)) as H1. lra.
  - intros source analysis w.
    destruct (createCaseFromSocialMedia_links faults clock source analysis w)
      as [newId [ds [E F]]].
    exists (flat_map (linkRows newId) ds). split; [exact E|].
    intros r Hr. apply in_flat_map in Hr. destruct Hr as [d [Hd Hr]].
    rewrite Forall_forall in F. destruct (F d Hd) as [Hlo Hhi].
    unfold linkRows, relatedRows in Hr. cbn in Hr.
    destruct Hr as [<-|[<-|[]]]; cbn; repeat split; lra.
Qed.

Lemma score_and_strength_bounds_witness :
  scoreCase (locationOf Scenario.austinAnalysis)
    (createTargetDetails "vehicle" Scenario.austinAnalysis) ["keying"]%string
    (2 * 3600000)%Z twoTagCandidate <= 1.2.
Proof.
  apply (proj1 (score_and_strength_bounds Scenario.accepting Scenario.frozen)).
  vm_compute. discriminate.
Defined.

(** C6, against the claim.  With the Austin case stored, the same post is
    processed again and the repository rejects the candidate query: the
    failure does not reach the caller; the search counts as empty and a
    second case is created, where an accepted query leads to the duplicate
    path. *)
Lemma rejected_search_is_swallowed :
  In (mkCall SelectCases true) (trace (snd Scenario.austinRejectedSearch))
  /\ fst Scenario.austinRejectedSearch
     = Returned {| caseId := 2%nat; isNewCase := true; isDuplicate := false |}
  /\ List.length (cases (snd Scenario.austinRejectedSearch)) = 2%nat
  /\ fst Scenario.austinSecondPass
     = Returned {| caseId := 0%nat; isNewCase := false; isDuplicate := true |}.
Proof.
  vm_compute. repeat split; auto 10.
Qed.

(** C6, amended.  A rejected insert of a case, of a source or of a case
    update is thrown to the caller of [createCaseFromSocialMedia]; a
    rejected candidate query is caught inside the search, which then returns
    no candidate; and whatever the outcome, every table still holds the rows
    it held before: nothing written is rolled back. *)
Theorem failure_propagation (faults : nat -> bool) (clock : nat -> Z)
    (source : SocialMediaSource) (analysis : Analysis) (w : World) :
  (exists calls,
     trace (snd (createCaseFromSocialMedia faults clock source analysis w))
     = trace w ++ calls
     /\ forall c,
          In c calls ->
          call_kind c = InsertCase \/ call_kind c = InsertSource
          \/ call_kind c = InsertCaseUpdate ->
          call_failed c = true ->
          exists e,
            fst (createCaseFromSocialMedia faults clock source analysis w) = Thrown e)
  /\ (exists dups w1,
        duplicateSearch faults clock source analysis w = (Returned dups, w1)
        /\ (faults (List.length (trace w)) = true -> dups = []))
  /\ extends w (snd (createCaseFromSocialMedia faults clock source analysis w)).
Proof.
  split; [|split].
  - destruct (createCaseFromSocialMedia_guarded faults clock source analysis w)
      as [calls [E F]].
    exists calls. split; [exact E|].
    intros c Hc Hk Hf.
    destruct (fst (createCaseFromSocialMedia faults clock source analysis w))
      as [r|e] eqn:Er; [|eauto].
    specialize (F r eq_refl). rewrite Forall_forall in F.
    specialize (F c Hc). unfold passes in F.
    assert (K : critical (call_kind c) = true).
    { destruct Hk as [->|[->| ->]]; reflexivity. }
    rewrite (F K) in Hf. discriminate.
  - destruct (duplicateSearch_returns faults clock source analysis w)
      as [dups [w1 [E [_ H]]]].
    exists dups, w1. split; assumption.
  - apply createCaseFromSocialMedia_stable. apply extends_Robust.
Qed.

Lemma failure_propagation_witness :
  (exists e, fst Scenario.austinRejectedSource = Thrown e)
  /\ List.length (cases (snd Scenario.austinRejectedSource)) = 1%nat
  /\ social_media_sources (snd Scenario.austinRejectedSource) = [].
Proof.
  split; [|split; reflexivity].
  destruct (failure_propagation Scenario.rejectingFourth Scenario.frozen
              Scenario.austinPost Scenario.austinAnalysis Scenario.emptyWorld)
    as [[calls [E H]] _].
  apply (H (mkCall InsertSource true)).
  - cbn [trace Scenario.emptyWorld app] in E. rewrite <- E.
    vm_compute. auto 10.
  - right. left. reflexivity.
  - reflexivity.
Defined.


(** A relevant post in which the analyzer finds no city creates a new case
    on every pass, even in a row: its case is stored with a [null] city,
    which the candidate query for the city [''] never matches. *)
Example same_post_without_city :
  fst Scenario.noCityFirstPass
  = Returned {| caseId := 0%nat; isNewCase := true; isDuplicate := false |}
  /\ fst Scenario.noCitySecondPass
     = Returned {| caseId := 2%nat; isNewCase := true; isDuplicate := false |}
  /\ List.length (cases (snd Scenario.noCitySecondPass)) = 2%nat
  /\ List.length (social_media_sources (snd Scenario.noCitySecondPass)) = 1%nat.
Proof.
  vm_compute. repeat split.
Qed.



End Claims.

(* ===================================================================== *)
(** ** Further properties of the classification and of the score *)
(* ===================================================================== *)

Section ClassificationFacts.

Local Open Scope string_scope.
Local Open Scope list_scope.

(** Runs through the tests of [determineDamageType]. *)
Ltac damage_cases :=
  unfold determineDamageType; cbv zeta;
  repeat match goal with
         | |- context [pushIf (?a || ?b) _ _] => destruct (a || b)
         | |- context [pushIf (?a && ?b) _ _] => destruct (a && b)
         end;
  cbv [pushIf app List.length Nat.eqb].

(** X1.  [determineDamageType] never returns an empty list and never
    repeats a tag; every tag is one of the seven known ones, in the order of
    the tests; the generic tag "other_damage" is present exactly when it is
    the only tag. *)
Theorem damage_types_invariant (content : string) (analysis : Analysis) :
  determineDamageType content analysis <> []
  /\ NoDup (determineDamageType content analysis)
  /\ (forall tag,
        In tag (determineDamageType content analysis) ->
        In tag ["keying"; "broken_windows"; "graffiti"; "tire_slashing";
                "arson"; "denting"; "other_damage"])
  /\ (In "other_damage" (determineDamageType content analysis)
      <-> determineDamageType content analysis = ["other_damage"]).
Proof.
  damage_cases;
    (split; [discriminate|]);
    (split; [repeat constructor; cbn; intuition discriminate|]);
    (split; [intros tag H; cbn in H |- *; intuition|]);
    (split; [cbn; intuition discriminate|intro H; try discriminate H; cbn; auto]).
Qed.

(** X2.  The target type is always one of "vehicle", "building" and
    "property", and the target details built for it carry the same type, so
    a case row built by the pipeline has [target_type] equal to
    [target_details.type]; a vehicle always has make "Tesla". *)
Theorem target_type_consistent (source : SocialMediaSource) (analysis : Analysis) :
  let targetType := determineTargetType (src_content source) analysis in
  (targetType = "vehicle" \/ targetType = "building" \/ targetType = "property")
  /\ td_type (createTargetDetails targetType analysis) = targetType
  /\ (forall id now,
        target_type (caseRowFor source analysis id now)
        = td_type (target_details (caseRowFor source analysis id now)))
  /\ (targetType = "vehicle" ->
      td_make (createTargetDetails targetType analysis) = Str "Tesla").
Proof.
  cbv zeta. unfold caseRowFor, newCaseRow. cbn [target_type target_details].
  unfold determineTargetType.
  destruct (_ || _ || _ || _ || _); [|destruct (_ || _ || _)]; cbn;
    repeat split; auto; try discriminate.
Qed.

Lemma target_type_consistent_witness :
  td_make (createTargetDetails
             (determineTargetType (src_content Scenario.austinPost)
                                  Scenario.austinAnalysis)
             Scenario.austinAnalysis)
  = Str "Tesla".
Proof.
  apply (target_type_consistent Scenario.austinPost Scenario.austinAnalysis).
  reflexivity.
Defined.

End ClassificationFacts.

(* ===================================================================== *)
(** ** The candidate query *)
(* ===================================================================== *)

Section SearchFacts.

Variable faults : nat -> bool.
Variable clock : nat -> Z.

Local Open Scope string_scope.
Local Open Scope Q_scope.
Local Open Scope list_scope.

Lemma insertByDate_In (x y : Case) (l : list Case) :
  In y (insertByDate x l) <-> y = x \/ In y l.
Proof.
  induction l as [|z zs IH]; simpl.
  - intuition.
  - destruct (created_at x <? created_at z)%Z; simpl; rewrite ?IH; intuition.
Qed.

Lemma orderByCreatedDesc_In (y : Case) (l : list Case) :
  In y (orderByCreatedDesc l) <-> In y l.
Proof.
  induction l as [|x xs IH]; simpl; [tauto|].
  rewrite insertByDate_In, IH. intuition.
Qed.

Lemma insertByDate_newestFirst (x : Case) (l : list Case) :
  newestFirst l -> newestFirst (insertByDate x l).
Proof.
  induction l as [|z zs IH]; simpl; intro D.
  - auto.
  - destruct D as [Dz Dzs].
    destruct (created_at x <? created_at z)%Z eqn:E; simpl.
    + apply Z.ltb_lt in E. split; [|apply IH; exact Dzs].
      rewrite Forall_forall in Dz |- *. intros y Hy.
      apply insertByDate_In in Hy. destruct Hy as [->|Hy]; [lia|auto].
    + apply Z.ltb_ge in E. split; [|split; assumption].
      constructor; [exact E|].
      rewrite Forall_forall in Dz |- *. intros y Hy.
      specialize (Dz y Hy). lia.
Qed.

Lemma orderByCreatedDesc_newestFirst (l : list Case) :
  newestFirst (orderByCreatedDesc l).
Proof.
  induction l as [|x xs IH]; simpl; [exact I|].
  apply insertByDate_newestFirst, IH.
Qed.

Lemma newestFirst_app (l1 l2 : list Case) (x y : Case) :
  newestFirst (l1 ++ l2) -> In x l1 -> In y l2 ->
  (created_at y <= created_at x)%Z.
Proof.
  induction l1 as [|a l1 IH]; simpl; intros D Hx Hy; [contradiction|].
  destruct D as [Da D]. destruct Hx as [->|Hx].
  - rewrite Forall_forall in Da. apply Da. apply in_or_app. right. exact Hy.
  - apply IH; assumption.
Qed.

Lemma limit_In (A : Type) (n : nat) (l : list A) (x : A) :
  In x (firstn n l) -> In x l.
Proof.
  intro H. rewrite <- (firstn_skipn n l). apply in_or_app. left. exact H.
Qed.

(** A row left out by [limit] is at most as recent as every row kept, and
    then the limit is reached. *)
Lemma limit_keeps_newest (n : nat) (l : list Case) (x y : Case) :
  newestFirst l -> In x (firstn n l) -> In y l -> ~ In y (firstn n l) ->
  (created_at y <= created_at x)%Z /\ List.length (firstn n l) = n.
Proof.
  intros D Hx Hy Hn.
  rewrite <- (firstn_skipn n l) in D, Hy.
  apply in_app_or in Hy. destruct Hy as [Hy|Hy]; [contradiction|].
  split; [eapply newestFirst_app; eassumption|].
  apply firstn_length_le.
  destruct (Nat.le_gt_cases n (List.length l)) as [L|L]; [exact L|].
  rewrite skipn_all2 in Hy by lia. contradiction.
Qed.

Lemma insertByScore_length (x : Scored) (l : list Scored) :
  List.length (insertByScore x l) = S (List.length l).
Proof.
  induction l as [|z zs IH]; simpl; [reflexivity|].
  destruct (Qgtb (similarityScore z) (similarityScore x)); simpl; congruence.
Qed.

Lemma sortByScore_length (l : list Scored) :
  List.length (sortByScore l) = List.length l.
Proof.
  induction l as [|x xs IH]; simpl; [reflexivity|].
  rewrite insertByScore_length. congruence.
Qed.

Lemma mapM_scoreCandidate_cases (l : LocationInfo) (t : TargetDetails)
    (dt : list string) (cs : list Case) :
  forall (w w1 : World) (ys : list Scored),
  mapM (scoreCandidate clock l t dt) cs w = (Returned ys, w1) ->
  map sc_case ys = cs.
Proof.
  induction cs as [|c cs IH]; intros w w1 ys H; simpl in H.
  - inversion H. reflexivity.
  - apply bind_inv_Returned in H. destruct H as [y [w2 [Hy H]]].
    apply bind_inv_Returned in H. destruct H as [ys' [w3 [Hys H]]].
    inversion H. subst. simpl. f_equal.
    + unfold scoreCandidate, bind, newDate, readClock, ret in Hy.
      inversion Hy. reflexivity.
    + eapply IH. exact Hys.
Qed.

(** The candidates are the rows the query selects, scored and sorted. *)
Lemma findPotentialDuplicates_selected (l : LocationInfo) (t : TargetDetails)
    (dt : list string) (w w1 : World) (dups : list Scored) :
  findPotentialDuplicates faults clock l t dt w = (Returned dups, w1) ->
  (faults (List.length (trace w)) = true /\ dups = [])
  \/ (faults (List.length (trace w)) = false
      /\ exists ys,
           dups = sortByScore ys
           /\ map sc_case ys
              = firstn 10 (orderByCreatedDesc (filter (matchesQuery l t) (cases w)))).
Proof.
  unfold findPotentialDuplicates, tryCatch. intro H.
  destruct (bind (selectCases faults (city l) (td_type t)) _ w)
    as [[a|e] w2] eqn:E.
  - inversion H. subst. clear H.
    apply bind_inv_Returned in E. destruct E as [r [w3 [Hr E]]].
    unfold selectCases, recordCall in Hr. cbn [fst snd] in Hr.
    destruct (faults (List.length (trace w))) eqn:F.
    + inversion Hr. subst. discriminate E.
    + right. split; [reflexivity|].
      cbn [cases] in Hr. fold (matchesQuery l t) in Hr.
      remember (firstn 10 (orderByCreatedDesc (filter (matchesQuery l t) (cases w))))
        as sel eqn:S10 in Hr |- *.
      injection Hr as <- _. cbn [error data] in E.
      destruct sel as [|c cs].
      * inversion E. exists []. split; reflexivity.
      * apply bind_inv_Returned in E. destruct E as [ys [w4 [Hm E]]].
        inversion E. subst dups. exists ys. split; [reflexivity|].
        eapply mapM_scoreCandidate_cases. exact Hm.
  - unfold bind, console_error, ret in H. inversion H. subst.
    destruct (faults (List.length (trace w))) eqn:F; [left; split; reflexivity|].
    exfalso. revert E. unfold bind at 1.
    unfold selectCases, recordCall. cbn [fst snd]. rewrite F. cbn [error data].
    match goal with
    | |- context [firstn 10 ?rows] => destruct (firstn 10 rows) as [|c cs]
    end; [unfold ret; discriminate|].
    unfold bind.
    match goal with
    | |- context [mapM ?f ?cs ?w0] =>
        destruct (mapM_scoreCandidate_returns clock l t dt cs w0) as [ys [w5 [Em _]]]
    end.
    rewrite Em. unfold ret. discriminate.
Qed.

End SearchFacts.

Section SearchProperties.

Variable faults : nat -> bool.
Variable clock : nat -> Z.

Local Open Scope string_scope.
Local Open Scope Q_scope.
Local Open Scope list_scope.

(** Scoring reads the clock once per candidate and touches nothing else. *)
Lemma mapM_scoreCandidate_world (l : LocationInfo) (t : TargetDetails)
    (dt : list string) (cs : list Case) :
  forall (w w1 : World) (ys : list Scored),
  mapM (scoreCandidate clock l t dt) cs w = (Returned ys, w1) ->
  sameTables w w1 /\ next_id w1 = next_id w /\ trace w1 = trace w
  /\ console w1 = console w
  /\ clock_reads w1 = (clock_reads w + List.length cs)%nat.
Proof.
  unfold sameTables, both, unchanged.
  induction cs as [|c cs IH]; intros w w1 ys H; simpl in H.
  - inversion H. subst. rewrite Nat.add_0_r. intuition.
  - apply bind_inv_Returned in H. destruct H as [y [w2 [Hy H]]].
    apply bind_inv_Returned in H. destruct H as [ys' [w3 [Hys H]]].
    inversion H. subst.
    unfold scoreCandidate, bind, newDate, readClock, ret in Hy.
    inversion Hy. subst. clear Hy H.
    apply IH in Hys. cbn in Hys. cbn [List.length].
    rewrite Nat.add_succ_r. intuition.
Qed.

(** Every candidate is a stored row the query matches. *)
Lemma findPotentialDuplicates_matches (l : LocationInfo) (t : TargetDetails)
    (dt : list string) (w w1 : World) (dups : list Scored) (d : Scored) :
  findPotentialDuplicates faults clock l t dt w = (Returned dups, w1) ->
  In d dups ->
  In (sc_case d) (cases w)
  /\ location_city (sc_case d) = Str (render (city l))
  /\ target_type (sc_case d) = td_type t.
Proof.
  intros H Hd. apply findPotentialDuplicates_selected in H.
  destruct H as [[F ->]|[F [ys [-> Hsel]]]]; [contradiction|].
  assert (Hin : In (sc_case d)
                   (firstn 10 (orderByCreatedDesc (filter (matchesQuery l t) (cases w))))).
  { rewrite <- Hsel. apply in_map. apply sortByScore_In. exact Hd. }
  apply limit_In in Hin.
  rewrite orderByCreatedDesc_In, filter_In in Hin.
  destruct Hin as [Hc Hm]. split; [exact Hc|].
  unfold matchesQuery in Hm. apply andb_true_iff in Hm. destruct Hm as [Hcity Htype].
  apply String.eqb_eq in Htype. split; [|exact Htype].
  unfold eqFilter in Hcity. destruct (location_city (sc_case d)); try discriminate.
  apply String.eqb_eq in Hcity. congruence.
Qed.

(** X3.  [findPotentialDuplicates] never throws and never writes: every
    table and the id counter are left as they were and exactly one call, the
    candidate query, is made.  When the query is rejected the result is the
    empty list and one message is logged; otherwise nothing is logged. *)
Theorem search_never_throws_or_writes (l : LocationInfo) (t : TargetDetails)
    (dt : list string) (w : World) :
  exists dups w1,
    findPotentialDuplicates faults clock l t dt w = (Returned dups, w1)
    /\ sameTables w w1
    /\ next_id w1 = next_id w
    /\ trace w1 = trace w ++ [mkCall SelectCases (faults (List.length (trace w)))]
    /\ (if faults (List.length (trace w))
        then dups = []
             /\ console w1 = console w ++ ["Error finding potential duplicates:"]
        else console w1 = console w).
Proof.
  unfold findPotentialDuplicates, tryCatch, bind at 1.
  unfold selectCases, recordCall. cbn [fst snd].
  destruct (faults (List.length (trace w))) eqn:F.
  - cbn. eexists [], _. split; [reflexivity|].
    unfold sameTables, both, unchanged. cbn. intuition.
  - cbn [error data rejected].
    match goal with
    | |- context [firstn 10 ?rows] => destruct (firstn 10 rows) as [|c cs]
    end.
    + cbn. eexists [], _. split; [reflexivity|].
      unfold sameTables, both, unchanged. cbn. intuition.
    + unfold bind.
      match goal with
      | |- context [mapM ?f ?cs ?w0] =>
          destruct (mapM f cs w0) as [[ys|e] w5] eqn:Em;
          [|destruct (mapM_scoreCandidate_returns clock l t dt cs w0)
              as [ys' [w5' [Em' _]]]; congruence]
      end.
      apply mapM_scoreCandidate_world in Em.
      destruct Em as [T [N [Tr [Co _]]]].
      unfold sameTables, both, unchanged in *. cbn in *.
      eexists _, _. split; [reflexivity|]. intuition.
Qed.

(** X4.  The candidates of [findPotentialDuplicates] are at most ten, each
    is a stored case whose city is the text of the post's city and whose
    target type is the post's; when the query is accepted, a stored case
    that matches but is not a candidate is at most as recent as each of the
    ten candidates. *)
Theorem candidates_are_recent_matches (l : LocationInfo) (t : TargetDetails)
    (dt : list string) (w w1 : World) (dups : list Scored) :
  findPotentialDuplicates faults clock l t dt w = (Returned dups, w1) ->
  (List.length dups <= 10)%nat
  /\ (forall d, In d dups ->
        In (sc_case d) (cases w)
        /\ location_city (sc_case d) = Str (render (city l))
        /\ target_type (sc_case d) = td_type t)
  /\ (faults (List.length (trace w)) = false ->
      forall c, In c (cases w) -> matchesQuery l t c = true ->
      ~ In c (map sc_case dups) ->
      List.length dups = 10%nat
      /\ forall d, In d dups -> (created_at c <= created_at (sc_case d))%Z).
Proof.
  intro H. pose proof H as Hrun. apply findPotentialDuplicates_selected in H.
  destruct H as [[F ->]|[F [ys [-> Hsel]]]].
  - split; [simpl; lia|]. split; [intros d []|]. congruence.
  - assert (Hin : forall d, In d (sortByScore ys) ->
                  In (sc_case d)
                     (firstn 10 (orderByCreatedDesc (filter (matchesQuery l t) (cases w))))).
    { intros d Hd. rewrite <- Hsel. apply in_map. apply sortByScore_In. exact Hd. }
    assert (Hlen : List.length (sortByScore ys)
                   = List.length
                       (firstn 10 (orderByCreatedDesc (filter (matchesQuery l t) (cases w))))).
    { rewrite sortByScore_length, <- Hsel, length_map. reflexivity. }
    split; [rewrite Hlen; rewrite length_firstn; lia|].
    split.
    + intros d Hd. eapply findPotentialDuplicates_matches; eassumption.
    + intros _ c Hc Hm Hn.
      assert (Hn' : ~ In c (firstn 10 (orderByCreatedDesc
                                          (filter (matchesQuery l t) (cases w))))).
      { intro X. apply Hn. rewrite <- Hsel in X.
        apply in_map_iff in X. destruct X as [d [<- Hd]].
        apply in_map. apply sortByScore_In. exact Hd. }
      assert (Hc' : In c (orderByCreatedDesc (filter (matchesQuery l t) (cases w)))).
      { apply orderByCreatedDesc_In. apply filter_In. split; assumption. }
      pose proof (orderByCreatedDesc_newestFirst (filter (matchesQuery l t) (cases w)))
        as D.
      destruct (firstn 10 (orderByCreatedDesc (filter (matchesQuery l t) (cases w))))
        as [|x xs] eqn:S10.
      * exfalso. destruct (orderByCreatedDesc (filter (matchesQuery l t) (cases w)));
          [contradiction|discriminate].
      * rewrite <- S10 in *.
        assert (Hx : In x (firstn 10 (orderByCreatedDesc
                                        (filter (matchesQuery l t) (cases w))))).
        { rewrite S10. left. reflexivity. }
        split.
        -- rewrite Hlen. exact (proj2 (@limit_keeps_newest 10 _ _ _ D Hx Hc' Hn')).
        -- intros d Hd. apply Hin in Hd.
           exact (proj1 (@limit_keeps_newest 10 _ _ _ D Hd Hc' Hn')).
Qed.

(** X5.  Every candidate [findPotentialDuplicates] returns scores at least
    0.2, the term of the equal target type, and at least 0.5 when the post's
    city is a string, since the query only selects rows of that city. *)
Theorem candidate_score_floor (l : LocationInfo) (t : TargetDetails)
    (dt : list string) (w w1 : World) (dups : list Scored) (d : Scored) :
  findPotentialDuplicates faults clock l t dt w = (Returned dups, w1) ->
  In d dups ->
  0.2 <= similarityScore d
  /\ (forall s, city l = Str s -> 0.5 <= similarityScore d).
Proof.
  intros H Hd.
  pose proof (@findPotentialDuplicates_matches _ _ _ _ _ _ _ H Hd) as [_ [Hcity Htype]].
  pose proof (@findPotentialDuplicates_scores _ _ _ _ _ _ _ _ H) as Hs.
  rewrite Forall_forall in Hs. destruct (Hs d Hd) as [n Hn].
  pose proof (scoreCase_terms l t dt (clock n) (sc_case d)) as Hsum.
  rewrite <- Hn in Hsum. unfold specScore in Hsum.
  pose proof (damageTerm_bounds dt (sc_case d)) as [Hd0 _].
  pose proof (timeTerm_nonneg (hoursDiff (clock n) (created_at (sc_case d)))) as Ht0.
  pose proof (locationTerm_bounds l (sc_case d)) as [Hl0 _].
  assert (Htt : 0.2 <= targetTerm t (sc_case d)).
  { unfold targetTerm. rewrite Htype, String.eqb_refl.
    destruct (_ && _); lra. }
  split; [lra|].
  intros s Hs'.
  assert (Hlt : 0.3 <= locationTerm l (sc_case d)).
  { unfold locationTerm. rewrite Hcity, Hs'. cbn [render strict_eq].
    rewrite String.eqb_refl. destruct (strict_eq _ _); lra. }
  lra.
Qed.

(** X6.  A case stored for a post without a city has no city ([NULL]),
    and no candidate of [findPotentialDuplicates] has a [NULL] city: such
    a case is never found again by the candidate query, whatever the post
    searched for. *)
Theorem cases_without_city_are_never_candidates (l : LocationInfo)
    (t : TargetDetails) (dt : list string) (w w1 : World) (dups : list Scored)
    (source : SocialMediaSource) (analysis : Analysis) (id : Id) (now : Z) :
  findPotentialDuplicates faults clock l t dt w = (Returned dups, w1) ->
  truthy (city (locationOf analysis)) = false ->
  location_city (caseRowFor source analysis id now) = Null
  /\ forall d, In d dups -> sc_case d <> caseRowFor source analysis id now.
Proof.
  intros H Hc.
  assert (Hnull : location_city (caseRowFor source analysis id now) = Null).
  { unfold caseRowFor, newCaseRow. cbn [location_city].
    unfold or_null. rewrite Hc. reflexivity. }
  split; [exact Hnull|].
  intros d Hd E.
  pose proof (@findPotentialDuplicates_matches _ _ _ _ _ _ _ H Hd) as [_ [Hcity _]].
  rewrite E, Hnull in Hcity. discriminate.
Qed.

End SearchProperties.

Lemma candidates_are_recent_matches_witness :
  (List.length
     (match fst (findPotentialDuplicates Scenario.accepting Scenario.frozen
                   (locationOf Scenario.austinAnalysis)
                   (createTargetDetails "vehicle"%string Scenario.austinAnalysis)
                   ["keying"; "denting"]%string Scenario.austinWorld) with
      | Returned dups => dups
      | Thrown _ => []
      end) <= 10)%nat.
Proof.
  destruct (findPotentialDuplicates Scenario.accepting Scenario.frozen
              (locationOf Scenario.austinAnalysis)
              (createTargetDetails "vehicle"%string Scenario.austinAnalysis)
              ["keying"; "denting"]%string Scenario.austinWorld) as [[dups|e] w1] eqn:E.
  - exact (proj1 (@candidates_are_recent_matches
                    Scenario.accepting Scenario.frozen _ _ _ _ _ _ E)).
  - simpl. lia.
Defined.

Lemma candidate_score_floor_witness :
  Forall (fun d => (0.5 <= similarityScore d)%Q)
    (match fst (findPotentialDuplicates Scenario.accepting Scenario.frozen
                  (locationOf Scenario.austinAnalysis)
                  (createTargetDetails "vehicle"%string Scenario.austinAnalysis)
                  ["keying"; "denting"]%string Scenario.austinWorld) with
     | Returned dups => dups
     | Thrown _ => []
     end).
Proof.
  destruct (findPotentialDuplicates Scenario.accepting Scenario.frozen
              (locationOf Scenario.austinAnalysis)
              (createTargetDetails "vehicle"%string Scenario.austinAnalysis)
              ["keying"; "denting"]%string Scenario.austinWorld) as [[dups|e] w1] eqn:E;
    [|constructor].
  apply Forall_forall. intros d Hd.
  exact (proj2 (@candidate_score_floor
                  Scenario.accepting Scenario.frozen _ _ _ _ _ _ d E Hd)
           "Austin"%string eq_refl).
Defined.

Lemma cases_without_city_are_never_candidates_witness :
  location_city (caseRowFor Scenario.noCityPost Scenario.noCityAnalysis 0%nat 0%Z) = Null.
Proof.
  destruct (findPotentialDuplicates Scenario.accepting Scenario.frozen
              (locationOf Scenario.austinAnalysis)
              (createTargetDetails "vehicle"%string Scenario.austinAnalysis)
              ["keying"; "denting"]%string Scenario.austinWorld) as [o w1] eqn:E.
  destruct o as [dups|e].
  - exact (proj1 (@cases_without_city_are_never_candidates
                    Scenario.accepting Scenario.frozen _ _ _ _ _ _
                    Scenario.noCityPost Scenario.noCityAnalysis 0%nat 0%Z
                    E eq_refl)).
  - reflexivity.
Defined.


(* ===================================================================== *)
(** ** Which candidates can reach the merge threshold *)
(* ===================================================================== *)

Section MergeThreshold.

Local Open Scope string_scope.
Local Open Scope Q_scope.
Local Open Scope list_scope.

Lemma hoursDiff_36 (now t : Z) :
  (129600000 < now - t)%Z -> 36 < hoursDiff now t.
Proof.
  intro H. unfold hoursDiff.
  apply Qlt_shift_div_l.
  - unfold Qlt; simpl; lia.
  - unfold Qlt, inject_Z; simpl. lia.
Qed.

Lemma timeTerm_after_36 (h : Q) : 36 < h -> timeTerm h < 0.05.
Proof.
  intro H. unfold timeTerm. destruct (Qltb h 48); rewrite ?div48; lra.
Qed.

Lemma overlap_all (postTags candidateTags : list string) :
  (forall tag, In tag postTags -> arr_includes candidateTags tag = true) ->
  overlap postTags candidateTags = List.length postTags.
Proof.
  induction postTags as [|t ts IH]; simpl; intro H; [reflexivity|].
  rewrite (H t (or_introl eq_refl)). f_equal. apply IH.
  intros tag Ht. apply H. right. exact Ht.
Qed.

Lemma damageTerm_all (damageType : list string) (case_ : Case) :
  damageType <> [] ->
  (forall tag, In tag damageType -> arr_includes (tagsOf case_) tag = true) ->
  damageTerm damageType case_ == 0.2.
Proof.
  intros Hne H. unfold damageTerm. rewrite (@overlap_all _ _ H).
  destruct damageType as [|t ts]; [contradiction|].
  cbn [List.length].
  assert (Hn : ~ inject_Z (Z.of_nat (S (List.length ts))) == 0).
  { unfold Qeq, inject_Z; simpl. lia. }
  field. exact Hn.
Qed.

(** X7.  A candidate that does not get the vehicle bonus (it is not a
    vehicle, or its make or model differs from the post's) and is more than
    36 hours old scores below 0.85, whatever else matches: the post is
    never attached to it. *)
Theorem old_candidate_without_vehicle_bonus_is_not_merged
    (locationInfo : LocationInfo) (targetDetails : TargetDetails)
    (damageType : list string) (now : Z) (case_ : Case) :
  String.eqb (target_type case_) "vehicle"
  && strict_eq (td_make (target_details case_)) (td_make targetDetails)
  && strict_eq (td_model (target_details case_)) (td_model targetDetails) = false ->
  (129600000 < now - created_at case_)%Z ->
  scoreCase locationInfo targetDetails damageType now case_ < 0.85
  /\ forall rest sc,
       sc == scoreCase locationInfo targetDetails damageType now case_ ->
       certainDuplicate ({| sc_case := case_; similarityScore := sc |} :: rest) = None.
Proof.
  intros Hb Hage.
  assert (Hlt : scoreCase locationInfo targetDetails damageType now case_ < 0.85).
  { rewrite scoreCase_terms. unfold specScore.
    pose proof (locationTerm_bounds locationInfo case_) as [_ Hl].
    pose proof (damageTerm_bounds damageType case_) as [_ Hd].
    pose proof (timeTerm_after_36 (@hoursDiff_36 _ _ Hage)) as Ht.
    assert (Htt : targetTerm targetDetails case_ <= 0.2).
    { unfold targetTerm. rewrite Hb.
      destruct (String.eqb (target_type case_) (td_type targetDetails)); lra. }
    lra. }
  split; [exact Hlt|].
  intros rest sc Hsc. apply certainDuplicate_None. right.
  exists {| sc_case := case_; similarityScore := sc |}, rest.
  split; [reflexivity|]. cbn [similarityScore]. rewrite Hsc. lra.
Qed.

(** X8.  A vehicle candidate with the post's city, state, make and model
    that carries every damage tag of the post scores at least 1, whatever
    its age: the post is attached to it when it is the first candidate. *)
Theorem same_vehicle_is_merged_at_any_age
    (locationInfo : LocationInfo) (targetDetails : TargetDetails)
    (damageType : list string) (now : Z) (case_ : Case) :
  strict_eq (location_city case_) (city locationInfo) = true ->
  strict_eq (location_state case_) (state locationInfo) = true ->
  target_type case_ = "vehicle" ->
  td_type targetDetails = "vehicle" ->
  strict_eq (td_make (target_details case_)) (td_make targetDetails) = true ->
  strict_eq (td_model (target_details case_)) (td_model targetDetails) = true ->
  damageType <> [] ->
  (forall tag, In tag damageType -> arr_includes (tagsOf case_) tag = true) ->
  1 <= scoreCase locationInfo targetDetails damageType now case_
  /\ forall rest,
       certainDuplicate
         ({| sc_case := case_;
             similarityScore :=
               scoreCase locationInfo targetDetails damageType now case_ |} :: rest)
       = Some {| sc_case := case_;
                 similarityScore :=
                   scoreCase locationInfo targetDetails damageType now case_ |}.
Proof.
  intros Hc Hs Ht Htd Hmake Hmodel Hne Htags.
  assert (Hge : 1 <= scoreCase locationInfo targetDetails damageType now case_).
  { rewrite scoreCase_terms. unfold specScore.
    rewrite (@damageTerm_all damageType case_ Hne Htags).
    pose proof (timeTerm_nonneg (hoursDiff now (created_at case_))) as Ht0.
    unfold locationTerm, targetTerm.
    rewrite Hc, Hs, Ht, Htd, Hmake, Hmodel. cbn. lra. }
  split; [exact Hge|].
  intro rest. apply certainDuplicate_Some. cbn [similarityScore]. lra.
Qed.

End MergeThreshold.

Lemma old_candidate_without_vehicle_bonus_is_not_merged_witness :
  (scoreCase (locationOf Scenario.austinAnalysis)
     (createTargetDetails "building"%string Scenario.austinChargerAnalysis)
     ["graffiti"]%string 144000000%Z twoTagCandidate < 0.85)%Q.
Proof.
  apply (@old_candidate_without_vehicle_bonus_is_not_merged
           (locationOf Scenario.austinAnalysis)
           (createTargetDetails "building"%string Scenario.austinChargerAnalysis)
           ["graffiti"]%string 144000000%Z twoTagCandidate).
  - reflexivity.
  - simpl. lia.
Defined.

Lemma same_vehicle_is_merged_at_any_age_witness :
  (1 <= scoreCase (locationOf Scenario.austinAnalysis)
          (createTargetDetails "vehicle"%string Scenario.austinAnalysis)
          ["keying"]%string 31536000000%Z twoTagCandidate)%Q.
Proof.
  apply (@same_vehicle_is_merged_at_any_age
           (locationOf Scenario.austinAnalysis)
           (createTargetDetails "vehicle"%string Scenario.austinAnalysis)
           ["keying"]%string 31536000000%Z twoTagCandidate);
    try reflexivity.
  - discriminate.
  - intros tag [<-|[]]. reflexivity.
Defined.

(* ===================================================================== *)
(** ** The media of a case *)
(* ===================================================================== *)

Section MediaFacts.

Variable faults : nat -> bool.

Local Open Scope string_scope.
Local Open Scope list_scope.

Lemma forEachMedia_run (c : Id) (sid : option Id) (ms : list MediaItem) :
  forall (index : nat) (w : World),
  exists w',
    forEachFrom index ms
      (fun i media =>
         bind (insertCaseMedia faults (mediaRowOf c sid i media)) (fun _ => ret tt)) w
    = (Returned tt, w')
    /\ case_media w'
       = case_media w ++ storedMedia faults (List.length (trace w)) index c sid ms
    /\ cases w' = cases w
    /\ social_media_sources w' = social_media_sources w
    /\ case_updates w' = case_updates w
    /\ related_cases w' = related_cases w
    /\ console w' = console w
    /\ next_id w' = next_id w
    /\ List.length (trace w') = (List.length (trace w) + List.length ms)%nat.
Proof.
  induction ms as [|m ms IH]; intros index w; simpl.
  - exists w. rewrite app_nil_r, Nat.add_0_r. intuition.
  - unfold bind at 1. unfold bind at 1.
    unfold insertCaseMedia, recordCall. cbn [fst snd].
    destruct (faults (List.length (trace w))) eqn:F; cbn [ret fst snd].
    + match goal with
      | |- context [forEachFrom (S index) ms ?f ?w0] =>
          destruct (IH (S index) w0) as [w' [E [Hm H]]]
      end.
      exists w'. split; [exact E|].
      cbn in Hm, H. rewrite length_app in Hm, H. cbn in Hm, H.
      rewrite Nat.add_1_r in Hm, H. rewrite Nat.add_succ_r.
      split; [exact Hm|]. intuition.
    + match goal with
      | |- context [forEachFrom (S index) ms ?f ?w0] =>
          destruct (IH (S index) w0) as [w' [E [Hm H]]]
      end.
      exists w'. split; [exact E|].
      cbn in Hm, H. rewrite length_app in Hm, H. cbn in Hm, H.
      rewrite Nat.add_1_r in Hm, H. rewrite Nat.add_succ_r.
      rewrite <- app_assoc in Hm.
      split; [exact Hm|]. intuition.
Qed.

Lemma storedMedia_accepted (call index : nat) (c : Id) (sid : option Id)
    (ms : list MediaItem) :
  (forall n, faults n = false) ->
  storedMedia faults call index c sid ms = mediaRowsFrom index c sid ms.
Proof.
  intro NF. revert call index.
  induction ms as [|m ms IH]; intros call index; simpl; [reflexivity|].
  rewrite NF, IH. reflexivity.
Qed.

Lemma storedMedia_later_not_primary (call index : nat) (c : Id) (sid : option Id)
    (ms : list MediaItem) :
  filter cm_is_primary (storedMedia faults call (S index) c sid ms) = [].
Proof.
  revert call index.
  induction ms as [|m ms IH]; intros call index; simpl; [reflexivity|].
  destruct (faults call); simpl; apply IH.
Qed.

Lemma storedMedia_rows (call index : nat) (c : Id) (sid : option Id)
    (ms : list MediaItem) (row : CaseMedia) :
  In row (storedMedia faults call index c sid ms) ->
  cm_case_id row = c /\ cm_source_id row = sid
  /\ (cm_media_type row = "image" \/ cm_media_type row = "video").
Proof.
  revert call index.
  induction ms as [|m ms IH]; intros call index Hrow; simpl in Hrow;
    [contradiction|].
  apply in_app_or in Hrow. destruct Hrow as [Hrow|Hrow]; [|eapply IH; exact Hrow].
  destruct (faults call); [contradiction|].
  destruct Hrow as [<-|[]]. cbn.
  split; [reflexivity|]. split; [reflexivity|].
  destruct (String.eqb (media_type_tag m) "video"); auto.
Qed.

(** X9.  [addMediaToCase] never throws and never inspects the response of
    an insert: a rejected insert is skipped silently.  It makes one insert
    per item and leaves in [case_media], after the rows that were there, the
    rows of exactly the items whose insert was accepted, in order; nothing
    else changes and nothing is logged.  Every row belongs to the given
    case and source and has media type "image" or "video"; when every insert
    is accepted the rows are those of all items. *)
Theorem addMediaToCase_skips_rejected_inserts (caseId : Id) (sourceId : option Id)
    (mediaUrls : list MediaItem) (w : World) :
  exists w',
    addMediaToCase faults caseId sourceId mediaUrls w = (Returned tt, w')
    /\ case_media w'
       = case_media w
         ++ storedMedia faults (List.length (trace w)) 0 caseId sourceId mediaUrls
    /\ cases w' = cases w
    /\ social_media_sources w' = social_media_sources w
    /\ case_updates w' = case_updates w
    /\ related_cases w' = related_cases w
    /\ console w' = console w
    /\ List.length (trace w') = (List.length (trace w) + List.length mediaUrls)%nat
    /\ (forall row,
          In row (storedMedia faults (List.length (trace w)) 0 caseId sourceId mediaUrls) ->
          cm_case_id row = caseId /\ cm_source_id row = sourceId
          /\ (cm_media_type row = "image" \/ cm_media_type row = "video"))
    /\ ((forall n, faults n = false) ->
        storedMedia faults (List.length (trace w)) 0 caseId sourceId mediaUrls
        = mediaRowsFrom 0 caseId sourceId mediaUrls).
Proof.
  unfold addMediaToCase, tryCatch.
  destruct (forEachMedia_run caseId sourceId mediaUrls 0 w)
    as [w' [E [Hm [Hc [Hs [Hu [Hr [Hco [_ Ht]]]]]]]]].
  rewrite E. exists w'. split; [reflexivity|].
  repeat (split; [assumption|]).
  split.
  - intros row Hrow. eapply storedMedia_rows. exact Hrow.
  - intro NF. apply storedMedia_accepted. exact NF.
Qed.

(** X10.  Only the row of the first item is marked primary by
    [addMediaToCase]: the rows it stores contain exactly one primary row
    when there is a first item and its insert is accepted, and none
    otherwise, so that a rejected first insert leaves media without a
    primary row. *)
Theorem addMediaToCase_primary_row (caseId : Id) (sourceId : option Id)
    (mediaUrls : list MediaItem) (w : World) :
  filter cm_is_primary (case_media (snd (addMediaToCase faults caseId sourceId mediaUrls w)))
  = filter cm_is_primary (case_media w)
    ++ match mediaUrls with
       | [] => []
       | first :: _ =>
           if faults (List.length (trace w)) then []
           else [mediaRowOf caseId sourceId 0 first]
       end.
Proof.
  unfold addMediaToCase, tryCatch.
  destruct (forEachMedia_run caseId sourceId mediaUrls 0 w) as [w' [E [Hm _]]].
  rewrite E. cbn [snd]. rewrite Hm, filter_app. f_equal.
  destruct mediaUrls as [|m ms]; [reflexivity|].
  cbn [storedMedia]. rewrite filter_app, storedMedia_later_not_primary, app_nil_r.
  destruct (faults (List.length (trace w))); reflexivity.
Qed.

End MediaFacts.

(* ===================================================================== *)
(** ** Storing and linking a source *)
(* ===================================================================== *)

Section SourceFacts.

Variable faults : nat -> bool.

Local Open Scope string_scope.
Local Open Scope list_scope.

Lemma length_snoc (A : Type) (l : list A) (x : A) :
  List.length (l ++ [x]) = S (List.length l).
Proof. rewrite length_app. cbn. apply Nat.add_1_r. Qed.

(** X11.  [linkSourceToCase] when the lookup finds no single row (it is
    rejected, or no row or several rows have the key of the source).  If the
    insert of the source is rejected, its error is thrown and no table
    changes.  If the insert is accepted and the insert of the case update is
    rejected, that error is thrown and the source row stays stored without
    any case update: nothing is rolled back. *)
Theorem linkSourceToCase_partial_write (source : SocialMediaSource) (caseId : Id)
    (w : World) :
  faults (List.length (trace w)) = true
  \/ (forall r, filter (sameSource (src_platform source) (src_platform_id source))
                  (social_media_sources w) <> [r]) ->
  (faults (S (List.length (trace w))) = true ->
   fst (linkSourceToCase faults source caseId w) = Thrown (RepositoryError InsertSource)
   /\ sameTables w (snd (linkSourceToCase faults source caseId w))
   /\ console (snd (linkSourceToCase faults source caseId w))
      = console w ++ ["Error linking source to case:"])
  /\ (faults (S (List.length (trace w))) = false ->
      faults (S (S (List.length (trace w)))) = true ->
      fst (linkSourceToCase faults source caseId w)
      = Thrown (RepositoryError InsertCaseUpdate)
      /\ social_media_sources (snd (linkSourceToCase faults source caseId w))
         = social_media_sources w ++ [sourceRowOf source (next_id w)]
      /\ case_updates (snd (linkSourceToCase faults source caseId w)) = case_updates w
      /\ cases (snd (linkSourceToCase faults source caseId w)) = cases w
      /\ case_media (snd (linkSourceToCase faults source caseId w)) = case_media w
      /\ related_cases (snd (linkSourceToCase faults source caseId w)) = related_cases w
      /\ console (snd (linkSourceToCase faults source caseId w))
         = console w ++ ["Error creating case update:"; "Error linking source to case:"]).
Proof.
  intro Hlookup.
  assert (Hsel : exists e,
             selectSourceId faults (src_platform source) (src_platform_id source) w
             = (Returned (mkResponse None (Some e)),
                mkWorld (cases w) (social_media_sources w) (case_updates w)
                  (case_media w) (related_cases w)
                  (trace w ++ [mkCall SelectSource (faults (List.length (trace w)))])
                  (clock_reads w) (next_id w) (console w))).
  { unfold selectSourceId, recordCall. cbn [fst snd].
    destruct (faults (List.length (trace w))) eqn:F.
    - eexists. reflexivity.
    - destruct Hlookup as [Hl|Hl]; [discriminate|]. cbn [social_media_sources].
      destruct (filter _ (social_media_sources w)) as [|r [|r' rs]] eqn:Ef;
        try (eexists; reflexivity).
      exfalso. exact (Hl r eq_refl). }
  destruct Hsel as [e Hsel].
  destruct (linkSourceToCase faults source caseId w) as [o w'] eqn:E.
  cbn [fst snd].
  unfold linkSourceToCase, tryCatch in E. unfold bind at 1 in E. rewrite Hsel in E.
  cbn [data] in E. unfold bind at 1 in E. unfold bind at 1 in E.
  unfold insertSource, recordCall in E. cbn [fst snd trace] in E.
  rewrite length_snoc in E.
  split.
  - intro F1. rewrite F1 in E. cbn in E. inversion E. subst.
    unfold sameTables, both, unchanged. cbn. intuition.
  - intros F1 F2. rewrite F1 in E. cbn [error data idOfData ret] in E.
    unfold bind at 1 in E. unfold createCaseUpdate, tryCatch in E.
    unfold bind at 1 in E. unfold insertCaseUpdate, recordCall in E.
    cbn [fst snd trace] in E.
    rewrite !length_snoc, F2 in E. cbn in E. inversion E. subst. cbn.
    rewrite <- app_assoc. cbn. intuition.
Qed.

(** X12.  When every call is accepted and at most one stored row has the
    key (platform, platform_id) of the source, [storeSocialMediaSource]
    returns the id of the one stored row with that key, and a second call
    returns the same id and inserts nothing. *)
Theorem storeSocialMediaSource_twice (source : SocialMediaSource) (w : World) :
  (forall n, faults n = false) ->
  (List.length (filter (sameSource (src_platform source) (src_platform_id source))
                  (social_media_sources w)) <= 1)%nat ->
  exists id w1 w2 row,
    storeSocialMediaSource faults source w = (Returned id, w1)
    /\ filter (sameSource (src_platform source) (src_platform_id source))
         (social_media_sources w1) = [row]
    /\ sr_id row = id
    /\ storeSocialMediaSource faults source w1 = (Returned id, w2)
    /\ social_media_sources w2 = social_media_sources w1.
Proof.
  intros NF Hone.
  unfold storeSocialMediaSource, tryCatch.
  unfold bind at 1. unfold selectSourceId, recordCall. cbn [fst snd].
  rewrite NF. cbn [social_media_sources].
  set (key := sameSource (src_platform source) (src_platform_id source)) in *.
  destruct (filter key (social_media_sources w)) as [|r [|r' rs]] eqn:Ef;
    cbn [data error]; [| |cbn in Hone; lia].
  - unfold bind at 1. unfold insertSource, recordCall. cbn [fst snd].
    rewrite NF. cbn [error data idOfData ret].
    eexists _, _, _, (sourceRowOf source (next_id w)).
    split; [reflexivity|]. cbn [social_media_sources].
    unfold key. rewrite filter_key_app. fold key. rewrite Ef.
    split; [reflexivity|]. split; [reflexivity|].
    unfold bind at 1. rewrite NF. cbn [social_media_sources].
    unfold key. rewrite filter_key_app. fold key. rewrite Ef. cbn.
    split; reflexivity.
  - unfold ret at 1.
    eexists _, _, _, r.
    split; [reflexivity|]. cbn [social_media_sources].
    split; [exact Ef|]. split; [reflexivity|].
    unfold bind at 1. rewrite NF. cbn [social_media_sources]. rewrite Ef. cbn.
    split; reflexivity.
Qed.

End SourceFacts.

Lemma linkSourceToCase_partial_write_witness :
  fst (linkSourceToCase (fun n => Nat.eqb n 2) Scenario.austinPost 0%nat
         Scenario.emptyWorld)
  = Thrown (RepositoryError InsertCaseUpdate)
  /\ List.length (social_media_sources
                    (snd (linkSourceToCase (fun n => Nat.eqb n 2) Scenario.austinPost
                            0%nat Scenario.emptyWorld))) = 1%nat.
Proof.
  destruct (@linkSourceToCase_partial_write (fun n => Nat.eqb n 2)
              Scenario.austinPost 0%nat Scenario.emptyWorld) as [_ H].
  - right. intros r. discriminate.
  - destruct (H eq_refl eq_refl) as [Hf [Hs _]].
    split; [exact Hf|]. rewrite Hs. reflexivity.
Defined.

Lemma storeSocialMediaSource_twice_witness :
  exists id w1 w2,
    storeSocialMediaSource Scenario.accepting Scenario.austinPost Scenario.emptyWorld
    = (Returned id, w1)
    /\ storeSocialMediaSource Scenario.accepting Scenario.austinPost w1
       = (Returned id, w2)
    /\ social_media_sources w2 = social_media_sources w1.
Proof.
  destruct (@storeSocialMediaSource_twice Scenario.accepting Scenario.austinPost
              Scenario.emptyWorld (fun n => eq_refl) (Nat.le_0_l 1))
    as [id [w1 [w2 [row [E1 [_ [_ [E2 Hs]]]]]]]].
  exists id, w1, w2. split; [exact E1|]. split; [exact E2|exact Hs].
Defined.

(* ===================================================================== *)
(** ** The rows the pipeline writes, against the schema *)
(* ===================================================================== *)

Section WrittenRows.

Variable faults : nat -> bool.
Variable clock : nat -> Z.
Variable source : SocialMediaSource.
Variable analysis : Analysis.
Variable R : World -> World -> Prop.
Hypothesis RF : Frame R.

Hypothesis R_selectSource : forall p i, stable R (selectSourceId faults p i).
Hypothesis R_insertSource : forall s, stable R (insertSource faults (sourceRowOf s)).
Hypothesis R_insertCase :
  stable R (insertCase faults clock (caseRowFor source analysis)).
Hypothesis R_linkingUpdate :
  forall s c sid, stable R (insertCaseUpdate faults (linkingUpdate s c sid)).
Hypothesis R_additionalReport :
  forall s c, stable R (insertCaseUpdate faults (additionalReport s c)).
Hypothesis R_insertCaseMedia :
  forall ms, hasMedia analysis = Some ms ->
  forall c sid i m, stable R (insertCaseMedia faults (mediaRowOf c sid i m)).
Hypothesis R_insertRelatedCases :
  forall a b s,
    stable R (insertRelatedCases faults (relatedRows a b "possible_duplicate" s)).
Hypothesis R_selectCases : forall c t, stable R (selectCases faults c t).
Hypothesis R_readClock : forall w, R w (snd (readClock clock w)).

Lemma linkSourceToCase_rows (caseId : Id) :
  stable R (linkSourceToCase faults source caseId).
Proof.
  unfold linkSourceToCase.
  apply stable_rethrow; [exact RF|].
  apply stable_bind; [exact RF|apply R_selectSource|].
  intro existing.
  apply stable_bind; [exact RF|apply storeOrFind_stable; [exact RF|apply R_insertSource]|].
  intro sourceId.
  apply stable_bind; [exact RF| |intro; apply stable_ret; exact RF].
  apply createCaseUpdate_stable; [exact RF|].
  exact (R_linkingUpdate source caseId sourceId).
Qed.

Lemma addMediaIfAny_rows (caseId : Id) :
  stable R (addMediaIfAny faults caseId source analysis).
Proof.
  unfold addMediaIfAny.
  destruct (hasMedia analysis) as [ms|] eqn:E; [|apply stable_ret; exact RF].
  unfold addMediaToCase.
  apply stable_rethrow; [exact RF|].
  apply stable_forEachFrom; [exact RF|].
  intros i x. apply stable_bind; [exact RF| |intro; apply stable_ret; exact RF].
  apply (R_insertCaseMedia eq_refl).
Qed.

(** A relation respected by every call the pipeline can make is respected
    by the pipeline. *)
Lemma createCaseFromSocialMedia_rows :
  stable R (createCaseFromSocialMedia faults clock source analysis).
Proof.
  rewrite createCaseFromSocialMedia_unfold.
  apply stable_rethrow; [exact RF|].
  apply stable_bind; [exact RF| |].
  - apply findPotentialDuplicates_stable;
      [exact RF|apply R_selectCases|apply R_readClock].
  - intro dups. unfold resolve.
    destruct (certainDuplicate dups) as [top|].
    + unfold attachDuplicate.
      apply stable_bind; [exact RF|apply linkSourceToCase_rows|intro].
      apply stable_bind; [exact RF|apply addMediaIfAny_rows|intro].
      apply stable_bind; [exact RF| |intro; apply stable_ret; exact RF].
      apply createCaseUpdate_stable; [exact RF|apply R_additionalReport].
    + unfold openNewCase.
      apply stable_bind; [exact RF|apply R_insertCase|intro r].
      destruct (error r); [apply stable_throw; exact RF|].
      apply stable_bind; [exact RF|apply caseOfData_stable; exact RF|intro newCase].
      apply stable_bind; [exact RF|apply linkSourceToCase_rows|intro].
      apply stable_bind; [exact RF|apply addMediaIfAny_rows|intro].
      apply stable_bind; [exact RF| |intro; apply stable_ret; exact RF].
      apply linkPossibleDuplicates_stable; [exact RF|].
      intros. apply R_insertRelatedCases.
Qed.

End WrittenRows.

Section SchemaChecks.

Variable faults : nat -> bool.
Variable clock : nat -> Z.

Local Open Scope string_scope.
Local Open Scope Q_scope.
Local Open Scope list_scope.

Lemma caseRowFor_checks (source : SocialMediaSource) (analysis : Analysis)
    (id : Id) (now : Z) :
  caseChecks analysis (caseRowFor source analysis id now).
Proof.
  unfold caseChecks, caseRowFor, newCaseRow,
    Schema.check_target_type, Schema.check_status, Schema.check_ai_confidence.
  cbn [target_type status ai_confidence].
  split; [|split; [reflexivity|]].
  - unfold determineTargetType.
    destruct (_ || _ || _ || _ || _); [|destruct (_ || _ || _)]; reflexivity.
  - unfold relevanceInRange, confidenceOf.
    destruct (relevanceScore analysis) as [q|]; [|intros _; reflexivity].
    intros [H0 H1]. destruct (Qeq_bool q 0); [reflexivity|].
    apply andb_true_iff. split; apply Qle_bool_iff; assumption.
Qed.

Ltac written_row :=
  let w := fresh "w" in
  intros; try intro w;
  unfold selectSourceId, insertSource, insertCase, insertCaseUpdate,
    insertCaseMedia, insertRelatedCases, selectCases, readClock, recordCall;
  cbn [fst snd];
  repeat match goal with
    | |- context [if ?f (List.length (trace ?x)) then _ else _] =>
        destruct (f (List.length (trace x)))
    | |- context [match filter ?f ?l with _ => _ end] =>
        destruct (filter f l) as [|? [|? ?]]
    end;
  unfold checkedRows, uncheckedLinks, both, appended; cbn [snd cases case_updates
    case_media related_cases];
  repeat match goal with |- _ /\ _ => split end;
  first
    [ exists []; split; [symmetry; apply app_nil_r|constructor]
    | eexists; split; [reflexivity|] ].

(** X13.  Whatever the repository rejects, every row
    [createCaseFromSocialMedia] adds to [cases], [case_updates] and
    [case_media] satisfies the CHECK constraints of its table: the target
    type and the status of a case are among the allowed values, and its
    [ai_confidence] lies in [0, 1] when the relevance score of the analysis
    does; the type of a case update is allowed and its importance lies
    between 1 and 5; the media type is allowed. *)
Theorem written_rows_satisfy_checks (source : SocialMediaSource)
    (analysis : Analysis) (w : World) :
  checkedRows analysis w
    (snd (createCaseFromSocialMedia faults clock source analysis w)).
Proof.
  apply createCaseFromSocialMedia_rows; [unfold checkedRows; frame|..];
    try solve [written_row].
  - written_row. constructor; [apply caseRowFor_checks|constructor].
  - written_row. repeat constructor.
  - written_row. repeat constructor.
  - written_row. repeat constructor. unfold Schema.check_media_type. cbn.
    destruct (String.eqb (media_type_tag m) "video"); reflexivity.
Qed.


End SchemaChecks.

(* ===================================================================== *)
(** ** Updating a case *)
(* ===================================================================== *)

Section UpdateCaseFacts.

Variable faults : nat -> bool.

Local Open Scope string_scope.
Local Open Scope list_scope.

(** The type, title and description of the record of an update. *)
Lemma updateCase_accepted_run (caseId : Id) (updateData : CasePatch) (w : World) :
  exists updateType title description,
    (updateType = "status_change"
     /\ (exists s, p_status updateData = Some s /\ s <> "" /\ s <> "reported"
                   /\ title = ("Status changed to " ++ s)%string)
     \/ updateType = "location_update"
        /\ (forall s, p_status updateData = Some s -> s = "" \/ s = "reported")
        /\ (present (p_location_city updateData)
            || present (p_location_state updateData) = true)
     \/ updateType = "other"
        /\ (forall s, p_status updateData = Some s -> s = "" \/ s = "reported")
        /\ present (p_location_city updateData) = false
        /\ present (p_location_state updateData) = false)
    /\ updateCase faults None caseId updateData w
       = if faults (List.length (trace w))
         then (Thrown (RepositoryError InsertCaseUpdate),
               mkWorld (patchedCases caseId updateData (cases w))
                 (social_media_sources w) (case_updates w) (case_media w)
                 (related_cases w)
                 (trace w ++ [mkCall InsertCaseUpdate true])
                 (clock_reads w) (next_id w)
                 (console w ++ ["Error creating case update:"; "Error updating case:"]))
         else (Returned {| success := true |},
               mkWorld (patchedCases caseId updateData (cases w))
                 (social_media_sources w)
                 (case_updates w ++ [updateRecord caseId updateType title description])
                 (case_media w) (related_cases w)
                 (trace w ++ [mkCall InsertCaseUpdate false])
                 (clock_reads w) (next_id w) (console w)).
Proof.
  unfold updateCase, tryCatch. unfold bind at 1. unfold updateCaseRows.
  cbn [error]. cbv zeta.
  destruct (present (p_status updateData)
            && negb (String.eqb (assign (p_status updateData) "") "reported")) eqn:Es;
    [|destruct (present (p_location_city updateData)
                || present (p_location_state updateData)) eqn:El].
  - exists "status_change",
      ("Status changed to " ++ assign (p_status updateData) "")%string,
      ("The case status was updated to " ++ dquote
         ++ assign (p_status updateData) "" ++ dquote ++ ".")%string.
    split.
    + left. split; [reflexivity|].
      apply andb_true_iff in Es. destruct Es as [Hp Hr].
      destruct (p_status updateData) as [s|]; [|discriminate].
      exists s. cbn in Hp, Hr.
      apply negb_true_iff in Hp, Hr. apply String.eqb_neq in Hp, Hr.
      repeat split; auto.
    + unfold bind at 1. unfold createCaseUpdate, tryCatch.
      unfold bind at 1. unfold insertCaseUpdate, recordCall. cbn [fst snd trace].
      destruct (faults (List.length (trace w))); cbn; rewrite <- ?app_assoc; reflexivity.
  - exists "location_update", "Location information updated",
      "The location information for this case was updated.".
    split.
    + right. left. split; [reflexivity|]. split; [|reflexivity].
      intros s Hs. rewrite Hs in Es. cbn in Es.
      destruct (String.eqb s "") eqn:E1; [left; apply String.eqb_eq; exact E1|].
      destruct (String.eqb s "reported") eqn:E2; [right; apply String.eqb_eq; exact E2|].
      discriminate.
    + unfold bind at 1. unfold createCaseUpdate, tryCatch.
      unfold bind at 1. unfold insertCaseUpdate, recordCall. cbn [fst snd trace].
      destruct (faults (List.length (trace w))); cbn; rewrite <- ?app_assoc; reflexivity.
  - exists "other", "Case updated", "The case was updated with new information.".
    split.
    + right. right. split; [reflexivity|].
      apply orb_false_iff in El. destruct El as [Hc Hst].
      split; [|split; assumption].
      intros s Hs. rewrite Hs in Es. cbn in Es.
      destruct (String.eqb s "") eqn:E1; [left; apply String.eqb_eq; exact E1|].
      destruct (String.eqb s "reported") eqn:E2; [right; apply String.eqb_eq; exact E2|].
      discriminate.
    + unfold bind at 1. unfold createCaseUpdate, tryCatch.
      unfold bind at 1. unfold insertCaseUpdate, recordCall. cbn [fst snd trace].
      destruct (faults (List.length (trace w))); cbn; rewrite <- ?app_assoc; reflexivity.
Qed.

Lemma updateCase_rejected_run (e : Error) (caseId : Id) (updateData : CasePatch)
    (w : World) :
  updateCase faults (Some e) caseId updateData w
  = (Thrown e,
     mkWorld (cases w) (social_media_sources w) (case_updates w) (case_media w)
       (related_cases w) (trace w) (clock_reads w) (next_id w)
       (console w ++ ["Error updating case:"])).
Proof. reflexivity. Qed.

Lemma patchedCases_length (caseId : Id) (updateData : CasePatch) (l : list Case) :
  List.length (patchedCases caseId updateData l) = List.length l.
Proof. apply length_map. Qed.

Lemma patchedCases_nth (caseId : Id) (updateData : CasePatch) (l : list Case)
    (n : nat) (c : Case) :
  nth_error l n = Some c ->
  nth_error (patchedCases caseId updateData l) n
  = Some (if Nat.eqb (case_id c) caseId then applyPatch updateData c else c).
Proof.
  intro H. unfold patchedCases. rewrite nth_error_map, H. reflexivity.
Qed.

Lemma patchedCases_unknown (caseId : Id) (updateData : CasePatch) (l : list Case) :
  (forall c, In c l -> case_id c <> caseId) ->
  patchedCases caseId updateData l = l.
Proof.
  induction l as [|c cs IH]; intro H; simpl; [reflexivity|].
  destruct (Nat.eqb (case_id c) caseId) eqn:E.
  - apply Nat.eqb_eq in E. exfalso. exact (H c (or_introl eq_refl) E).
  - f_equal. apply IH. intros c' Hc'. apply H. right. exact Hc'.
Qed.

Lemma applyPatch_twice (updateData : CasePatch) (c : Case) :
  applyPatch updateData (applyPatch updateData c) = applyPatch updateData c.
Proof.
  unfold applyPatch, assign, assignStr. cbn.
  destruct updateData as [i h s t d c1 c2 c3 st dm a v cr]. cbn.
  destruct i, h, s, t, d, c1, c2, c3, st, dm, a, v, cr; reflexivity.
Qed.

Lemma patchedCases_twice (caseId : Id) (updateData : CasePatch) (l : list Case) :
  patchedCases caseId updateData (patchedCases caseId updateData l)
  = patchedCases caseId updateData l.
Proof.
  unfold patchedCases. rewrite map_map. apply map_ext. intro c.
  destruct (Nat.eqb (case_id c) caseId) eqn:E; [|rewrite E; reflexivity].
  destruct (Nat.eqb (case_id (applyPatch updateData c)) caseId);
    [apply applyPatch_twice|reflexivity].
Qed.

End UpdateCaseFacts.

Section UpdateCaseProperties.

Local Open Scope string_scope.
Local Open Scope list_scope.

(** X15.  [updateCase] does not roll back.  When the repository rejects the
    update, that error is thrown and no table changes.  When it accepts the
    update and rejects the insert of the case update, the error of the
    insert is thrown although the case has been updated, and no case update
    records the change.  When both are accepted the result is
    [{ success: true }], the case is updated and exactly one case update is
    added.  No other table changes in any of these cases. *)
Theorem updateCase_does_not_roll_back (faults : nat -> bool)
    (rejection : option Error) (caseId : Id)
    (updateData : CasePatch) (w : World) :
  social_media_sources (snd (updateCase faults rejection caseId updateData w))
  = social_media_sources w
  /\ case_media (snd (updateCase faults rejection caseId updateData w)) = case_media w
  /\ related_cases (snd (updateCase faults rejection caseId updateData w))
     = related_cases w
  /\ match rejection with
     | Some e =>
         fst (updateCase faults rejection caseId updateData w) = Thrown e
         /\ cases (snd (updateCase faults rejection caseId updateData w)) = cases w
         /\ case_updates (snd (updateCase faults rejection caseId updateData w))
            = case_updates w
         /\ trace (snd (updateCase faults rejection caseId updateData w)) = trace w
     | None =>
         cases (snd (updateCase faults rejection caseId updateData w))
         = patchedCases caseId updateData (cases w)
         /\ if faults (List.length (trace w))
            then fst (updateCase faults rejection caseId updateData w)
                 = Thrown (RepositoryError InsertCaseUpdate)
                 /\ case_updates (snd (updateCase faults rejection caseId updateData w))
                    = case_updates w
            else fst (updateCase faults rejection caseId updateData w)
                 = Returned {| success := true |}
                 /\ exists u,
                      case_updates (snd (updateCase faults rejection caseId updateData w))
                      = case_updates w ++ [u]
                      /\ cu_case_id u = caseId
     end.
Proof.
  destruct rejection as [e|].
  - rewrite updateCase_rejected_run. cbn. intuition.
  - destruct (updateCase_accepted_run faults caseId updateData w)
      as [ty [ti [de [_ E]]]].
    rewrite E. destruct (faults (List.length (trace w))); cbn.
    + intuition.
    + repeat (split; [reflexivity|]).
      eexists. split; reflexivity.
Qed.

(** X16.  The case update [updateCase] writes has importance 3, is public,
    names no source and has one of three types.  It is "status_change"
    exactly when the update sets a non-empty status other than "reported",
    and its title then names the new status; otherwise it is
    "location_update" exactly when the update sets a non-empty city or
    state; otherwise it is "other".  In particular, setting the status back
    to "reported" is never recorded as a status change.  The row satisfies
    the checks of the schema on [case_updates]. *)
Theorem updateCase_record (faults : nat -> bool) (caseId : Id) (updateData : CasePatch) (w : World) :
  faults (List.length (trace w)) = false ->
  exists updateType title description,
    case_updates (snd (updateCase faults None caseId updateData w))
    = case_updates w ++ [updateRecord caseId updateType title description]
    /\ updateChecks (updateRecord caseId updateType title description)
    /\ (updateType = "status_change" \/ updateType = "location_update"
        \/ updateType = "other")
    /\ (updateType = "status_change"
        <-> exists s, p_status updateData = Some s /\ s <> "" /\ s <> "reported")
    /\ (updateType = "status_change" ->
        exists s, p_status updateData = Some s
                  /\ title = ("Status changed to " ++ s)%string)
    /\ (updateType = "location_update"
        <-> (forall s, p_status updateData = Some s -> s = "" \/ s = "reported")
            /\ present (p_location_city updateData)
               || present (p_location_state updateData) = true).
Proof.
  intro F.
  destruct (updateCase_accepted_run faults caseId updateData w)
    as [ty [ti [de [Hty E]]]].
  rewrite E, F. cbn [snd case_updates].
  exists ty, ti, de. split; [reflexivity|].
  destruct Hty as [[-> [s [Hs [H1 [H2 ->]]]]]|[[-> [Hs Hl]]|[-> [Hs [Hc Hst]]]]].
  - split; [split; reflexivity|]. split; [auto|].
    split; [split; [intros _; exists s; auto|reflexivity]|].
    split; [intros _; exists s; auto|].
    split; [discriminate|].
    intros [Hn _]. destruct (Hn s Hs); contradiction.
  - split; [split; reflexivity|]. split; [auto|].
    split; [split; [discriminate|]|].
    { intros [s [Hs' [H1 H2]]]. destruct (Hs s Hs'); contradiction. }
    split; [discriminate|].
    split; [intros _; split; assumption|reflexivity].
  - split; [split; reflexivity|]. split; [auto|].
    split; [split; [discriminate|]|].
    { intros [s [Hs' [H1 H2]]]. destruct (Hs s Hs'); contradiction. }
    split; [discriminate|].
    split; [discriminate|].
    intros [_ Hl]. rewrite Hc, Hst in Hl. discriminate.
Qed.


End UpdateCaseProperties.

Lemma updateCase_record_witness :
  exists updateType title description,
    case_updates
      (snd (updateCase Scenario.accepting None 0%nat
              (mkCasePatch None None None None None None None None
                 (Some "verified"%string) None None None None)
              Scenario.austinWorld))
    = case_updates Scenario.austinWorld
      ++ [updateRecord 0%nat updateType title description]
    /\ updateType = "status_change"%string.
Proof.
  destruct (@updateCase_record Scenario.accepting 0%nat
              (mkCasePatch None None None None None None None None
                 (Some "verified"%string) None None None None)
              Scenario.austinWorld eq_refl)
    as [ty [ti [de [E [_ [_ [[_ Hst] _]]]]]]].
  exists ty, ti, de. split; [exact E|].
  apply Hst. exists "verified"%string.
  split; [reflexivity|]. split; discriminate.
Defined.

(* ===================================================================== *)
(** ** Listing cases *)
(* ===================================================================== *)

Section GetCasesFacts.

Variable textSearch : string -> Case -> bool.

Local Open Scope string_scope.
Local Open Scope list_scope.

(** The rows that match the filters, most recent first. *)
Lemma getCases_accepted_run (filters : CaseFilters) (page pageSize : Z) (w : World) :
  getCases textSearch None None filters page pageSize w
  = (Returned
       {| pg_cases :=
            map (withMedia w)
              (range ((page - 1) * pageSize) ((page - 1) * pageSize + pageSize - 1)
                 (orderByCreatedDesc (filter (selectedBy textSearch filters) (cases w))));
          pg_pagination :=
            {| pg_page := page;
               pg_pageSize := pageSize;
               pg_totalCount := Z.of_nat (List.length (cases w));
               pg_totalPages :=
                 if (pageSize =? 0)%Z then None
                 else Some (ceilDiv (Z.of_nat (List.length (cases w))) pageSize) |} |},
     w).
Proof. reflexivity. Qed.

Lemma range_page (A : Type) (page pageSize : Z) (rows : list A) :
  (1 <= page)%Z -> (1 <= pageSize)%Z ->
  range ((page - 1) * pageSize) ((page - 1) * pageSize + pageSize - 1) rows
  = firstn (Z.to_nat pageSize) (skipn (Z.to_nat (page - 1) * Z.to_nat pageSize) rows).
Proof.
  intros Hp Hs. unfold range. f_equal.
  - f_equal. lia.
  - f_equal. rewrite <- Z2Nat.inj_mul by lia. reflexivity.
Qed.

Lemma skipn_In (A : Type) (n : nat) (l : list A) (x : A) :
  In x (skipn n l) -> In x l.
Proof.
  intro H. rewrite <- (firstn_skipn n l). apply in_or_app. right. exact H.
Qed.

Lemma newestFirst_skipn (n : nat) (l : list Case) :
  newestFirst l -> newestFirst (skipn n l).
Proof.
  revert l. induction n as [|n IH]; intros l D; [exact D|].
  destruct l as [|x xs]; [exact I|]. simpl. apply IH. exact (proj2 D).
Qed.

Lemma newestFirst_firstn (n : nat) (l : list Case) :
  newestFirst l -> newestFirst (firstn n l).
Proof.
  revert l. induction n as [|n IH]; intros l D; [exact I|].
  destruct l as [|x xs]; [exact I|]. simpl. destruct D as [Dx D].
  split; [|apply IH; exact D].
  rewrite Forall_forall in Dx |- *. intros y Hy. apply Dx.
  eapply limit_In. exact Hy.
Qed.

Lemma firstn_plus (A : Type) (a b : nat) (l : list A) :
  firstn (a + b) l = firstn a l ++ firstn b (skipn a l).
Proof.
  revert l. induction a as [|a IH]; intro l; [reflexivity|].
  destruct l as [|x xs]; simpl.
  - destruct b; reflexivity.
  - f_equal. apply IH.
Qed.

Lemma ceilDiv_spec (a b : Z) :
  (0 < b)%Z ->
  ((ceilDiv a b - 1) * b < a <= ceilDiv a b * b)%Z.
Proof.
  intro Hb. unfold ceilDiv.
  pose proof (Z.div_mod (- a) b ltac:(lia)) as Hdm.
  pose proof (Z.mod_pos_bound (- a) b Hb) as Hm.
  nia.
Qed.

(** X18.  With a page number and a page size of at least 1 and both queries
    accepted, [getCases] returns and changes nothing.  The page holds at
    most [pageSize] rows, most recent first; each is a stored case that
    passes every filter given, with all the media rows of that case.  The
    rows are those at the positions [(page-1)*pageSize] and following of
    the matching cases in that order. *)
Theorem getCases_page (filters : CaseFilters) (page pageSize : Z) (w : World) :
  (1 <= page)%Z -> (1 <= pageSize)%Z ->
  exists r,
    getCases textSearch None None filters page pageSize w = (Returned r, w)
    /\ (Z.of_nat (List.length (pg_cases r)) <= pageSize)%Z
    /\ newestFirst (map cwm_case (pg_cases r))
    /\ (forall row, In row (pg_cases r) ->
          In (cwm_case row) (cases w)
          /\ selectedBy textSearch filters (cwm_case row) = true
          /\ cwm_media row
             = filter (fun m => Nat.eqb (cm_case_id m) (case_id (cwm_case row)))
                 (case_media w))
    /\ map cwm_case (pg_cases r)
       = firstn (Z.to_nat pageSize)
           (skipn (Z.to_nat (page - 1) * Z.to_nat pageSize)
              (orderByCreatedDesc (filter (selectedBy textSearch filters) (cases w)))).
Proof.
  intros Hp Hs. rewrite getCases_accepted_run. eexists. split; [reflexivity|].
  cbn [pg_cases]. rewrite (range_page _ Hp Hs).
  set (sorted := orderByCreatedDesc (filter (selectedBy textSearch filters) (cases w))).
  assert (Hmap : map cwm_case
                   (map (withMedia w)
                      (firstn (Z.to_nat pageSize)
                         (skipn (Z.to_nat (page - 1) * Z.to_nat pageSize) sorted)))
                 = firstn (Z.to_nat pageSize)
                     (skipn (Z.to_nat (page - 1) * Z.to_nat pageSize) sorted)).
  { rewrite map_map. cbn [withMedia cwm_case]. apply map_id. }
  split.
  { rewrite length_map.
    pose proof (firstn_le_length (Z.to_nat pageSize)
                  (skipn (Z.to_nat (page - 1) * Z.to_nat pageSize) sorted)). lia. }
  split.
  { rewrite Hmap. apply newestFirst_firstn, newestFirst_skipn.
    apply orderByCreatedDesc_newestFirst. }
  split; [|exact Hmap].
  intros row Hrow. apply in_map_iff in Hrow. destruct Hrow as [c [<- Hc]].
  cbn [withMedia cwm_case cwm_media].
  apply limit_In, skipn_In in Hc. unfold sorted in Hc.
  rewrite orderByCreatedDesc_In, filter_In in Hc. destruct Hc as [Hc Hsel].
  split; [exact Hc|]. split; [exact Hsel|reflexivity].
Qed.

(** X19.  The pages of [getCases] partition the matching cases: on an
    unchanged table, the cases of pages 1 to [n] one after the other are
    the first [n * pageSize] matching cases, most recent first, none
    missing and none repeated. *)
Theorem getCases_pages_compose (filters : CaseFilters) (pageSize : Z) (w : World)
    (n : nat) :
  (1 <= pageSize)%Z ->
  flat_map
    (fun p =>
       match fst (getCases textSearch None None filters (Z.of_nat p) pageSize w) with
       | Returned r => map cwm_case (pg_cases r)
       | Thrown _ => []
       end)
    (seq 1 n)
  = firstn (n * Z.to_nat pageSize)
      (orderByCreatedDesc (filter (selectedBy textSearch filters) (cases w))).
Proof.
  intro Hs.
  set (sorted := orderByCreatedDesc (filter (selectedBy textSearch filters) (cases w))).
  assert (Hpage : forall p, (1 <= p)%nat ->
            match fst (getCases textSearch None None filters (Z.of_nat p) pageSize w) with
            | Returned r => map cwm_case (pg_cases r)
            | Thrown _ => []
            end
            = firstn (Z.to_nat pageSize) (skipn ((p - 1) * Z.to_nat pageSize) sorted)).
  { intros p Hp. rewrite getCases_accepted_run. cbn [fst pg_cases].
    rewrite range_page by lia. fold sorted.
    rewrite map_map. cbn [withMedia cwm_case]. rewrite map_id.
    do 3 f_equal. lia. }
  induction n as [|n IH]; [reflexivity|].
  rewrite seq_S, flat_map_app, IH. cbn [flat_map]. rewrite app_nil_r.
  rewrite Hpage by lia.
  replace (S n * Z.to_nat pageSize)%nat
    with (n * Z.to_nat pageSize + Z.to_nat pageSize)%nat by lia.
  rewrite firstn_plus. do 3 f_equal. lia.
Qed.

(** X20.  The totals [getCases] reports do not depend on the filters:
    [totalCount] is the number of all stored cases and [totalPages] that
    number divided by the page size, rounded up, whatever the filters
    select.  So the number of matching cases is at most [totalCount], and
    two calls that differ only in their filters report the same
    pagination.  A rejected page query or count query is thrown, and no
    call changes a table. *)
Theorem getCases_totals_ignore_filters (pageRejection countRejection : option Error)
    (filters : CaseFilters) (page pageSize : Z) (w : World) :
  (1 <= pageSize)%Z ->
  sameTables w (snd (getCases textSearch pageRejection countRejection
                       filters page pageSize w))
  /\ match pageRejection, countRejection with
     | Some e, _ =>
         fst (getCases textSearch pageRejection countRejection filters page pageSize w)
         = Thrown e
     | None, Some e =>
         fst (getCases textSearch pageRejection countRejection filters page pageSize w)
         = Thrown e
     | None, None =>
         exists r totalPages,
           fst (getCases textSearch pageRejection countRejection
                  filters page pageSize w) = Returned r
           /\ pg_totalCount (pg_pagination r) = Z.of_nat (List.length (cases w))
           /\ pg_totalPages (pg_pagination r) = Some totalPages
           /\ ((totalPages - 1) * pageSize < Z.of_nat (List.length (cases w))
               <= totalPages * pageSize)%Z
           /\ (Z.of_nat (List.length (filter (selectedBy textSearch filters) (cases w)))
               <= pg_totalCount (pg_pagination r))%Z
           /\ forall filters' r',
                fst (getCases textSearch None None filters' page pageSize w)
                = Returned r' ->
                pg_pagination r' = pg_pagination r
     end.
Proof.
  intro Hs.
  destruct pageRejection as [e|]; [|destruct countRejection as [e|]].
  - split; [|reflexivity]. unfold sameTables, both, unchanged. cbn. intuition.
  - split; [|reflexivity]. unfold sameTables, both, unchanged. cbn. intuition.
  - rewrite getCases_accepted_run. cbn [fst snd].
    split; [unfold sameTables, both, unchanged; intuition|].
    eexists _, (ceilDiv (Z.of_nat (List.length (cases w))) pageSize).
    split; [reflexivity|]. cbn [pg_pagination pg_totalCount pg_totalPages].
    split; [reflexivity|].
    split; [destruct (pageSize =? 0)%Z eqn:E; [apply Z.eqb_eq in E; lia|reflexivity]|].
    split; [apply ceilDiv_spec; lia|].
    split; [apply inj_le, filter_length_le|].
    intros filters' r' H. rewrite getCases_accepted_run in H.
    cbn [fst] in H. inversion H. reflexivity.
Qed.

End GetCasesFacts.

Lemma getCases_page_witness :
  exists r,
    getCases (fun _ _ => true) None None
      (mkCaseFilters Undefined (Str "vehicle") Undefined Undefined Undefined)
      1%Z 20%Z Scenario.austinWorld
    = (Returned r, Scenario.austinWorld)
    /\ (Z.of_nat (List.length (pg_cases r)) <= 20)%Z.
Proof.
  destruct (@getCases_page (fun _ _ => true)
              (mkCaseFilters Undefined (Str "vehicle") Undefined Undefined Undefined)
              1%Z 20%Z Scenario.austinWorld ltac:(lia) ltac:(lia))
    as [r [E [Hlen _]]].
  exists r. split; [exact E|exact Hlen].
Defined.

Lemma getCases_pages_compose_witness :
  flat_map
    (fun p =>
       match fst (getCases (fun _ _ => true) None None
                    (mkCaseFilters Undefined Undefined Undefined Undefined Undefined)
                    (Z.of_nat p) 1%Z Scenario.austinWorld) with
       | Returned r => map cwm_case (pg_cases r)
       | Thrown _ => []
       end)
    (seq 1 2)
  = firstn (2 * Z.to_nat 1)
      (orderByCreatedDesc
         (filter (selectedBy (fun _ _ => true)
                    (mkCaseFilters Undefined Undefined Undefined Undefined Undefined))
            (cases Scenario.austinWorld))).
Proof.
  apply (@getCases_pages_compose (fun _ _ => true)
           (mkCaseFilters Undefined Undefined Undefined Undefined Undefined)
           1%Z Scenario.austinWorld 2%nat).
  lia.
Defined.

Lemma getCases_totals_ignore_filters_witness :
  sameTables Scenario.austinWorld
    (snd (getCases (fun _ _ => true) None None
            (mkCaseFilters (Str "resolved") Undefined Undefined Undefined Undefined)
            1%Z 20%Z Scenario.austinWorld)).
Proof.
  apply (@getCases_totals_ignore_filters (fun _ _ => true) None None
           (mkCaseFilters (Str "resolved") Undefined Undefined Undefined Undefined)
           1%Z 20%Z Scenario.austinWorld).
  lia.
Defined.

(* ===================================================================== *)
(** ** Comparing two posts *)
(* ===================================================================== *)

Section DetectDuplicateFacts.

Local Open Scope Q_scope.

Lemma strict_eq_sym (a b : JsStr) : strict_eq a b = strict_eq b a.
Proof.
  destruct a, b; cbn; try reflexivity. apply String.eqb_sym.
Qed.

Lemma strict_eq_truthy (a b : JsStr) :
  strict_eq a b = true -> truthy b = truthy a.
Proof.
  destruct a, b; cbn; try discriminate; try reflexivity.
  intro H. apply String.eqb_eq in H. subst. reflexivity.
Qed.

Lemma bothAndEqual_true (a : JsStr) (b : option JsStr) :
  bothAndEqual a b = Some true <-> exists b', b = Some b' /\ sameNonEmpty a b'.
Proof.
  unfold bothAndEqual, sameNonEmpty. split.
  - destruct (truthy a) eqn:Ta; [|discriminate].
    destruct b as [b'|]; [|discriminate].
    intro H. injection H as H. apply andb_true_iff in H.
    exists b'. intuition.
  - intros [b' [-> [Ta E]]]. rewrite Ta, E, (strict_eq_truthy _ _ E), Ta. reflexivity.
Qed.

Lemma bothAndEqual_sym (a b : JsStr) (x y : bool) :
  bothAndEqual a (Some b) = Some x -> bothAndEqual b (Some a) = Some y -> x = y.
Proof.
  unfold bothAndEqual. rewrite (strict_eq_sym b a).
  destruct (truthy a) eqn:Ta, (truthy b) eqn:Tb; cbn; intros H1 H2;
    injection H1 as <-; injection H2 as <-; reflexivity.
Qed.

Lemma hoursApart_sym (t1 t2 : option Z) : hoursApart t1 t2 = hoursApart t2 t1.
Proof.
  destruct t1 as [a|], t2 as [b|]; cbn; try reflexivity.
  replace (Z.abs (b - a)) with (Z.abs (a - b)) by lia. reflexivity.
Qed.

Lemma hoursApart_nonneg (t1 t2 : option Z) (h : Q) :
  hoursApart t1 t2 = Some h -> 0 <= h.
Proof.
  destruct t1 as [a|], t2 as [b|]; cbn; try discriminate.
  intro H. injection H as <-.
  apply Qle_shift_div_l; [reflexivity|].
  rewrite Qmult_0_l. replace 0 with (inject_Z 0) by reflexivity.
  rewrite <- Zle_Qle. lia.
Qed.

Lemma hoursApart_lt_8 (a b : Z) (h : Q) :
  hoursApart (Some a) (Some b) = Some h ->
  (h < 8 <-> (Z.abs (a - b) < 28800000)%Z).
Proof.
  cbn. intro H. injection H as <-. split; intro H.
  - unfold Qlt, Qdiv, Qmult, Qinv, inject_Z in H. cbn in H. lia.
  - unfold Qlt, Qdiv, Qmult, Qinv, inject_Z. cbn. lia.
Qed.

Lemma term24 (h : Q) : 0.3 * (1 - h / 24) == 0.3 - h * (1 # 80).
Proof. field. Qed.

(** X21.  A result of [detectDuplicateIncidents] has a score between 0 and
    0.8 and declares the same incident exactly when both posts name the same
    non-empty city and the same non-empty model and their dates are valid
    and less than 8 hours apart.  The comparison is symmetric: the posts in
    the other order give the same score and verdict. *)
Theorem same_incident_criterion (post1 post2 : IncidentPost) (r : IncidentMatch) :
  detectDuplicateIncidents post1 post2 = Returned r ->
  0 <= im_similarityScore r <= 0.8
  /\ (isSameIncident r = true
      <-> exists l1 l2 v1 v2 t1 t2,
            ip_locationInfo post1 = Some l1 /\ ip_locationInfo post2 = Some l2
            /\ ip_vehicleInfo post1 = Some v1 /\ ip_vehicleInfo post2 = Some v2
            /\ ip_postedAt post1 = Some t1 /\ ip_postedAt post2 = Some t2
            /\ sameNonEmpty (city l1) (city l2)
            /\ sameNonEmpty (vi_model v1) (vi_model v2)
            /\ (Z.abs (t1 - t2) < 28800000)%Z)
  /\ (forall r',
        detectDuplicateIncidents post2 post1 = Returned r' ->
        im_similarityScore r' == im_similarityScore r
        /\ isSameIncident r' = isSameIncident r).
Proof.
  unfold detectDuplicateIncidents. cbv zeta.
  destruct (ip_locationInfo post1) as [l1|] eqn:L1; [|discriminate].
  destruct (bothAndEqual (city l1) (option_map city (ip_locationInfo post2)))
    as [sameCity|] eqn:Bc; [|discriminate].
  destruct (ip_vehicleInfo post1) as [v1|] eqn:V1; [|discriminate].
  destruct (bothAndEqual (vi_model v1) (option_map vi_model (ip_vehicleInfo post2)))
    as [sameModel|] eqn:Bm; [|discriminate].
  intro H. injection H as <-. cbn [im_similarityScore isSameIncident].
  set (base := (if sameModel then (if sameCity then 0 + 0.3 else 0) + 0.2
                else if sameCity then 0 + 0.3 else 0)).
  assert (Hbase : base == (if sameCity then 0.3 else 0) + (if sameModel then 0.2 else 0)).
  { unfold base. destruct sameCity, sameModel; lra. }
  split; [|split].
  - destruct (hoursApart (ip_postedAt post1) (ip_postedAt post2)) as [h|] eqn:Eh.
    + pose proof (@hoursApart_nonneg _ _ _ Eh) as H0.
      destruct (Qltb h 24) eqn:E24.
      * apply Qltb_true in E24. rewrite term24, Hbase.
        destruct sameCity, sameModel; split; lra.
      * rewrite Hbase. destruct sameCity, sameModel; split; lra.
    + rewrite Hbase. destruct sameCity, sameModel; split; lra.
  - split.
    + intro Hs. apply Qgtb_true in Hs.
      destruct (hoursApart (ip_postedAt post1) (ip_postedAt post2)) as [h|] eqn:Eh;
        [|rewrite Hbase in Hs; destruct sameCity, sameModel; lra].
      pose proof (@hoursApart_nonneg _ _ _ Eh) as H0.
      destruct (Qltb h 24) eqn:E24;
        [|rewrite Hbase in Hs; destruct sameCity, sameModel; lra].
      rewrite term24, Hbase in Hs.
      assert (sameCity = true /\ sameModel = true /\ h < 8) as [-> [-> H8]].
      { destruct sameCity, sameModel; repeat split; lra. }
      apply bothAndEqual_true in Bc, Bm.
      destruct Bc as [c2 [Hc2 Sc]]. destruct Bm as [m2 [Hm2 Sm]].
      destruct (ip_locationInfo post2) as [l2|]; [|discriminate].
      destruct (ip_vehicleInfo post2) as [v2|]; [|discriminate].
      cbn in Hc2, Hm2. injection Hc2 as <-. injection Hm2 as <-.
      destruct (ip_postedAt post1) as [t1|]; [|discriminate].
      destruct (ip_postedAt post2) as [t2|]; [|discriminate].
      exists l1, l2, v1, v2, t1, t2. repeat (split; [reflexivity|]).
      split; [exact Sc|]. split; [exact Sm|].
      apply (@hoursApart_lt_8 _ _ _ Eh). exact H8.
    + intros [l1' [l2 [v1' [v2 [t1 [t2 [E1 [E2 [E3 [E4 [E5 [E6 [Sc [Sm Ht]]]]]]]]]]]]]].
      injection E1 as <-. injection E3 as <-.
      rewrite E2 in Bc. rewrite E4 in Bm. cbn in Bc, Bm.
      assert (sameCity = true).
      { assert (X : bothAndEqual (city l1) (Some (city l2)) = Some true)
          by (apply bothAndEqual_true; eauto). congruence. }
      assert (sameModel = true).
      { assert (X : bothAndEqual (vi_model v1) (Some (vi_model v2)) = Some true)
          by (apply bothAndEqual_true; eauto). congruence. }
      subst. rewrite E5, E6.
      destruct (hoursApart (Some t1) (Some t2)) as [h|] eqn:Eh; [|discriminate].
      apply (@hoursApart_lt_8 _ _ _ Eh) in Ht.
      assert (E24 : Qltb h 24 = true) by (apply Qltb_true; lra).
      rewrite E24. apply Qgtb_true. rewrite term24, Hbase. lra.
  - intros r'.
    destruct (ip_locationInfo post2) as [l2|] eqn:L2; [|discriminate].
    destruct (bothAndEqual (city l2) (option_map city (Some l1)))
      as [sameCity'|] eqn:Bc'; [|discriminate].
    destruct (ip_vehicleInfo post2) as [v2|] eqn:V2; [|discriminate].
    destruct (bothAndEqual (vi_model v2) (option_map vi_model (Some v1)))
      as [sameModel'|] eqn:Bm'; [|discriminate].
    intro H. injection H as <-. cbn [im_similarityScore isSameIncident].
    cbn in Bc, Bm, Bc', Bm'.
    pose proof (@bothAndEqual_sym _ _ _ _ Bc Bc') as <-.
    pose proof (@bothAndEqual_sym _ _ _ _ Bm Bm') as <-.
    rewrite (hoursApart_sym (ip_postedAt post2) (ip_postedAt post1)).
    fold base. split; reflexivity.
Qed.

End DetectDuplicateFacts.

Lemma same_incident_criterion_witness :
  match detectDuplicateIncidents
          (mkIncidentPost (Some (mkLocationInfo (Str "Austin") (Str "TX") (Str "US")))
             (Some (mkVehicleInfo (Str "Model 3") (Str "white") (Str ""))) (Some 0%Z))
          (mkIncidentPost (Some (mkLocationInfo (Str "Austin") (Str "") (Str "US")))
             (Some (mkVehicleInfo (Str "Model 3") (Str "") (Str "")))
             (Some 7200000%Z)) with
  | Returned r => isSameIncident r = true
  | Thrown _ => False
  end.
Proof.
  destruct (detectDuplicateIncidents
              (mkIncidentPost (Some (mkLocationInfo (Str "Austin") (Str "TX") (Str "US")))
                 (Some (mkVehicleInfo (Str "Model 3") (Str "white") (Str ""))) (Some 0%Z))
              (mkIncidentPost (Some (mkLocationInfo (Str "Austin") (Str "") (Str "US")))
                 (Some (mkVehicleInfo (Str "Model 3") (Str "") (Str "")))
                 (Some 7200000%Z))) as [r|e] eqn:E;
    [|cbv in E; discriminate E].
  apply (proj1 (proj2 (@same_incident_criterion _ _ _ E))).
  eexists _, _, _, _, _, _.
  repeat (split; [reflexivity|]).
  split; [split; reflexivity|]. split; [split; reflexivity|].
  cbn. lia.
Defined.

(* ===================================================================== *)
(** ** Regular expressions: what a match tells *)
(* ===================================================================== *)

Section RegexFacts.

Import Regex.

Variable ignoreCase : bool.
Variable R : Type.

(** A greedy run of characters of a class, followed by [k]. *)
Lemma run_Star_Class (p : ascii -> bool)
    (k : option ascii -> list ascii -> list string -> option R)
    (caps : list string) (x : R) :
  forall (s : list ascii) (prev : option ascii),
  run ignoreCase (Star (Class p)) prev s caps k = Some x ->
  exists n prev',
    (n <= List.length s)%nat
    /\ Forall (fun c => p c = true) (firstn n s)
    /\ k prev' (skipn n s) caps = Some x.
Proof.
  intros s prev. cbn [run]. generalize (iterations s) as fuel.
  intro fuel. revert s prev.
  induction fuel as [|fuel IH]; intros s prev H.
  - exists 0%nat, prev. split; [lia|]. split; [constructor|exact H].
  - destruct s as [|c s'].
    + exists 0%nat, prev. split; [lia|]. split; [constructor|exact H].
    + destruct (p c) eqn:Pc.
      * cbn [List.length] in H.
        assert (L : Nat.ltb (List.length s') (S (List.length s')) = true)
          by (apply Nat.ltb_lt; lia).
        rewrite L in H.
        match type of H with
        | match ?inner with _ => _ end = _ => destruct inner as [y|] eqn:E
        end.
        -- injection H as <-. apply IH in E.
           destruct E as [n [prev' [Hn [Hf Hk]]]].
           exists (S n), prev'. cbn [firstn skipn List.length].
           split; [lia|]. split; [constructor; assumption|exact Hk].
        -- exists 0%nat, prev. split; [lia|]. split; [constructor|exact H].
      * exists 0%nat, prev. split; [lia|]. split; [constructor|exact H].
Qed.

(** The first match is a match at some position. *)
Lemma execFrom_matchHere (r : Regex) (m : Match) :
  forall (s : list ascii) (index : nat) (prev : option ascii),
  execFrom ignoreCase r index prev s = Some m ->
  exists index' prev' s', matchHere ignoreCase r index' prev' s' = Some m.
Proof.
  induction s as [|c s IH]; intros index prev H; cbn [execFrom] in H.
  - destruct (matchHere ignoreCase r index prev []) eqn:E; [|discriminate].
    injection H as <-. eauto.
  - destruct (matchHere ignoreCase r index prev (c :: s)) eqn:E.
    + injection H as <-. eauto.
    + eapply IH. exact H.
Qed.

Lemma readChars_length (l : list ascii) :
  forall (prev : option ascii) (s : list ascii) (prev' : option ascii) (s' : list ascii),
  readChars ignoreCase l prev s = Some (prev', s') ->
  List.length s = (List.length l + List.length s')%nat.
Proof.
  induction l as [|c l IH]; intros prev s prev' s' H; cbn in H.
  - injection H as _ <-. reflexivity.
  - destruct s as [|x s0]; [discriminate|].
    destruct (sameChar ignoreCase c x); [|discriminate].
    apply IH in H. cbn. lia.
Qed.

End RegexFacts.

Section TrimFacts.

Import Regex.

(** Nothing but white space is taken away, and none is left at the ends. *)
Lemma trimStart_Forall (P : ascii -> Prop) (l : list ascii) :
  Forall P l -> Forall P (trimStart l).
Proof.
  induction l as [|c l IH]; intro H; cbn; [constructor|].
  destruct (isSpace c); [apply IH; inversion H; assumption|exact H].
Qed.

Lemma trimStart_head (l : list ascii) (c : ascii) :
  hd_error (trimStart l) = Some c -> isSpace c = false.
Proof.
  induction l as [|x l IH]; cbn; [discriminate|].
  destruct (isSpace x) eqn:E; [exact IH|].
  cbn. intro H. injection H as <-. exact E.
Qed.

Lemma trimStart_keeps_last (l : list ascii) (c : ascii) :
  isSpace c = false -> exists u, trimStart (l ++ [c]) = u ++ [c].
Proof.
  intro Hc. induction l as [|x l IH]; cbn.
  - rewrite Hc. exists []. reflexivity.
  - destruct (isSpace x); [exact IH|]. exists (x :: l). reflexivity.
Qed.

Lemma trim_chars (P : ascii -> Prop) (g : string) :
  Forall P (list_ascii_of_string g) ->
  Forall P (list_ascii_of_string (trim g)).
Proof.
  intro H. unfold trim. rewrite list_ascii_of_string_of_list_ascii.
  apply Forall_rev, trimStart_Forall, Forall_rev, trimStart_Forall. exact H.
Qed.

Lemma trim_ends (g : string) (c : ascii) :
  hd_error (list_ascii_of_string (trim g)) = Some c
  \/ hd_error (rev (list_ascii_of_string (trim g))) = Some c ->
  isSpace c = false.
Proof.
  unfold trim. rewrite list_ascii_of_string_of_list_ascii, rev_involutive.
  set (t := trimStart (list_ascii_of_string g)).
  intros [H|H]; [|eapply trimStart_head; exact H].
  destruct t as [|x t'] eqn:Et; [discriminate H|].
  assert (Hx : isSpace x = false).
  { apply (trimStart_head (list_ascii_of_string g)). fold t. rewrite Et. reflexivity. }
  cbn [rev] in H.
  destruct (trimStart_keeps_last (rev t') x Hx) as [u Hu].
  rewrite Hu, rev_app_distr in H. cbn in H. injection H as <-. exact Hx.
Qed.

End TrimFacts.

(* ===================================================================== *)
(** ** The text analysis *)
(* ===================================================================== *)

Section LocationFacts.

Import Regex.

Local Open Scope string_scope.
Local Open Scope list_scope.

(** The groups of a match of the city and state pattern. *)
Lemma cityStatePattern_groups (index : nat) (prev : option ascii) (s : list ascii)
    (m : Match) :
  matchHere false AiAnalysis.cityStatePattern index prev s = Some m ->
  exists c0 g a b,
    m_groups m = [string_of_list_ascii (c0 :: g); string_of_list_ascii [a; b]]
    /\ Forall (fun c => AiAnalysis.letterOrSpace c = true) (c0 :: g)
    /\ isUpper a = true /\ isUpper b = true.
Proof.
  unfold matchHere, AiAnalysis.cityStatePattern, Plus. cbn [run].
  destruct (readChars false (list_ascii_of_string "in ") prev s)
    as [[p1 s1]|]; [|discriminate].
  destruct s1 as [|c0 s1a]; [discriminate|].
  destruct (AiAnalysis.letterOrSpace c0) eqn:P0; [|discriminate].
  intro H. apply (@run_Star_Class false) in H.
  destruct H as [n [p2 [Hn [Hg H]]]].
  destruct (readChars false (list_ascii_of_string ",") p2 (skipn n s1a))
    as [[p3 s3]|]; [|discriminate].
  apply (@run_Star_Class false) in H.
  destruct H as [n3 [p4 [_ [_ H]]]].
  destruct (skipn n3 s3) as [|a [|b s5]]; try discriminate.
  { destruct (isUpper a); discriminate. }
  destruct (isUpper a) eqn:Ua; [|discriminate].
  destruct (isUpper b) eqn:Ub; [|discriminate].
  injection H as <-. cbn [m_groups].
  exists c0, (firstn n s1a), a, b.
  split; [|split; [constructor; assumption|split; assumption]].
  cbn [app]. f_equal; [|f_equal].
  - f_equal.
    match goal with
    | |- firstn ?k _ = _ =>
        change k with (S (List.length s1a) - List.length (skipn n s1a))%nat
    end.
    rewrite length_skipn.
    replace (S (List.length s1a) - (List.length s1a - n))%nat with (S n) by lia.
    reflexivity.
  - f_equal.
    match goal with
    | |- firstn ?k _ = _ =>
        change k with (S (S (List.length s5)) - List.length s5)%nat
    end.
    replace (S (S (List.length s5)) - List.length s5)%nat with 2%nat by lia.
    reflexivity.
Qed.

(** X22.  [extractLocationInfo] always names the country "US".  Either no
    city and state pattern is found, and then city and state are empty and
    the confidence is 0.2; or the state is exactly two capital letters, the
    confidence is 0.8, and the city consists of letters and white space
    only, with no white space at its ends (it may be empty). *)
Theorem extracted_location_shape (text : string) :
  AiAnalysis.el_country (AiAnalysis.extractLocationInfo text) = "US"
  /\ ((AiAnalysis.el_city (AiAnalysis.extractLocationInfo text) = ""
       /\ AiAnalysis.el_state (AiAnalysis.extractLocationInfo text) = ""
       /\ AiAnalysis.el_confidence (AiAnalysis.extractLocationInfo text) = 0.2%Q)
      \/ ((exists a b,
             AiAnalysis.el_state (AiAnalysis.extractLocationInfo text)
             = String a (String b "")
             /\ isUpper a = true /\ isUpper b = true)
          /\ AiAnalysis.el_confidence (AiAnalysis.extractLocationInfo text) = 0.8%Q
          /\ Forall (fun c => AiAnalysis.letterOrSpace c = true)
               (list_ascii_of_string
                  (AiAnalysis.el_city (AiAnalysis.extractLocationInfo text)))
          /\ (forall c,
                hd_error (list_ascii_of_string
                            (AiAnalysis.el_city (AiAnalysis.extractLocationInfo text)))
                = Some c
                \/ hd_error (rev (list_ascii_of_string
                                    (AiAnalysis.el_city
                                       (AiAnalysis.extractLocationInfo text))))
                   = Some c ->
                isSpace c = false))).
Proof.
  unfold AiAnalysis.extractLocationInfo. cbv zeta.
  destruct (exec false AiAnalysis.cityStatePattern text) as [m|] eqn:E.
  - unfold exec in E. apply execFrom_matchHere in E.
    destruct E as [index [prev [s E]]].
    apply cityStatePattern_groups in E.
    destruct E as [c0 [g [a [b [Hg [Hc [Ua Ub]]]]]]].
    rewrite Hg.
    cbn [AiAnalysis.el_state AiAnalysis.el_city AiAnalysis.el_confidence
         AiAnalysis.el_country].
    split; [reflexivity|]. right.
    split; [exists a, b; auto|]. split; [reflexivity|].
    split.
    + apply trim_chars. rewrite list_ascii_of_string_of_list_ascii. exact Hc.
    + intros c. apply trim_ends.
  - split; [reflexivity|]. left. cbn. auto.
Qed.

End LocationFacts.

Section VehicleFacts.

Import Regex.

Local Open Scope string_scope.
Local Open Scope list_scope.

(** The group of a match of the year pattern. *)
Lemma yearPattern_groups (index : nat) (prev : option ascii) (s : list ascii)
    (m : Match) :
  matchHere false AiAnalysis.yearPattern index prev s = Some m ->
  exists d1 d2,
    m_groups m = [String "2" (String "0" (String d1 (String d2 "")))]
    /\ isDigit d1 = true /\ isDigit d2 = true.
Proof.
  unfold matchHere, AiAnalysis.yearPattern. cbn [run].
  destruct (xorb (wordBefore prev) (wordAhead s)); [|discriminate].
  destruct s as [|x [|y s']]; cbn [readChars list_ascii_of_string]; try discriminate.
  { destruct (sameChar false "2" x); discriminate. }
  unfold sameChar.
  destruct (Ascii.eqb "2" x) eqn:Ex; [|discriminate].
  destruct (Ascii.eqb "0" y) eqn:Ey; [|discriminate].
  apply Ascii.eqb_eq in Ex, Ey. subst x y.
  destruct s' as [|d1 [|d2 s3]]; try discriminate.
  { destruct (isDigit d1); discriminate. }
  destruct (isDigit d1) eqn:D1; [|discriminate].
  destruct (isDigit d2) eqn:D2; [|discriminate].
  destruct (xorb _ _); [|discriminate].
  intro H. injection H as <-. cbn [m_groups app].
  exists d1, d2. split; [|split; assumption].
  f_equal.
  match goal with
  | |- string_of_list_ascii (firstn ?k _) = _ =>
      change k with (4 + List.length s3 - List.length s3)%nat
  end.
  replace (4 + List.length s3 - List.length s3)%nat with 4%nat by lia.
  reflexivity.
Qed.

Lemma firstTested_In (patterns : list (Regex * string)) (text : string) :
  AiAnalysis.firstTested patterns text = "" \/ In (AiAnalysis.firstTested patterns text) (map snd patterns).
Proof.
  induction patterns as [|[pattern name] rest IH]; cbn; [left; reflexivity|].
  destruct (test true pattern text); [right; left; reflexivity|].
  destruct IH as [IH|IH]; [left; exact IH|right; right; exact IH].
Qed.

(** X23.  [extractVehicleInfo] always names the make "Tesla".  The model is
    empty or one of Cybertruck, Model S, Model 3, Model X and Model Y, and
    the confidence is 0.9 exactly when a model is named, 0.3 otherwise.  The
    colour is empty or one of white, black, red, blue, silver and gray.  The
    year is empty or four digits starting with 20 that denote a year from
    2008 to the current year. *)
Theorem extracted_vehicle_shape (currentYear : Z) (text : string) :
  AiAnalysis.ev_make (AiAnalysis.extractVehicleInfo currentYear text) = "Tesla"
  /\ In (AiAnalysis.ev_model (AiAnalysis.extractVehicleInfo currentYear text))
        [""; "Cybertruck"; "Model S"; "Model 3"; "Model X"; "Model Y"]
  /\ (AiAnalysis.ev_confidence (AiAnalysis.extractVehicleInfo currentYear text)
      = if String.eqb (AiAnalysis.ev_model
                         (AiAnalysis.extractVehicleInfo currentYear text)) ""
        then 0.3%Q else 0.9%Q)
  /\ In (AiAnalysis.ev_color (AiAnalysis.extractVehicleInfo currentYear text))
        [""; "white"; "black"; "red"; "blue"; "silver"; "gray"]
  /\ (AiAnalysis.ev_year (AiAnalysis.extractVehicleInfo currentYear text) = ""
      \/ exists d1 d2,
           AiAnalysis.ev_year (AiAnalysis.extractVehicleInfo currentYear text)
           = String "2" (String "0" (String d1 (String d2 "")))
           /\ isDigit d1 = true /\ isDigit d2 = true
           /\ (2008
               <= AiAnalysis.parseInt
                    (AiAnalysis.ev_year (AiAnalysis.extractVehicleInfo currentYear text))
               <= currentYear)%Z).
Proof.
  unfold AiAnalysis.extractVehicleInfo. cbv zeta.
  cbn [AiAnalysis.ev_make AiAnalysis.ev_model AiAnalysis.ev_color
       AiAnalysis.ev_year AiAnalysis.ev_confidence].
  split; [reflexivity|].
  split.
  { destruct (firstTested_In AiAnalysis.modelPatterns (toLowerCase text)) as [->|H];
      [left; reflexivity|right; exact H]. }
  split.
  { destruct (String.eqb _ ""); reflexivity. }
  split.
  { destruct (firstTested_In AiAnalysis.colorPatterns (toLowerCase text)) as [->|H];
      [left; reflexivity|right; exact H]. }
  unfold AiAnalysis.extractYear.
  destruct (exec false AiAnalysis.yearPattern text) as [m|] eqn:E; [|left; reflexivity].
  unfold exec in E. apply execFrom_matchHere in E.
  destruct E as [index [prev [s E]]].
  apply yearPattern_groups in E. destruct E as [d1 [d2 [Hg [D1 D2]]]].
  rewrite Hg. cbv zeta.
  destruct ((2008 <=? _)%Z && (_ <=? currentYear)%Z) eqn:Hr; [|left; reflexivity].
  right. exists d1, d2. split; [reflexivity|]. split; [exact D1|]. split; [exact D2|].
  apply andb_true_iff in Hr. destruct Hr as [H1 H2].
  apply Z.leb_le in H1, H2. split; assumption.
Qed.

End VehicleFacts.

Section AnalysisFacts.

Local Open Scope string_scope.
Local Open Scope Q_scope.

Lemma append_nonempty (a b : string) : b <> "" -> (a ++ b)%string <> "".
Proof.
  intro H. destruct a; cbn; [exact H|discriminate].
Qed.

Lemma ai_generateSummary_nonempty (text : string)
    (locationInfo : AiAnalysis.ExtractedLocation)
    (vehicleInfo : AiAnalysis.ExtractedVehicle) :
  AiAnalysis.generateSummary text locationInfo vehicleInfo <> "".
Proof.
  unfold AiAnalysis.generateSummary. cbv zeta.
  repeat match goal with
         | |- (if ?c then _ else _) <> _ => destruct c
         end;
    apply append_nonempty; discriminate.
Qed.

(** A text is relevant when both keyword tests succeed. *)
Lemma analyzeTextContent_relevant_iff (currentYear : Z) (text : string) :
  AiAnalysis.isRelevant (AiAnalysis.analyzeTextContent currentYear text)
  = existsb (fun keyword => includes (toLowerCase text) keyword) AiAnalysis.teslaKeywords
    && existsb (fun keyword => includes (toLowerCase text) keyword)
         AiAnalysis.vandalismKeywords.
Proof.
  unfold AiAnalysis.analyzeTextContent. cbv zeta. cbn [AiAnalysis.isRelevant].
  destruct (existsb _ AiAnalysis.teslaKeywords);
    destruct (existsb _ AiAnalysis.vandalismKeywords); reflexivity.
Qed.

(** A relevant text has score 0.8 and a summary. *)
Lemma relevant_text (currentYear : Z) (text : string) :
  AiAnalysis.isRelevant (AiAnalysis.analyzeTextContent currentYear text) = true ->
  AiAnalysis.ta_relevanceScore (AiAnalysis.analyzeTextContent currentYear text) == 0.8
  /\ AiAnalysis.ta_summary (AiAnalysis.analyzeTextContent currentYear text) <> "".
Proof.
  unfold AiAnalysis.analyzeTextContent. cbv zeta.
  cbn [AiAnalysis.isRelevant AiAnalysis.ta_relevanceScore AiAnalysis.ta_summary].
  destruct (existsb _ AiAnalysis.teslaKeywords);
    destruct (existsb _ AiAnalysis.vandalismKeywords);
    intro H; try (exfalso; vm_compute in H; discriminate H).
  rewrite H. split; [reflexivity|apply ai_generateSummary_nonempty].
Qed.

(** X24.  [analyzeTextContent] finds a text relevant exactly when it
    contains a Tesla keyword and a vandalism keyword (letter case ignored);
    the relevance score is then 0.8 and the summary is not empty.  Otherwise
    the score is at most 0.48 and the summary is empty.  The flag
    [isVandalism] is never set, since no score exceeds 0.8. *)
Theorem text_relevance (currentYear : Z) (text : string) :
  AiAnalysis.isRelevant (AiAnalysis.analyzeTextContent currentYear text)
  = existsb (fun keyword => includes (toLowerCase text) keyword) AiAnalysis.teslaKeywords
    && existsb (fun keyword => includes (toLowerCase text) keyword)
         AiAnalysis.vandalismKeywords
  /\ AiAnalysis.isVandalism (AiAnalysis.analyzeTextContent currentYear text) = false
  /\ (if AiAnalysis.isRelevant (AiAnalysis.analyzeTextContent currentYear text)
      then AiAnalysis.ta_relevanceScore (AiAnalysis.analyzeTextContent currentYear text)
           == 0.8
           /\ AiAnalysis.ta_summary (AiAnalysis.analyzeTextContent currentYear text)
              <> ""
      else AiAnalysis.ta_relevanceScore (AiAnalysis.analyzeTextContent currentYear text)
           <= 0.48
           /\ AiAnalysis.ta_summary (AiAnalysis.analyzeTextContent currentYear text)
              = "").
Proof.
  unfold AiAnalysis.analyzeTextContent. cbv zeta.
  cbn [AiAnalysis.isRelevant AiAnalysis.isVandalism AiAnalysis.ta_relevanceScore
       AiAnalysis.ta_summary].
  destruct (existsb _ AiAnalysis.teslaKeywords);
    destruct (existsb _ AiAnalysis.vandalismKeywords);
    (split; [reflexivity|]); (split; [reflexivity|]).
  - change (Qgtb (0.8 * 0.4 + 0.8 * 0.6) AiAnalysis.RELEVANCE_THRESHOLD) with true.
    cbv iota. split; [reflexivity|apply ai_generateSummary_nonempty].
  - change (Qgtb (0.8 * 0.4 + 0 * 0.6) AiAnalysis.RELEVANCE_THRESHOLD) with false.
    cbv iota. split; [discriminate|reflexivity].
  - change (Qgtb (0 * 0.4 + 0.8 * 0.6) AiAnalysis.RELEVANCE_THRESHOLD) with false.
    cbv iota. split; [discriminate|reflexivity].
  - change (Qgtb (0 * 0.4 + 0 * 0.6) AiAnalysis.RELEVANCE_THRESHOLD) with false.
    cbv iota. split; [discriminate|reflexivity].
Qed.

End AnalysisFacts.

Section AnalysedPosts.

Variable faults : nat -> bool.
Variable clock : nat -> Z.

Local Open Scope string_scope.
Local Open Scope Q_scope.

(** A result of [analyzeTextContent] carries no media, so none is written. *)
Lemma analysed_post_without_media (source : SocialMediaSource)
    (a : AiAnalysis.TextAnalysis) :
  stable (unchanged case_media)
    (createCaseFromSocialMedia faults clock source (AiAnalysis.asAnalysis a)).
Proof.
  apply (@createCaseFromSocialMedia_rows faults clock source
           (AiAnalysis.asAnalysis a) (unchanged case_media));
    [frame|..]; try solve [footprint].
  intros ms H. discriminate H.
Qed.

(** X25.  When the analysis passed to [createCaseFromSocialMedia] is the
    result of [analyzeTextContent], as in [searchTwitter], no media row is
    ever written, because that result has no [mediaUrls].  For a relevant
    text the summary of the case row is the analyser's summary, so that
    [generateSummary] of the case management is not used, and the
    confidence of the case is 0.8. *)
Theorem analysed_post_case (source : SocialMediaSource) (currentYear : Z)
    (text : string) (w : World) :
  case_media
    (snd (createCaseFromSocialMedia faults clock source
            (AiAnalysis.asAnalysis (AiAnalysis.analyzeTextContent currentYear text)) w))
  = case_media w
  /\ (AiAnalysis.isRelevant (AiAnalysis.analyzeTextContent currentYear text) = true ->
      forall id now,
        case_summary
          (caseRowFor source
             (AiAnalysis.asAnalysis (AiAnalysis.analyzeTextContent currentYear text))
             id now)
        = AiAnalysis.ta_summary (AiAnalysis.analyzeTextContent currentYear text)
        /\ ai_confidence
             (caseRowFor source
                (AiAnalysis.asAnalysis (AiAnalysis.analyzeTextContent currentYear text))
                id now)
           == 0.8).
Proof.
  split.
  - apply analysed_post_without_media.
  - intros Hrel id now.
    destruct (relevant_text currentYear text Hrel) as [Hs Hn].
    unfold caseRowFor, newCaseRow. cbn [case_summary ai_confidence].
    unfold AiAnalysis.asAnalysis at 1 2. cbn [summary truthy render].
    apply String.eqb_neq in Hn. rewrite Hn. cbn [negb].
    split; [reflexivity|].
    unfold confidenceOf, AiAnalysis.asAnalysis. cbn [relevanceScore].
    destruct (Qeq_bool _ 0) eqn:E0; [|exact Hs].
    apply Qeq_bool_iff in E0. rewrite E0 in Hs. discriminate Hs.
Qed.

End AnalysedPosts.

(* ===================================================================== *)
(** ** Twitter search results *)
(* ===================================================================== *)

Section ExtractMediaFacts.

Local Open Scope string_scope.
Local Open Scope list_scope.

Lemma insertByBitrate_In (x y : VideoVariant) (l : list VideoVariant) :
  In y (insertByBitrate x l) <-> y = x \/ In y l.
Proof.
  induction l as [|z zs IH]; simpl.
  - intuition.
  - destruct (or_zero (bitrate x) <? or_zero (bitrate z))%Z; simpl;
      rewrite ?IH; intuition.
Qed.

Lemma sortByBitrate_In (y : VideoVariant) (l : list VideoVariant) :
  In y (sortByBitrate l) <-> In y l.
Proof.
  induction l as [|x xs IH]; simpl; [tauto|].
  rewrite insertByBitrate_In, IH. intuition.
Qed.

(** The first element after sorting has the highest bit rate. *)
Lemma sortByBitrate_head (l : list VideoVariant) (best : VideoVariant)
    (rest : list VideoVariant) :
  sortByBitrate l = best :: rest ->
  In best l
  /\ forall v, In v l -> (or_zero (bitrate v) <= or_zero (bitrate best))%Z.
Proof.
  intro H. split.
  { apply sortByBitrate_In. rewrite H. left. reflexivity. }
  revert best rest H.
  induction l as [|x xs IH]; intros best rest H v Hv; [contradiction|].
  cbn [sortByBitrate fold_right] in H. fold (sortByBitrate xs) in H.
  destruct (sortByBitrate xs) as [|y ys] eqn:E.
  - cbn in H. injection H as <- _.
    destruct Hv as [<-|Hv]; [lia|].
    apply sortByBitrate_In in Hv. rewrite E in Hv. contradiction.
  - cbn [insertByBitrate] in H.
    destruct (or_zero (bitrate x) <? or_zero (bitrate y))%Z eqn:C.
    + injection H as <- _. apply Z.ltb_lt in C.
      destruct Hv as [<-|Hv]; [lia|]. exact (IH y ys eq_refl v Hv).
    + injection H as <- _. apply Z.ltb_ge in C.
      destruct Hv as [<-|Hv]; [lia|].
      pose proof (IH y ys eq_refl v Hv). lia.
Qed.

Lemma videoOf_best (media : TweetMedia) (x : ExtractedMedia) :
  In x (videoOf media) ->
  xm_type x = "video"
  /\ exists variants best,
       tm_variants media = Some variants
       /\ In best variants /\ isMp4 best = true
       /\ xm_url x = variant_url best
       /\ forall v, In v variants -> isMp4 v = true ->
            (or_zero (bitrate v) <= or_zero (bitrate best))%Z.
Proof.
  unfold videoOf. destruct (tm_variants media) as [variants|]; [|contradiction].
  cbv zeta.
  destruct (sortByBitrate (filter isMp4 variants)) as [|best rest] eqn:E;
    [contradiction|].
  intros [<-|[]]. cbn [xm_type xm_url]. split; [reflexivity|].
  apply sortByBitrate_head in E. destruct E as [Hin Hmax].
  apply filter_In in Hin. destruct Hin as [Hin Hmp4].
  exists variants, best. repeat (split; [assumption || reflexivity|]).
  intros v Hv Hm. apply Hmax. apply filter_In. split; assumption.
Qed.

Lemma flat_map_at_most_one (A B : Type) (f : A -> list B) (l : list A) :
  (forall x, List.length (f x) <= 1)%nat ->
  (List.length (flat_map f l) <= List.length l)%nat.
Proof.
  intro H. induction l as [|x xs IH]; cbn; [lia|].
  rewrite length_app. specialize (H x). lia.
Qed.


End ExtractMediaFacts.

Section TwitterFacts.

Variable faults : nat -> bool.
Variable clock : nat -> Z.
Variable getFullYear : Z -> Z.
Variable toISOString : Z -> string.
Variable parseDate : string -> option Z.
Variable invalidTimeValue : Error.

Local Open Scope string_scope.
Local Open Scope list_scope.

Lemma onlyClock_refl (w : World) : onlyClock 0 w w.
Proof.
  unfold onlyClock, sameTables, both, unchanged. rewrite Nat.add_0_r. intuition.
Qed.

Lemma onlyClock_trans (n m : nat) (w1 w2 w3 : World) :
  onlyClock n w1 w2 -> onlyClock m w2 w3 -> onlyClock (n + m) w1 w3.
Proof.
  unfold onlyClock, sameTables, both, unchanged.
  intros [[C1 [S1 [U1 [M1 R1]]]] [N1 [T1 [O1 K1]]]]
         [[C2 [S2 [U2 [M2 R2]]]] [N2 [T2 [O2 K2]]]].
  repeat split; try congruence. lia.
Qed.

(** A tweet is kept exactly when its text names a Tesla keyword and a
    vandalism keyword. *)
Lemma analyzeTweet_run (tweet : Tweet) (w : World) :
  exists ts w',
    analyzeTweet clock getFullYear tweet w = (Returned ts, w')
    /\ onlyClock 1 w w'
    /\ map rt_tweet ts = filter mentionsTeslaVandalism [tweet]
    /\ Forall (analysedAt clock getFullYear) ts.
Proof.
  unfold analyzeTweet. cbv zeta. unfold bind, newDate, readClock, ret.
  cbn [fst snd].
  pose proof (analyzeTextContent_relevant_iff
                (getFullYear (clock (clock_reads w)))
                (or_str (full_text tweet) "")) as Hrel.
  eexists _, _. split; [reflexivity|]. split.
  { unfold onlyClock, sameTables, both, unchanged. cbn.
    rewrite Nat.add_1_r. intuition. }
  cbn [filter]. unfold mentionsTeslaVandalism. cbv zeta. rewrite <- Hrel.
  destruct (AiAnalysis.isRelevant _).
  - split; [reflexivity|]. constructor; [|constructor].
    exists (clock_reads w). reflexivity.
  - split; [reflexivity|constructor].
Qed.

Section Collect.

Variable A : Type.
Variable f : A -> M (list RelevantTweet).
Variable tweetsOf : A -> list Tweet.

Hypothesis f_run :
  forall x w,
  exists ts w',
    f x w = (Returned ts, w')
    /\ onlyClock (List.length (tweetsOf x)) w w'
    /\ map rt_tweet ts = filter mentionsTeslaVandalism (tweetsOf x)
    /\ Forall (analysedAt clock getFullYear) ts.

Lemma forEachCollect_run (l : list A) :
  forall w,
  exists ts w',
    forEachCollect f l w = (Returned ts, w')
    /\ onlyClock (List.length (flat_map tweetsOf l)) w w'
    /\ map rt_tweet ts = filter mentionsTeslaVandalism (flat_map tweetsOf l)
    /\ Forall (analysedAt clock getFullYear) ts.
Proof.
  induction l as [|x xs IH]; intro w.
  - exists [], w. split; [reflexivity|]. split; [apply onlyClock_refl|].
    split; [reflexivity|constructor].
  - destruct (f_run x w) as [ys [w1 [E1 [C1 [M1 F1]]]]].
    destruct (IH w1) as [zs [w2 [E2 [C2 [M2 F2]]]]].
    exists (ys ++ zs), w2. split.
    + cbn [forEachCollect]. unfold bind at 1. rewrite E1.
      unfold bind at 1. rewrite E2. reflexivity.
    + cbn [flat_map]. rewrite length_app, filter_app, map_app, M1, M2.
      split; [eapply onlyClock_trans; eassumption|].
      split; [reflexivity|]. apply Forall_app. split; assumption.
Qed.

End Collect.

Lemma ret_nil_run (w : World) :
  exists ts w',
    (ret [] : M (list RelevantTweet)) w = (Returned ts, w')
    /\ onlyClock 0 w w'
    /\ map rt_tweet ts = filter mentionsTeslaVandalism []
    /\ Forall (analysedAt clock getFullYear) ts.
Proof.
  exists [], w. split; [reflexivity|]. split; [apply onlyClock_refl|].
  split; [reflexivity|constructor].
Qed.

(** The run of [analyzeTwitterSearchResults]. *)
Lemma analyzeTwitterSearchResults_run (response : TwitterSearchResponse) (w : World) :
  exists tweets w',
    analyzeTwitterSearchResults clock getFullYear response w = (Returned tweets, w')
    /\ onlyClock (List.length (allTweets response)) w w'
    /\ map rt_tweet tweets = filter mentionsTeslaVandalism (allTweets response)
    /\ Forall (analysedAt clock getFullYear) tweets.
Proof.
  unfold analyzeTwitterSearchResults, allTweets.
  destruct (instructions response) as [l|]; [|apply ret_nil_run].
  apply forEachCollect_run with (tweetsOf := tweetsOfInstruction).
  intros instruction w1. unfold tweetsOfInstruction.
  destruct (entries instruction) as [es|]; [|apply ret_nil_run].
  apply forEachCollect_run with (tweetsOf := tweetsOfEntry).
  intros entry w2. unfold tweetsOfEntry.
  destruct (entry_items entry) as [items|]; [|apply ret_nil_run].
  apply forEachCollect_run with (tweetsOf := tweetsOfItem).
  intros item w3. unfold tweetsOfItem.
  destruct (tweet_result item) as [tweet|]; [|apply ret_nil_run].
  apply analyzeTweet_run.
Qed.

(** X27.  [analyzeTwitterSearchResults] never throws and touches nothing
    but the clock, which it reads once per tweet of the response.  Its
    result holds, in the order of the response, exactly the tweets whose
    text contains a Tesla keyword and a vandalism keyword, each with the
    analysis of its text (a relevant one), its id, author and date, and
    its media; so there are at most as many results as tweets. *)
Theorem relevant_tweets (response : TwitterSearchResponse) (w : World) :
  exists tweets w',
    analyzeTwitterSearchResults clock getFullYear response w = (Returned tweets, w')
    /\ onlyClock (List.length (allTweets response)) w w'
    /\ map rt_tweet tweets = filter mentionsTeslaVandalism (allTweets response)
    /\ (List.length tweets <= List.length (allTweets response))%nat
    /\ Forall (fun t =>
                 AiAnalysis.isRelevant (rt_analysis t) = true
                 /\ exists n,
                      t = relevantTweetOf (getFullYear (clock n)) (rt_tweet t))
         tweets.
Proof.
  destruct (analyzeTwitterSearchResults_run response w)
    as [tweets [w' [E [C [Hmap Han]]]]].
  exists tweets, w'. split; [exact E|]. split; [exact C|]. split; [exact Hmap|].
  split.
  - rewrite <- (length_map rt_tweet), Hmap. apply filter_length_le.
  - rewrite Forall_forall in Han |- *. intros t Ht.
    destruct (Han t Ht) as [n Hn]. split; [|exists n; exact Hn].
    assert (Hin : In (rt_tweet t) (map rt_tweet tweets)) by (apply in_map; exact Ht).
    rewrite Hmap in Hin. apply filter_In in Hin. destruct Hin as [_ Hrel].
    rewrite Hn. cbn [rt_analysis relevantTweetOf].
    rewrite analyzeTextContent_relevant_iff. exact Hrel.
Qed.

End TwitterFacts.

Section SearchTwitterFacts.

Variable faults : nat -> bool.
Variable clock : nat -> Z.
Variable getFullYear : Z -> Z.
Variable toISOString : Z -> string.
Variable parseDate : string -> option Z.
Variable invalidTimeValue : Error.

Local Open Scope string_scope.
Local Open Scope list_scope.

Lemma mapM_length (A B : Type) (f : A -> M B) (l : list A) :
  forall (w w' : World) (ys : list B),
  mapM f l w = (Returned ys, w') -> List.length ys = List.length l.
Proof.
  induction l as [|x xs IH]; intros w w' ys H; simpl in H.
  - inversion H. reflexivity.
  - apply bind_inv_Returned in H. destruct H as [y [w1 [_ H]]].
    apply bind_inv_Returned in H. destruct H as [zs [w2 [Hz H]]].
    inversion H. subst. cbn. f_equal. eapply IH. exact Hz.
Qed.

(** A loop that has returned has returned for each element. *)
Lemma mapM_each (A B : Type) (f : A -> M B) (l : list A) :
  forall (w w' : World) (ys : list B),
  mapM f l w = (Returned ys, w') ->
  forall x, In x l -> exists w1 y w2, f x w1 = (Returned y, w2).
Proof.
  induction l as [|a xs IH]; intros w w' ys H x Hx; [contradiction|].
  simpl in H.
  apply bind_inv_Returned in H. destruct H as [y [w1 [Hy H]]].
  apply bind_inv_Returned in H. destruct H as [zs [w2 [Hz H]]].
  destruct Hx as [<-|Hx]; [eauto|].
  eapply IH; eassumption.
Qed.

Lemma filter_partition_length (A : Type) (p : A -> bool) (l : list A) :
  (List.length (filter (fun x => p x) l)
   + List.length (filter (fun x => negb (p x)) l))%nat = List.length l.
Proof.
  induction l as [|x xs IH]; cbn; [reflexivity|].
  destruct (p x); cbn; lia.
Qed.

Lemma analyzeTwitterSearchResults_stable (response : TwitterSearchResponse) :
  stable (unchanged case_media)
    (analyzeTwitterSearchResults clock getFullYear response).
Proof.
  intro w.
  destruct (analyzeTwitterSearchResults_run clock getFullYear response w)
    as [tweets [w' [E [[T _] _]]]].
  rewrite E. cbn [snd]. unfold sameTables, both in T. intuition.
Qed.

Lemma searchTwitterOn_stable (response : TwitterSearchResponse) (query : string) :
  stable (unchanged case_media)
    (searchTwitterOn faults clock getFullYear toISOString parseDate
       invalidTimeValue response query).
Proof.
  assert (F : Frame (unchanged case_media)) by frame.
  assert (C : stable (unchanged case_media) (newDate clock))
    by (apply newDate_stable; reflexivity).
  unfold searchTwitterOn.
  apply stable_rethrow; [exact F|].
  apply stable_bind; [exact F|exact C|intro startTime].
  apply stable_bind; [exact F|apply analyzeTwitterSearchResults_stable|intro tweets].
  apply stable_bind; [exact F| |intro processed].
  - apply stable_mapM; [exact F|]. intro tweet. unfold processTweet.
    apply stable_bind; [exact F| |intro posted_at].
    + unfold isoOf. destruct (parseDate (postedAt tweet));
        [apply stable_ret|apply stable_throw]; exact F.
    + apply analysed_post_without_media.
  - cbv zeta.
    apply stable_bind; [exact F|exact C|intro endTime].
    apply stable_bind; [exact F|exact C|intro timestamp].
    apply stable_ret; exact F.
Qed.

(** X28.  [searchTwitter] from the response on: it never writes a media
    row, whatever the tweets carry.  When it returns, [relevantPosts] is the
    number of tweets of the response whose text contains a Tesla keyword
    and a vandalism keyword, [newCases] and [updatedCases] add up to it,
    [newPosts] is the number of entries of the first instruction, and the
    date of every such tweet could be parsed: one relevant tweet with an
    invalid date makes the whole search throw. *)
Theorem searchTwitterOn_counts (response : TwitterSearchResponse) (query : string)
    (w : World) :
  case_media
    (snd (searchTwitterOn faults clock getFullYear toISOString parseDate
            invalidTimeValue response query w))
  = case_media w
  /\ forall r,
       fst (searchTwitterOn faults clock getFullYear toISOString parseDate
              invalidTimeValue response query w) = Returned r ->
       relevantPosts r
       = List.length (filter mentionsTeslaVandalism (allTweets response))
       /\ (newCases r + updatedCases r)%nat = relevantPosts r
       /\ newPosts r = firstEntries response
       /\ mr_query r = query
       /\ forall tweet,
            In tweet (allTweets response) ->
            mentionsTeslaVandalism tweet = true ->
            parseDate (or_str (tweet_created_at tweet) "") <> None.
Proof.
  split; [apply searchTwitterOn_stable|].
  intros r H.
  destruct (searchTwitterOn faults clock getFullYear toISOString parseDate
              invalidTimeValue response query w) as [o w'] eqn:E.
  cbn [fst] in H. subst o.
  unfold searchTwitterOn in E. apply rethrow_inv_Returned in E.
  apply bind_inv_Returned in E. destruct E as [startTime [w1 [_ E]]].
  apply bind_inv_Returned in E. destruct E as [tweets [w2 [Ht E]]].
  apply bind_inv_Returned in E. destruct E as [processed [w3 [Hp E]]].
  cbv zeta in E.
  apply bind_inv_Returned in E. destruct E as [endTime [w4 [_ E]]].
  apply bind_inv_Returned in E. destruct E as [timestamp [w5 [_ E]]].
  unfold ret in E. injection E as <- _.
  cbn [relevantPosts newCases updatedCases newPosts mr_query].
  destruct (analyzeTwitterSearchResults_run clock getFullYear response w1)
    as [tweets' [w2' [Ht' [_ [Hmap Han]]]]].
  rewrite Ht in Ht'. injection Ht' as <- <-.
  split.
  { rewrite <- Hmap, length_map. reflexivity. }
  split.
  { rewrite filter_partition_length. eapply mapM_length. exact Hp. }
  split; [reflexivity|]. split; [reflexivity|].
  intros tweet Hin Hrel Hdate.
  assert (Hf : In tweet (map rt_tweet tweets)).
  { rewrite Hmap. apply filter_In. split; assumption. }
  apply in_map_iff in Hf. destruct Hf as [t [Htw Ht_in]].
  destruct (@mapM_each _ _ _ _ _ _ _ Hp t Ht_in) as [wa [y [wb Hrun]]].
  unfold processTweet in Hrun.
  apply bind_inv_Returned in Hrun. destruct Hrun as [iso [wc [Hiso _]]].
  rewrite Forall_forall in Han. destruct (Han t Ht_in) as [n Hn].
  unfold isoOf in Hiso. rewrite Hn in Hiso. cbn [postedAt relevantTweetOf] in Hiso.
  rewrite Htw, Hdate in Hiso. discriminate Hiso.
Qed.

(** X29.  [searchTwitter] as it stands never finds anything: the search is
    simulated by a response without entries, so that for every query the
    result reports no new post, no relevant post, no new case and no
    updated case, and no table is touched and no repository call is made;
    the clock is read three times. *)
Theorem searchTwitter_finds_nothing (query : string) (count : Z) (cursor : JsStr)
    (w : World) :
  exists r w',
    searchTwitter faults clock getFullYear toISOString parseDate invalidTimeValue
      query count cursor w = (Returned r, w')
    /\ newPosts r = 0%nat /\ relevantPosts r = 0%nat
    /\ newCases r = 0%nat /\ updatedCases r = 0%nat
    /\ mr_platform r = "twitter" /\ mr_query r = query
    /\ processingTime r
       = (inject_Z (clock (S (clock_reads w)) - clock (clock_reads w)) / 1000)%Q
    /\ mr_timestamp r = toISOString (clock (S (S (clock_reads w))))
    /\ onlyClock 3 w w'.
Proof.
  eexists _, _. split; [reflexivity|]. cbn.
  repeat (split; [reflexivity|]).
  unfold onlyClock, sameTables, both, unchanged. cbn.
  repeat split; try reflexivity. lia.
Qed.

End SearchTwitterFacts.

Section LocationFound.

Import Regex.

Local Open Scope string_scope.
Local Open Scope list_scope.

(** A greedy run takes every character of the class when what follows is
    accepted after them. *)
Lemma run_Star_Class_greedy (ignoreCase : bool) (R : Type) (p : ascii -> bool)
    (k : option ascii -> list ascii -> list string -> option R)
    (caps : list string) (x : R) (rest : list ascii) :
  match rest with c :: _ => p c = false | [] => True end ->
  forall (w : list ascii) (prev : option ascii),
  Forall (fun c => p c = true) w ->
  k (fold_left (fun _ c => Some c) w prev) rest caps = Some x ->
  run ignoreCase (Star (Class p)) prev (w ++ rest) caps k = Some x.
Proof.
  intros Hrest w prev. cbn [run].
  assert (G : forall fuel, (List.length (w ++ rest) < fuel)%nat ->
              Forall (fun c => p c = true) w ->
              k (fold_left (fun _ c => Some c) w prev) rest caps = Some x ->
              (fix loop (fuel : nat) (prev : option ascii) (s : list ascii)
                   (caps : list string) {struct fuel} : option R :=
                 match fuel with
                 | O => k prev s caps
                 | S fuel' =>
                     match
                       match s with
                       | [] => None
                       | c :: s' =>
                           if p c
                           then if Nat.ltb (List.length s') (List.length s)
                                then loop fuel' (Some c) s' caps
                                else None
                           else None
                       end
                     with
                     | Some x => Some x
                     | None => k prev s caps
                     end
                 end) fuel prev (w ++ rest) caps = Some x).
  { revert prev. induction w as [|c w' IH]; intros prev fuel Hfuel Hw Hk.
    - cbn [app fold_left] in *. destruct fuel as [|fuel]; [exact Hk|].
      destruct rest as [|c rest']; [exact Hk|]. rewrite Hrest. exact Hk.
    - destruct fuel as [|fuel]; [cbn in Hfuel; lia|].
      inversion Hw as [|? ? Pc Hw']. subst.
      cbn [app]. rewrite Pc.
      assert (L : Nat.ltb (List.length (w' ++ rest))
                    (List.length (c :: w' ++ rest)) = true)
        by (apply Nat.ltb_lt; cbn; lia).
      rewrite L. rewrite (IH (Some c) fuel); [reflexivity| |exact Hw'|exact Hk].
      cbn in Hfuel. lia. }
  intros Hw Hk. apply G; [unfold iterations; lia|exact Hw|exact Hk].
Qed.

Lemma isUpper_not_space (c : ascii) : isUpper c = true -> isSpace c = false.
Proof.
  unfold isUpper, isSpace, inRange. intro H.
  apply andb_true_iff in H. destruct H as [H1 H2].
  apply N.leb_le in H1, H2.
  apply orb_false_iff. split.
  - apply N.eqb_neq. lia.
  - apply andb_false_iff. right. apply N.leb_gt. lia.
Qed.

(** The pattern matches where the words "in", a city, a comma and a state
    stand. *)
Lemma cityStatePattern_here (index : nat) (prev : option ascii) (c0 : ascii)
    (w sp post : list ascii) (a b : ascii) :
  Forall (fun c => AiAnalysis.letterOrSpace c = true) (c0 :: w) ->
  Forall (fun c => isSpace c = true) sp ->
  isUpper a = true -> isUpper b = true ->
  exists m,
    matchHere false AiAnalysis.cityStatePattern index prev
      (list_ascii_of_string "in " ++ (c0 :: w)
       ++ list_ascii_of_string "," ++ sp ++ [a; b] ++ post) = Some m
    /\ m_groups m = [string_of_list_ascii (c0 :: w); string_of_list_ascii [a; b]].
Proof.
  intros Hw Hsp Ua Ub. inversion Hw as [|? ? P0 Hw']. subst.
  unfold matchHere, AiAnalysis.cityStatePattern, Plus.
  cbn [run readChars list_ascii_of_string app sameChar Ascii.eqb Bool.eqb andb].
  rewrite P0.
  eexists. split.
  - apply (@run_Star_Class_greedy false); [reflexivity|exact Hw'|].
    cbn [run readChars list_ascii_of_string app sameChar Ascii.eqb Bool.eqb andb].
    apply (@run_Star_Class_greedy false); [apply isUpper_not_space; exact Ua|exact Hsp|].
    cbn [run]. rewrite Ua, Ub. reflexivity.
  - cbn [m_groups app]. f_equal; [|f_equal]; f_equal.
    + match goal with
      | |- firstn ?k _ = _ =>
          replace k with (List.length (c0 :: w))
      end.
      * cbn [List.length firstn]. f_equal.
        rewrite firstn_app, firstn_all, Nat.sub_diag. cbn [firstn].
        apply app_nil_r.
      * cbn [List.length]. rewrite length_app. cbn [List.length]. lia.
    + match goal with
      | |- firstn ?k _ = _ => replace k with 2%nat
      end; [reflexivity|].
      cbn [List.length]. lia.
Qed.

Lemma prefix_empty (s : string) : String.prefix "" s = true.
Proof. destruct s; reflexivity. Qed.

Lemma prefix_same (a : ascii) (s1 s2 : string) :
  String.prefix (String a s1) (String a s2) = String.prefix s1 s2.
Proof.
  cbn [String.prefix]. destruct (ascii_dec a a) as [_|N]; [reflexivity|].
  exfalso. apply N. reflexivity.
Qed.

(** No match begins where the characters "in " do not stand. *)
Lemma cityStatePattern_not_here (index : nat) (prev : option ascii) (c : ascii)
    (pre tail : list ascii) :
  String.prefix "in " (String c (string_of_list_ascii pre ++ "in")) = false ->
  matchHere false AiAnalysis.cityStatePattern index prev
    (c :: pre ++ list_ascii_of_string "in " ++ tail) = None.
Proof.
  intro H. unfold matchHere, AiAnalysis.cityStatePattern.
  cbn [run].
  assert (E : readChars false (list_ascii_of_string "in ") prev
                (c :: pre ++ list_ascii_of_string "in " ++ tail) = None);
    [|rewrite E; reflexivity].
  cbn [readChars list_ascii_of_string sameChar].
  destruct (Ascii.eqb_spec "i" c) as [<-|Nc]; [|reflexivity].
  destruct pre as [|d pre]; [reflexivity|]. cbn [app].
  destruct (Ascii.eqb_spec "n" d) as [<-|Nd]; [|reflexivity].
  destruct pre as [|e pre]; [reflexivity|]. cbn [app].
  destruct (Ascii.eqb_spec " " e) as [<-|Ne]; [|reflexivity].
  exfalso. cbn [string_of_list_ascii String.append] in H.
  rewrite !prefix_same, prefix_empty in H. discriminate H.
Qed.

(** The search passes over a beginning in which "in " does not occur. *)
Lemma execFrom_skip (pre tail : list ascii) :
  includes (string_of_list_ascii pre ++ "in") "in " = false ->
  forall (index : nat) (prev : option ascii),
  exists index' prev',
    execFrom false AiAnalysis.cityStatePattern index prev
      (pre ++ list_ascii_of_string "in " ++ tail)
    = execFrom false AiAnalysis.cityStatePattern index' prev'
        (list_ascii_of_string "in " ++ tail).
Proof.
  induction pre as [|c pre IH]; intros H index prev.
  - exists index, prev. reflexivity.
  - cbn [string_of_list_ascii String.append includes] in H.
    apply orb_false_iff in H. destruct H as [Hp Hi].
    destruct (IH Hi (S index) (Some c)) as [index' [prev' E]].
    exists index', prev'.
    cbn [app execFrom].
    rewrite (cityStatePattern_not_here index prev c pre tail Hp).
    exact E.
Qed.

(** X30.  In a text in which the characters "in " first occur followed by
    letters and white space (the city), a comma, any white space and two
    capital letters (the state), [extractLocationInfo] finds that city,
    without the white space at its ends, and that state, with confidence
    0.8. *)
Theorem city_and_state_are_found (pre : list ascii) (c0 : ascii)
    (w sp post : list ascii) (a b : ascii) :
  includes (string_of_list_ascii pre ++ "in") "in " = false ->
  Forall (fun c => AiAnalysis.letterOrSpace c = true) (c0 :: w) ->
  Forall (fun c => isSpace c = true) sp ->
  isUpper a = true -> isUpper b = true ->
  AiAnalysis.extractLocationInfo
    (string_of_list_ascii
       (pre ++ list_ascii_of_string "in " ++ (c0 :: w)
        ++ list_ascii_of_string "," ++ sp ++ [a; b] ++ post))
  = {| AiAnalysis.el_city := trim (string_of_list_ascii (c0 :: w));
       AiAnalysis.el_state := string_of_list_ascii [a; b];
       AiAnalysis.el_country := "US";
       AiAnalysis.el_confidence := 0.8%Q |}.
Proof.
  intros Hpre Hw Hsp Ua Ub.
  unfold AiAnalysis.extractLocationInfo, exec. cbv zeta.
  rewrite list_ascii_of_string_of_list_ascii.
  destruct (execFrom_skip pre
              ((c0 :: w) ++ list_ascii_of_string "," ++ sp ++ [a; b] ++ post)
              Hpre 0%nat None) as [index [prev E]].
  rewrite E.
  destruct (@cityStatePattern_here index prev c0 w sp post a b Hw Hsp Ua Ub)
    as [m [Hm Hg]].
  assert (E2 : execFrom false AiAnalysis.cityStatePattern index prev
                 (list_ascii_of_string "in " ++ (c0 :: w)
                  ++ list_ascii_of_string "," ++ sp ++ [a; b] ++ post) = Some m).
  { cbn [list_ascii_of_string app execFrom].
    cbn [list_ascii_of_string app] in Hm. rewrite Hm. reflexivity. }
  rewrite E2, Hg. reflexivity.
Qed.

End LocationFound.

Lemma city_and_state_are_found_witness :
  AiAnalysis.extractLocationInfo "Tesla keyed in Austin,  TX today"
  = {| AiAnalysis.el_city := "Austin";
       AiAnalysis.el_state := "TX";
       AiAnalysis.el_country := "US";
       AiAnalysis.el_confidence := 0.8%Q |}.
Proof.
  apply (@city_and_state_are_found
           (list_ascii_of_string "Tesla keyed ") "A"%char
           (list_ascii_of_string "ustin") (list_ascii_of_string "  ")
           (list_ascii_of_string " today") "T"%char "X"%char).
  - reflexivity.
  - repeat constructor.
  - repeat constructor.
  - reflexivity.
  - reflexivity.
Defined.

(* ===================================================================== *)
(** ** The matcher and the posts of the scenarios *)
(* ===================================================================== *)

Section MatcherFacts.

Import Regex.

Variable ignoreCase : bool.
Variable R : Type.

(** The continuation is run on a rest of the input. *)
Lemma run_rest (r : Regex) :
  forall (prev : option ascii) (s : list ascii) (caps : list string)
         (k : option ascii -> list ascii -> list string -> option R) (x : R),
  run ignoreCase r prev s caps k = Some x ->
  exists prev' s' caps',
    k prev' s' caps' = Some x /\ (List.length s' <= List.length s)%nat.
Proof.
  induction r as [l|p|r1 IH1 r2 IH2|r1 IH1 r2 IH2|r IH|r IH|];
    intros prev s caps k x H; cbn [run] in H.
  - destruct (readChars ignoreCase (list_ascii_of_string l) prev s)
      as [[prev' s']|] eqn:E; [|discriminate].
    apply readChars_length in E. exists prev', s', caps. split; [exact H|lia].
  - destruct s as [|c s']; [discriminate|].
    destruct (p c); [|discriminate].
    exists (Some c), s', caps. split; [exact H|cbn; lia].
  - apply IH1 in H. destruct H as [p1 [s1 [c1 [H L1]]]].
    apply IH2 in H. destruct H as [p2 [s2 [c2 [H L2]]]].
    exists p2, s2, c2. split; [exact H|lia].
  - destruct (run ignoreCase r1 prev s caps k) as [y|] eqn:E.
    + injection H as <-. apply IH1 in E. exact E.
    + apply IH2 in H. exact H.
  - revert H. generalize (iterations s) as fuel. intro fuel.
    revert prev s caps.
    induction fuel as [|fuel IHf]; intros prev s caps H.
    + exists prev, s, caps. split; [exact H|lia].
    + match type of H with
      | match ?inner with _ => _ end = _ => destruct inner as [y|] eqn:E
      end.
      * injection H as <-. apply IH in E.
        destruct E as [p1 [s1 [c1 [E L1]]]].
        destruct (Nat.ltb (List.length s1) (List.length s)); [|discriminate].
        apply IHf in E. destruct E as [p2 [s2 [c2 [E L2]]]].
        exists p2, s2, c2. split; [exact E|lia].
      * exists prev, s, caps. split; [exact H|lia].
  - apply IH in H. destruct H as [p1 [s1 [c1 [H L1]]]].
    eexists _, _, _. split; [exact H|exact L1].
  - destruct (xorb _ _); [|discriminate].
    exists prev, s, caps. split; [exact H|lia].
Qed.

(** Only what the continuation does on a rest of the input matters. *)
Lemma run_ext (r : Regex) :
  forall (prev : option ascii) (s : list ascii) (caps : list string)
         (k1 k2 : option ascii -> list ascii -> list string -> option R),
  (forall prev' s' caps',
     (List.length s' <= List.length s)%nat -> k1 prev' s' caps' = k2 prev' s' caps') ->
  run ignoreCase r prev s caps k1 = run ignoreCase r prev s caps k2.
Proof.
  induction r as [l|p|r1 IH1 r2 IH2|r1 IH1 r2 IH2|r IH|r IH|];
    intros prev s caps k1 k2 H; cbn [run].
  - destruct (readChars ignoreCase (list_ascii_of_string l) prev s)
      as [[prev' s']|] eqn:E; [|reflexivity].
    apply readChars_length in E. apply H. lia.
  - destruct s as [|c s']; [reflexivity|].
    destruct (p c); [|reflexivity]. apply H. cbn. lia.
  - apply IH1. intros p1 s1 c1 L1. apply IH2.
    intros p2 s2 c2 L2. apply H. lia.
  - rewrite (IH1 prev s caps k1 k2 H), (IH2 prev s caps k1 k2 H). reflexivity.
  - generalize (iterations s) as fuel. intro fuel.
    assert (G : forall s0, (List.length s0 <= List.length s)%nat ->
                forall prev0 caps0,
                (fix loop (fuel : nat) (prev : option ascii) (s : list ascii)
                     (caps : list string) {struct fuel} : option R :=
                   match fuel with
                   | O => k1 prev s caps
                   | S fuel' =>
                       match run ignoreCase r prev s caps
                               (fun prev' s' caps' =>
                                  if Nat.ltb (List.length s') (List.length s)
                                  then loop fuel' prev' s' caps'
                                  else None) with
                       | Some x => Some x
                       | None => k1 prev s caps
                       end
                   end) fuel prev0 s0 caps0
                = (fix loop (fuel : nat) (prev : option ascii) (s : list ascii)
                       (caps : list string) {struct fuel} : option R :=
                     match fuel with
                     | O => k2 prev s caps
                     | S fuel' =>
                         match run ignoreCase r prev s caps
                                 (fun prev' s' caps' =>
                                    if Nat.ltb (List.length s') (List.length s)
                                    then loop fuel' prev' s' caps'
                                    else None) with
                         | Some x => Some x
                         | None => k2 prev s caps
                         end
                     end) fuel prev0 s0 caps0).
    { induction fuel as [|fuel IHf]; intros s0 L0 prev0 caps0.
      - apply H. exact L0.
      - rewrite (H prev0 s0 caps0 L0).
        match goal with
        | |- match ?a with _ => _ end = match ?b with _ => _ end =>
            replace a with b; [reflexivity|]
        end.
        apply IH. intros p1 s1 c1 L1.
        destruct (Nat.ltb (List.length s1) (List.length s0)); [|reflexivity].
        symmetry. apply IHf. lia. }
    apply G. lia.
  - apply IH. intros p1 s1 c1 L1. apply H. exact L1.
  - destruct (xorb _ _); [|reflexivity]. apply H. lia.
Qed.

(** The repetition is the greedy one of JavaScript: one more match of [r]
    that reads something, then the repetition again, and only when that
    fails what follows; the bound on the iterations is never reached. *)
Lemma run_Star_unfold (r : Regex) (prev : option ascii) (s : list ascii)
    (caps : list string)
    (k : option ascii -> list ascii -> list string -> option R) :
  run ignoreCase (Star r) prev s caps k
  = match run ignoreCase r prev s caps
            (fun prev' s' caps' =>
               if Nat.ltb (List.length s') (List.length s)
               then run ignoreCase (Star r) prev' s' caps' k
               else None) with
    | Some x => Some x
    | None => k prev s caps
    end.
Proof.
  assert (G : forall fuel1 fuel2 s0 prev0 caps0,
            (List.length s0 < fuel1)%nat -> (List.length s0 < fuel2)%nat ->
            (fix loop (fuel : nat) (prev : option ascii) (s : list ascii)
                 (caps : list string) {struct fuel} : option R :=
               match fuel with
               | O => k prev s caps
               | S fuel' =>
                   match run ignoreCase r prev s caps
                           (fun prev' s' caps' =>
                              if Nat.ltb (List.length s') (List.length s)
                              then loop fuel' prev' s' caps'
                              else None) with
                   | Some x => Some x
                   | None => k prev s caps
                   end
               end) fuel1 prev0 s0 caps0
            = (fix loop (fuel : nat) (prev : option ascii) (s : list ascii)
                   (caps : list string) {struct fuel} : option R :=
                 match fuel with
                 | O => k prev s caps
                 | S fuel' =>
                     match run ignoreCase r prev s caps
                             (fun prev' s' caps' =>
                                if Nat.ltb (List.length s') (List.length s)
                                then loop fuel' prev' s' caps'
                                else None) with
                     | Some x => Some x
                     | None => k prev s caps
                     end
                 end) fuel2 prev0 s0 caps0).
  { induction fuel1 as [|fuel1 IHf]; intros fuel2 s0 prev0 caps0 L1 L2; [lia|].
    destruct fuel2 as [|fuel2]; [lia|].
    match goal with
    | |- match ?a with _ => _ end = match ?b with _ => _ end =>
        replace a with b; [reflexivity|]
    end.
    apply run_ext. intros p1 s1 c1 L.
    destruct (Nat.ltb (List.length s1) (List.length s0)) eqn:E; [|reflexivity].
    apply Nat.ltb_lt in E. symmetry. apply IHf; lia. }
  cbn [run]. unfold iterations at 1.
  match goal with
  | |- match ?a with _ => _ end = match ?b with _ => _ end =>
      replace a with b; [reflexivity|]
  end.
  apply run_ext. intros p1 s1 c1 L.
  destruct (Nat.ltb (List.length s1) (List.length s)) eqn:E; [|reflexivity].
  apply Nat.ltb_lt in E. apply G; unfold iterations; lia.
Qed.

(** A pattern that begins with a character of a class reads at least one
    character. *)
Lemma run_reads_one (p : ascii -> bool) (r1 r2 : Regex) :
  forall (prev : option ascii) (s : list ascii) (caps : list string)
         (k : option ascii -> list ascii -> list string -> option R) (x : R),
  run ignoreCase (Seq (Group (Seq (Class p) r1)) r2) prev s caps k = Some x ->
  exists prev' s' caps',
    k prev' s' caps' = Some x /\ (List.length s' < List.length s)%nat.
Proof.
  intros prev s caps k x H. cbn [run] in H.
  destruct s as [|c s1]; [discriminate|].
  destruct (p c); [|discriminate].
  apply run_rest in H. destruct H as [p1 [s2 [c2 [H L2]]]].
  apply run_rest in H. destruct H as [p3 [s3 [c3 [H L3]]]].
  exists p3, s3, c3. split; [exact H|cbn; lia].
Qed.

End MatcherFacts.

Section EntityFacts.

Import Regex.

(** A match of the name pattern is not empty: what follows it is shorter
    than the text it was found in. *)
Lemma namePattern_progress (s : list ascii) :
  forall (index : nat) (prev : option ascii) (m : Match),
  execFrom false AiAnalysis.namePattern index prev s = Some m ->
  (List.length (m_rest m) < List.length s)%nat.
Proof.
  induction s as [|c s IH]; intros index prev m H; cbn [execFrom] in H.
  - unfold matchHere, AiAnalysis.namePattern in H. cbn [run] in H. discriminate.
  - destruct (matchHere false AiAnalysis.namePattern index prev (c :: s)) as [m'|] eqn:E.
    + injection H as <-.
      unfold matchHere, AiAnalysis.namePattern in E.
      apply run_reads_one in E. destruct E as [p1 [s1 [c1 [E L]]]].
      injection E as <-. cbn [m_rest]. exact L.
    + apply IH in H. cbn. lia.
Qed.

(** The bound on the number of matches is never reached: more fuel finds
    the same entities. *)
Lemma execAll_enough (fuel : nat) :
  forall (extra index : nat) (prev : option ascii) (s : list ascii),
  (List.length s <= fuel)%nat ->
  execAll (fuel + extra) false AiAnalysis.namePattern index prev s
  = execAll fuel false AiAnalysis.namePattern index prev s.
Proof.
  induction fuel as [|fuel IH]; intros extra index prev s Hs.
  - destruct s; [|cbn in Hs; lia].
    destruct extra; [reflexivity|]. cbn [Nat.add execAll execFrom].
    unfold matchHere, AiAnalysis.namePattern. cbn [run]. reflexivity.
  - cbn [Nat.add execAll].
    destruct (execFrom false AiAnalysis.namePattern index prev s) as [m|] eqn:E;
      [|reflexivity].
    f_equal. apply IH.
    apply namePattern_progress in E. lia.
Qed.

End EntityFacts.

Section ScenarioAnalyses.

Local Open Scope string_scope.
Local Open Scope Q_scope.

(** The analyses of the scenarios are what [analyzeTextContent] returns for
    their texts, in any year. *)
Lemma scenario_analyses (currentYear : Z) :
  (let a := AiAnalysis.asAnalysis
              (AiAnalysis.analyzeTextContent currentYear Scenario.austinText) in
   vehicleInfo a = vehicleInfo Scenario.austinAnalysis
   /\ summary a = summary Scenario.austinAnalysis
   /\ locationInfo a = locationInfo Scenario.austinAnalysis
   /\ text a = text Scenario.austinAnalysis
   /\ mediaUrls a = mediaUrls Scenario.austinAnalysis
   /\ an_platform a = an_platform Scenario.austinAnalysis
   /\ relevanceScore a = Some (0.8 * 0.4 + 0.8 * 0.6))
  /\ (let a := AiAnalysis.asAnalysis
                 (AiAnalysis.analyzeTextContent currentYear Scenario.noCityText) in
      vehicleInfo a = vehicleInfo Scenario.noCityAnalysis
      /\ summary a = summary Scenario.noCityAnalysis
      /\ locationInfo a = locationInfo Scenario.noCityAnalysis
      /\ relevanceScore a = Some (0.8 * 0.4 + 0.8 * 0.6))
  /\ (let a := AiAnalysis.asAnalysis
                 (AiAnalysis.analyzeTextContent currentYear
                    Scenario.superchargerText) in
      vehicleInfo a = vehicleInfo Scenario.superchargerAnalysis
      /\ summary a = summary Scenario.superchargerAnalysis
      /\ locationInfo a = locationInfo Scenario.superchargerAnalysis
      /\ relevanceScore a = Some (0.8 * 0.4 + 0 * 0.6)).
Proof.
  repeat split; reflexivity.
Qed.

End ScenarioAnalyses.
